(** * The aes256 filter of the SX client (sx-api/sxfilter/filter_aes256.c)

    A shallow embedding of the filter's key provisioning
    ([aes256_data_prepare]) and of its block-streaming engine
    ([aes256_data_process]), with the properties of the filter's
    specification stated and proved over it.

    Conventions of the embedding:
    - a byte is [Byte.byte], a buffer is a [list byte];
    - [unsigned int] is a [Z] reduced modulo 2^32 after every operation
      ([u32]), [size_t] a [Z] reduced modulo 2^64 ([usize]);
    - OpenSSL and the host library are not part of the filter: their
      operations are the fields of the record [crypto], and what the
      proofs need of them is the record [crypto_laws];
    - the file system under the configuration directory, the metadata
      map, the password prompt and the log are the fields of [world]. *)

From Stdlib Require Import ZArith Lia List.
From Stdlib Require Import Strings.String Strings.Byte.
From stdpp Require Import base option list gmap strings.

Open Scope Z_scope.

(** ** Bytes and buffers *)

Abbreviation bytes := (list byte).

#[global] Instance byte_eq_decision : EqDecision byte := Byte.byte_eq_dec.

Definition byte_to_Z (b : byte) : Z := Z.of_N (Byte.to_N b).

Definition zeros (n : Z) : bytes := replicate (Z.to_nat n) x00.
#[global] Arguments zeros : simpl never.

(** [slice buf off n] reads the [n] bytes of [buf] that start at offset
    [off] (the C expression [buf + off] read for [n] bytes). *)
Definition slice (buf : bytes) (off n : Z) : bytes :=
  take (Z.to_nat n) (drop (Z.to_nat off) buf).

(** [memcpy dst off src n] is [memcpy(dst + off, src, n)]: the [n] first
    bytes of [src] replace the bytes [off .. off+n) of [dst]. *)
Definition memcpy (dst : bytes) (off : Z) (src : bytes) (n : Z) : bytes :=
  take (Z.to_nat off) dst ++ take (Z.to_nat n) src
    ++ drop (Z.to_nat (off + n)) dst.

(** [memcmp a b n <> 0] *)
Definition memcmp_differs (a b : bytes) (n : Z) : bool :=
  bool_decide (take (Z.to_nat n) a ≠ take (Z.to_nat n) b).

(** ** Machine integers *)

Definition u32 (x : Z) : Z := x mod 2 ^ 32.
Definition usize (x : Z) : Z := x mod 2 ^ 64.

(** ** Constants of the filter *)

Definition SHA512_DIGEST_LENGTH : Z := 64.
Definition SHA256_DIGEST_LENGTH : Z := 32.
Definition EVP_MAX_MD_SIZE : Z := 64.
Definition AES_BLOCK_SIZE : Z := 16.

Definition FILTER_BLOCK_SIZE : Z := 16384.
Definition KEY_SIZE : Z := SHA512_DIGEST_LENGTH.
Definition IV_SIZE : Z := 16.
Definition MAC_SIZE : Z := 32.
Definition SALT_SIZE : Z := 16.
Definition FP_SIZE : Z := SALT_SIZE + KEY_SIZE.

(** [sizeof(actx->in)] and [sizeof(actx->blk)] *)
Definition BUF_SIZE : Z :=
  IV_SIZE + FILTER_BLOCK_SIZE + AES_BLOCK_SIZE + MAC_SIZE.

(** ** The host's enumerations (the values the filter names) *)

Inductive sxf_mode_t := SXF_MODE_UPLOAD | SXF_MODE_DOWNLOAD.
Inductive sxf_action_t :=
  SXF_ACTION_NORMAL | SXF_ACTION_REPEAT | SXF_ACTION_DATA_END.
Inductive sx_log_level := SX_LOG_NOTICE | SX_LOG_WARNING | SX_LOG_ERR.

#[global] Instance sxf_mode_eq_dec : EqDecision sxf_mode_t.
Proof. solve_decision. Defined.
#[global] Instance sxf_action_eq_dec : EqDecision sxf_action_t.
Proof. solve_decision. Defined.
#[global] Instance sx_log_level_eq_dec : EqDecision sx_log_level.
Proof. solve_decision. Defined.

Definition log_entry : Type := sx_log_level * string.

(** ** The cryptographic library, as parameters *)

Inductive EVP_MD := EVP_sha1 | EVP_sha512.

#[global] Instance EVP_MD_eq_dec : EqDecision EVP_MD.
Proof. solve_decision. Defined.

(** The primitives the filter calls.  The four [cbc_*] fields are
    AES-256-CBC as the EVP layer exposes it, for one [Update] followed
    by one [Final] after an [Init]: arguments are the key, the IV and the
    whole input of the [Update]. *)
Record crypto := {
  HMAC : EVP_MD → bytes → bytes → bytes;
  cbc_enc_update : bytes → bytes → bytes → bytes;
  cbc_enc_final : bytes → bytes → bytes → bytes;
  cbc_dec_update : bytes → bytes → bytes → bytes;
  cbc_dec_final : bytes → bytes → bytes → option bytes;
  SHA256 : bytes → bytes;
  SHA512 : bytes → bytes;
  (** [sxi_derive_key pass salt]: the printable KDF string, or failure *)
  sxi_derive_key : string → bytes → option string;
  sxi_bin2hex : bytes → string
}.

(** What the proofs use of the primitives: digest sizes, the size of a
    padded CBC encryption, and that decryption undoes encryption. *)
Record crypto_laws (C : crypto) : Prop := {
  HMAC_sha1_length : ∀ k m, length (HMAC C EVP_sha1 k m) = 20%nat;
  HMAC_sha512_length : ∀ k m, length (HMAC C EVP_sha512 k m) = 64%nat;
  cbc_enc_update_length : ∀ k iv p,
    length (cbc_enc_update C k iv p) = (16 * (length p / 16))%nat;
  cbc_enc_final_length : ∀ k iv p,
    length (cbc_enc_final C k iv p) = 16%nat;
  cbc_dec_update_length : ∀ k iv c,
    (length (cbc_dec_update C k iv c) ≤ length c)%nat;
  cbc_dec_final_length : ∀ k iv c fin,
    cbc_dec_final C k iv c = Some fin → (length fin ≤ 16)%nat;
  cbc_dec_enc : ∀ k iv p,
    let c := cbc_enc_update C k iv p ++ cbc_enc_final C k iv p in
    ∃ fin, cbc_dec_final C k iv c = Some fin
           ∧ cbc_dec_update C k iv c ++ fin = p
}.

(** An HMAC context: digest, key, and the message fed since the last
    (re)initialisation. *)
Record HMAC_CTX := {
  hm_md : EVP_MD;
  hm_key : bytes;
  hm_data : bytes
}.

(** [HMAC_CTX_init], then the state of a context in [calloc]ed memory *)
Definition HMAC_CTX_zero : HMAC_CTX :=
  {| hm_md := EVP_sha1; hm_key := []; hm_data := [] |}.

(** [HMAC_Init_ex(ctx, key, len, md, NULL)]; with [key = NULL] and
    [md = NULL] the context is reset and keeps its key and digest. *)
Definition hmac_init_ex (ctx : HMAC_CTX) (k : option bytes)
    (md : option EVP_MD) : HMAC_CTX :=
  {| hm_md := default (hm_md ctx) md;
     hm_key := default (hm_key ctx) k;
     hm_data := [] |}.

Definition hmac_update (ctx : HMAC_CTX) (d : bytes) : HMAC_CTX :=
  {| hm_md := hm_md ctx; hm_key := hm_key ctx;
     hm_data := hm_data ctx ++ d |}.

(** [HMAC_Final]: the digest (its length is the [len] output) *)
Definition hmac_final (C : crypto) (ctx : HMAC_CTX) : bytes :=
  HMAC C (hm_md ctx) (hm_key ctx) (hm_data ctx).

(** A cipher context: key, IV, and the input of the [Update] since the
    last initialisation. *)
Record EVP_CIPHER_CTX := {
  ci_key : bytes;
  ci_iv : bytes;
  ci_data : bytes
}.

Definition EVP_CIPHER_CTX_zero : EVP_CIPHER_CTX :=
  {| ci_key := []; ci_iv := []; ci_data := [] |}.

(** [EVP_EncryptInit_ex] and [EVP_DecryptInit_ex]: a [NULL] key or IV
    keeps the one the context has. *)
Definition EVP_CipherInit_ex (ctx : EVP_CIPHER_CTX) (k iv : option bytes)
    : EVP_CIPHER_CTX :=
  {| ci_key := default (ci_key ctx) k;
     ci_iv := default (ci_iv ctx) iv;
     ci_data := [] |}.

Definition EVP_EncryptUpdate (C : crypto) (ctx : EVP_CIPHER_CTX)
    (d : bytes) : bytes * EVP_CIPHER_CTX :=
  (cbc_enc_update C (ci_key ctx) (ci_iv ctx) d,
   {| ci_key := ci_key ctx; ci_iv := ci_iv ctx; ci_data := d |}).

Definition EVP_EncryptFinal_ex (C : crypto) (ctx : EVP_CIPHER_CTX) : bytes :=
  cbc_enc_final C (ci_key ctx) (ci_iv ctx) (ci_data ctx).

Definition EVP_DecryptUpdate (C : crypto) (ctx : EVP_CIPHER_CTX)
    (d : bytes) : bytes * EVP_CIPHER_CTX :=
  (cbc_dec_update C (ci_key ctx) (ci_iv ctx) d,
   {| ci_key := ci_key ctx; ci_iv := ci_iv ctx; ci_data := d |}).

(** [None] when the padding check of the last block fails *)
Definition EVP_DecryptFinal_ex (C : crypto) (ctx : EVP_CIPHER_CTX)
    : option bytes :=
  cbc_dec_final C (ci_key ctx) (ci_iv ctx) (ci_data ctx).

(** ** [struct aes256_ctx] *)

Record aes256_ctx := {
  ectx : EVP_CIPHER_CTX;
  dctx : EVP_CIPHER_CTX;
  ivhash : HMAC_CTX;
  hmac : HMAC_CTX;
  key : bytes;
  ivmac : bytes;
  inbytes : Z;
  blkbytes : Z;
  data_in : Z;
  data_out_left : Z;
  data_end : Z;
  in_ : bytes;
  blk : bytes;
  keyfile : option string;
  decrypt_err : Z
}.

(** [calloc(1, sizeof(struct aes256_ctx))] *)
Definition aes256_ctx_zero : aes256_ctx :=
  {| ectx := EVP_CIPHER_CTX_zero; dctx := EVP_CIPHER_CTX_zero;
     ivhash := HMAC_CTX_zero; hmac := HMAC_CTX_zero;
     key := zeros KEY_SIZE; ivmac := zeros EVP_MAX_MD_SIZE;
     inbytes := 0; blkbytes := 0; data_in := 0; data_out_left := 0;
     data_end := 0;
     in_ := zeros BUF_SIZE; blk := zeros BUF_SIZE;
     keyfile := None; decrypt_err := 0 |}.

Definition set_ectx (v : EVP_CIPHER_CTX) (a : aes256_ctx) : aes256_ctx :=
  Build_aes256_ctx v (dctx a) (ivhash a) (hmac a) (key a) (ivmac a)
    (inbytes a) (blkbytes a) (data_in a) (data_out_left a) (data_end a)
    (in_ a) (blk a) (keyfile a) (decrypt_err a).
Definition set_dctx (v : EVP_CIPHER_CTX) (a : aes256_ctx) : aes256_ctx :=
  Build_aes256_ctx (ectx a) v (ivhash a) (hmac a) (key a) (ivmac a)
    (inbytes a) (blkbytes a) (data_in a) (data_out_left a) (data_end a)
    (in_ a) (blk a) (keyfile a) (decrypt_err a).
Definition set_ivhash (v : HMAC_CTX) (a : aes256_ctx) : aes256_ctx :=
  Build_aes256_ctx (ectx a) (dctx a) v (hmac a) (key a) (ivmac a)
    (inbytes a) (blkbytes a) (data_in a) (data_out_left a) (data_end a)
    (in_ a) (blk a) (keyfile a) (decrypt_err a).
Definition set_hmac (v : HMAC_CTX) (a : aes256_ctx) : aes256_ctx :=
  Build_aes256_ctx (ectx a) (dctx a) (ivhash a) v (key a) (ivmac a)
    (inbytes a) (blkbytes a) (data_in a) (data_out_left a) (data_end a)
    (in_ a) (blk a) (keyfile a) (decrypt_err a).
Definition set_key (v : bytes) (a : aes256_ctx) : aes256_ctx :=
  Build_aes256_ctx (ectx a) (dctx a) (ivhash a) (hmac a) v (ivmac a)
    (inbytes a) (blkbytes a) (data_in a) (data_out_left a) (data_end a)
    (in_ a) (blk a) (keyfile a) (decrypt_err a).
Definition set_ivmac (v : bytes) (a : aes256_ctx) : aes256_ctx :=
  Build_aes256_ctx (ectx a) (dctx a) (ivhash a) (hmac a) (key a) v
    (inbytes a) (blkbytes a) (data_in a) (data_out_left a) (data_end a)
    (in_ a) (blk a) (keyfile a) (decrypt_err a).
Definition set_inbytes (v : Z) (a : aes256_ctx) : aes256_ctx :=
  Build_aes256_ctx (ectx a) (dctx a) (ivhash a) (hmac a) (key a) (ivmac a)
    v (blkbytes a) (data_in a) (data_out_left a) (data_end a)
    (in_ a) (blk a) (keyfile a) (decrypt_err a).
Definition set_blkbytes (v : Z) (a : aes256_ctx) : aes256_ctx :=
  Build_aes256_ctx (ectx a) (dctx a) (ivhash a) (hmac a) (key a) (ivmac a)
    (inbytes a) v (data_in a) (data_out_left a) (data_end a)
    (in_ a) (blk a) (keyfile a) (decrypt_err a).
Definition set_data_in (v : Z) (a : aes256_ctx) : aes256_ctx :=
  Build_aes256_ctx (ectx a) (dctx a) (ivhash a) (hmac a) (key a) (ivmac a)
    (inbytes a) (blkbytes a) v (data_out_left a) (data_end a)
    (in_ a) (blk a) (keyfile a) (decrypt_err a).
Definition set_data_out_left (v : Z) (a : aes256_ctx) : aes256_ctx :=
  Build_aes256_ctx (ectx a) (dctx a) (ivhash a) (hmac a) (key a) (ivmac a)
    (inbytes a) (blkbytes a) (data_in a) v (data_end a)
    (in_ a) (blk a) (keyfile a) (decrypt_err a).
Definition set_data_end (v : Z) (a : aes256_ctx) : aes256_ctx :=
  Build_aes256_ctx (ectx a) (dctx a) (ivhash a) (hmac a) (key a) (ivmac a)
    (inbytes a) (blkbytes a) (data_in a) (data_out_left a) v
    (in_ a) (blk a) (keyfile a) (decrypt_err a).
Definition set_in (v : bytes) (a : aes256_ctx) : aes256_ctx :=
  Build_aes256_ctx (ectx a) (dctx a) (ivhash a) (hmac a) (key a) (ivmac a)
    (inbytes a) (blkbytes a) (data_in a) (data_out_left a) (data_end a)
    v (blk a) (keyfile a) (decrypt_err a).
Definition set_blk (v : bytes) (a : aes256_ctx) : aes256_ctx :=
  Build_aes256_ctx (ectx a) (dctx a) (ivhash a) (hmac a) (key a) (ivmac a)
    (inbytes a) (blkbytes a) (data_in a) (data_out_left a) (data_end a)
    (in_ a) v (keyfile a) (decrypt_err a).
Definition set_keyfile (v : option string) (a : aes256_ctx) : aes256_ctx :=
  Build_aes256_ctx (ectx a) (dctx a) (ivhash a) (hmac a) (key a) (ivmac a)
    (inbytes a) (blkbytes a) (data_in a) (data_out_left a) (data_end a)
    (in_ a) (blk a) v (decrypt_err a).
Definition set_decrypt_err (v : Z) (a : aes256_ctx) : aes256_ctx :=
  Build_aes256_ctx (ectx a) (dctx a) (ivhash a) (hmac a) (key a) (ivmac a)
    (inbytes a) (blkbytes a) (data_in a) (data_out_left a) (data_end a)
    (in_ a) (blk a) (keyfile a) v.

(** ** [hmac_compare] *)

(** [mismatch |= *hmac1++ ^ *hmac2++], [len] times.  The two buffers are
    read in step; the loop stops with the shorter one, which the callers
    never reach. *)
Fixpoint hmac_compare_loop (mismatch : Z) (hmac1 hmac2 : bytes) (len : nat)
    {struct len} : Z :=
  match len with
  | O => mismatch
  | S len' =>
      match hmac1, hmac2 with
      | b1 :: hmac1', b2 :: hmac2' =>
          hmac_compare_loop
            (Z.lor mismatch (Z.lxor (byte_to_Z b1) (byte_to_Z b2)))
            hmac1' hmac2' len'
      | _, _ => mismatch
      end
  end.

Definition hmac_compare (hmac1 hmac2 : bytes) (len : Z) : Z :=
  hmac_compare_loop 0 hmac1 hmac2 (Z.to_nat len).

(** ** [aes256_data_process] *)

(** What one call leaves behind: the returned count, the context, the
    bytes stored at the start of [out], the value of [*action], and the
    messages sent to the log. *)
Record process_result := {
  p_ret : Z;
  p_ctx : aes256_ctx;
  p_out : bytes;
  p_action : sxf_action_t;
  p_log : list log_entry
}.

Definition process_error (msg : string) (actx : aes256_ctx)
    (action : sxf_action_t) : process_result :=
  {| p_ret := -1; p_ctx := actx; p_out := []; p_action := action;
     p_log := [(SX_LOG_ERR, msg)] |}.

Inductive block_result :=
  | BlockOk (actx : aes256_ctx)
  | BlockErr (msg : string) (actx : aes256_ctx).

Definition blen (b : bytes) : Z := Z.of_nat (length b).
#[global] Arguments blen : simpl never.

Section Process.
Context (C : crypto).

(** The upload branch of the block step (the [if(mode == SXF_MODE_UPLOAD)]
    arm): IV from the chained HMAC-SHA-1, CBC encryption, truncated
    HMAC-SHA-512 tag. *)
Definition encrypt_block (a : aes256_ctx) : block_result :=
  let a := set_ivhash (hmac_init_ex (ivhash a) None None) a in
  let a := set_ivhash
             (hmac_update
                (hmac_update (ivhash a) (slice (ivmac a) 0 EVP_MAX_MD_SIZE))
                (slice (in_ a) 0 (inbytes a))) a in
  let mac := hmac_final C (ivhash a) in
  let ivlen := blen mac in
  if decide (ivlen < IV_SIZE) then BlockErr "Wrong digest size: %d" a
  else
    (* calculate iv of next block using iv of previous block *)
    let a := set_ivmac (memcpy (ivmac a) 0 mac ivlen) a in
    let ivaes := slice mac 0 IV_SIZE in
    let a := set_blk (memcpy (blk a) 0 ivaes IV_SIZE) a in
    let a := set_ectx (EVP_CipherInit_ex (ectx a) None (Some ivaes)) a in
    let '(upd, e) :=
      EVP_EncryptUpdate C (ectx a) (slice (in_ a) 0 (inbytes a)) in
    let a := set_ectx e a in
    let a := set_blk (memcpy (blk a) IV_SIZE upd (blen upd)) a in
    let a := set_blkbytes (blen upd) a in
    let a := set_blkbytes (u32 (blkbytes a + IV_SIZE)) a in
    let fin := EVP_EncryptFinal_ex C (ectx a) in
    let final := blen fin in
    let a := set_blk (memcpy (blk a) (blkbytes a) fin final) a in
    let a := set_hmac (hmac_init_ex (hmac a) None None) a in
    let a := set_blkbytes (u32 (blkbytes a + final)) a in
    let a := set_hmac
               (hmac_update (hmac a) (slice (blk a) 0 (blkbytes a))) a in
    let mac := hmac_final C (hmac a) in
    let maclen := blen mac / 2 in
    if decide (maclen ≠ MAC_SIZE) then BlockErr "Bad MAC size: %d" a
    else
      let a := set_blk (memcpy (blk a) (blkbytes a) mac maclen) a in
      BlockOk (set_blkbytes (u32 (blkbytes a + maclen)) a).

(** The download branch of the block step: tag check, then CBC
    decryption with the IV found on the wire. *)
Definition decrypt_block (a : aes256_ctx) : block_result :=
  let a := set_hmac (hmac_init_ex (hmac a) None None) a in
  if decide (inbytes a < IV_SIZE + MAC_SIZE) then
    BlockErr "Incomplete data: %d bytes" a
  else
    let a := set_inbytes (u32 (inbytes a - MAC_SIZE)) a in
    let a := set_hmac
               (hmac_update (hmac a) (slice (in_ a) 0 (inbytes a))) a in
    let mac := hmac_final C (hmac a) in
    let maclen := blen mac / 2 in
    if decide (maclen ≠ MAC_SIZE) then BlockErr "Bad HMAC size: %d bytes" a
    else if decide
              (hmac_compare (drop (Z.to_nat (inbytes a)) (in_ a)) mac maclen
               ≠ 0)
    then
      BlockErr "HMAC mismatch (Invalid password/key file or broken data)"
        (set_decrypt_err 1 a)
    else
      let ivaes := slice (in_ a) 0 IV_SIZE in
      let a := set_dctx (EVP_CipherInit_ex (dctx a) None (Some ivaes)) a in
      let '(upd, d) :=
        EVP_DecryptUpdate C (dctx a)
          (slice (in_ a) IV_SIZE (u32 (inbytes a - IV_SIZE))) in
      let a := set_dctx d a in
      let a := set_blk (memcpy (blk a) 0 upd (blen upd)) a in
      let a := set_blkbytes (blen upd) a in
      match EVP_DecryptFinal_ex C (dctx a) with
      | None =>
          BlockErr
            "EVP_DecryptFinal_ex failed (Invalid password/key file or broken data)"
            (set_decrypt_err 1 a)
      | Some fin =>
          let final := blen fin in
          let a := set_blk (memcpy (blk a) (blkbytes a) fin final) a in
          BlockOk (set_blkbytes (u32 (blkbytes a + final)) a)
      end.

(** [bsize] *)
Definition bsize_of (mode : sxf_mode_t) : Z :=
  if decide (mode = SXF_MODE_UPLOAD) then FILTER_BLOCK_SIZE else BUF_SIZE.

(** Lines 499-512: [data_end] is latched and as much of the caller's
    input as the staging buffer still takes is copied into it. *)
Definition ingest (actx : aes256_ctx) (in_buf : bytes) (insize : Z)
    (mode : sxf_mode_t) (action : sxf_action_t) : aes256_ctx :=
  let bsize := bsize_of mode in
  let a :=
    if decide (action = SXF_ACTION_DATA_END) then set_data_end 1 actx
    else actx in
  let bytes :=
    if decide (usize (insize - data_in a) >= u32 (bsize - inbytes a))
    then u32 (bsize - inbytes a)
    else u32 (usize (insize - data_in a)) in
  let a :=
    set_in (memcpy (in_ a) (inbytes a)
              (drop (Z.to_nat (data_in a)) in_buf) bytes) a in
  let a := set_data_in (u32 (data_in a + bytes)) a in
  set_inbytes (u32 (inbytes a + bytes)) a.

(** The condition of line 514 *)
Definition block_due (a : aes256_ctx) (mode : sxf_mode_t)
    (action : sxf_action_t) : Prop :=
  inbytes a = bsize_of mode
  ∨ (inbytes a ≠ 0 ∧ (action = SXF_ACTION_DATA_END ∨ data_end a ≠ 0)).

#[global] Instance block_due_dec a mode action
  : Decision (block_due a mode action).
Proof. unfold block_due. apply _. Defined.

Definition aes256_data_process (actx : aes256_ctx) (in_buf : bytes)
    (insize outsize : Z) (mode : sxf_mode_t) (action : sxf_action_t)
    : process_result :=
  if decide (action = SXF_ACTION_REPEAT ∧ data_out_left actx ≠ 0) then
    if decide (data_out_left actx > outsize) then
      {| p_ret := outsize;
         p_ctx := set_data_out_left (u32 (data_out_left actx - outsize)) actx;
         p_out := slice (blk actx)
                    (u32 (blkbytes actx - data_out_left actx)) outsize;
         p_action := action;
         p_log := [] |}
    else
      let data_out := data_out_left actx in
      let out :=
        slice (blk actx) (u32 (blkbytes actx - data_out_left actx))
          (data_out_left actx) in
      let a := set_data_out_left 0 actx in
      let a := set_blkbytes 0 a in
      if decide (data_in a = insize) then
        {| p_ret := data_out;
           p_ctx := set_data_in 0 a;
           p_out := out;
           p_action := if decide (data_end a = 0) then SXF_ACTION_NORMAL
                       else SXF_ACTION_DATA_END;
           p_log := [] |}
      else
        {| p_ret := data_out; p_ctx := a; p_out := out; p_action := action;
           p_log := [] |}
  else
    let a := ingest actx in_buf insize mode action in
    if decide (block_due a mode action) then
      match (if decide (mode = SXF_MODE_UPLOAD) then encrypt_block a
             else decrypt_block a) with
      | BlockErr msg a => process_error msg a action
      | BlockOk a =>
          let a := set_inbytes 0 a in
          if decide (blkbytes a > outsize) then
            {| p_ret := outsize;
               p_ctx := set_data_out_left (u32 (blkbytes a - outsize)) a;
               p_out := slice (blk a) 0 outsize;
               p_action := SXF_ACTION_REPEAT;
               p_log := [] |}
          else
            let out := slice (blk a) 0 (blkbytes a) in
            let final := blkbytes a in
            let a := set_blkbytes 0 a in
            if decide (data_in a = insize) then
              {| p_ret := final;
                 p_ctx := set_data_in 0 a;
                 p_out := out;
                 p_action := if decide (data_end a = 0) then SXF_ACTION_NORMAL
                             else SXF_ACTION_DATA_END;
                 p_log := [] |}
            else
              {| p_ret := final; p_ctx := a; p_out := out;
                 p_action := SXF_ACTION_REPEAT; p_log := [] |}
      end
    else (* need more input data *)
      {| p_ret := 0; p_ctx := set_data_in 0 a; p_out := [];
         p_action := SXF_ACTION_NORMAL; p_log := [] |}.

End Process.

(** ** The world of [aes256_data_prepare] *)

(** The calls of [aes256_data_prepare] that can fail for reasons outside
    the filter, one constructor for each call site.  [unlink] and the
    [close] after reading the key file are not listed: the filter does
    not look at their results. *)
Inductive fault :=
  | F_malloc_fpfile
  | F_open_custfp_creat
  | F_write_custfp
  | F_open_custfp_rdonly
  | F_read_custfp
  | F_close_custfp
  | F_malloc_keyfile
  | F_open_key_rdonly
  | F_read_key
  | F_meta_setval
  | F_open_key_trunc
  | F_write_key
  | F_close_key
  | F_calloc_ctx
  | F_hmac_init_ivhash
  | F_hmac_init_hmac
  | F_cipher_init.

(** What a call of [aes256_data_prepare] finds around it and does not
    change. *)
Record env := {
  (** which of the calls above fail in this run *)
  fails : fault → bool;
  (** [SSLeay()] and [SSLEAY_VERSION_NUMBER] *)
  runtime_ver : Z;
  compile_ver : Z;
  (** the bytes [RAND_pseudo_bytes] stores *)
  rand_bytes : bytes;
  (** the contents of the local array [salt] on entry (indeterminate) *)
  stack_salt : bytes;
  (** the contents of the local array [fp] on entry (indeterminate) *)
  stack_fp : bytes
}.

(** What it can change: the files (path to contents), the custom
    metadata of the volume, the answers [sxc_filter_get_input] has yet
    to give ([None]: the call fails), and the log. *)
Record world := {
  files : gmap string bytes;
  meta : gmap string bytes;
  inputs : list (option string);
  log : list log_entry
}.

Definition set_files (v : gmap string bytes) (w : world) : world :=
  {| files := v; meta := meta w; inputs := inputs w; log := log w |}.
Definition set_meta (v : gmap string bytes) (w : world) : world :=
  {| files := files w; meta := v; inputs := inputs w; log := log w |}.
Definition set_inputs (v : list (option string)) (w : world) : world :=
  {| files := files w; meta := meta w; inputs := v; log := log w |}.
Definition set_log (v : list log_entry) (w : world) : world :=
  {| files := files w; meta := meta w; inputs := inputs w; log := v |}.

(** A computation that changes the world and either yields a value or
    has made its function return [-1] ([None]). *)
Definition M (A : Type) : Type := world → option A * world.

#[global] Instance M_ret : MRet M := λ A a w, (Some a, w).
#[global] Instance M_bind : MBind M := λ A B k m w,
  match m w with
  | (Some a, w') => k a w'
  | (None, w') => (None, w')
  end.

Definition fail {A} : M A := λ w, (None, w).
Definition sxc_filter_msg (lvl : sx_log_level) (msg : string) : M unit :=
  λ w, (Some (), set_log (log w ++ [(lvl, msg)]) w).
Definition NOTICE := sxc_filter_msg SX_LOG_NOTICE.
Definition WARN := sxc_filter_msg SX_LOG_WARNING.
Definition ERROR := sxc_filter_msg SX_LOG_ERR.
(** [ERROR(msg); return -1;] *)
Definition error {A} (msg : string) : M A := ERROR msg ;; fail.
(** [if(m) { ERROR(msg); return -1; }] for a call [m] that itself
    returns [-1] on failure *)
Definition or_error {A} (m : M A) (msg : string) : M A := λ w,
  match m w with
  | (None, w') => (None, set_log (log w' ++ [(SX_LOG_ERR, msg)]) w')
  | r => r
  end.
Definition get_world : M world := λ w, (Some w, w).

(** File system calls.  A descriptor always refers to the file just
    opened, so it is not modelled; a failing [write] stores nothing. *)
Definition access_F_OK (path : string) : M bool :=
  λ w, (Some (bool_decide (is_Some (files w !! path))), w).
(** [open3(path, O_WRONLY | O_CREAT [| O_TRUNC], 0600)] when it succeeds *)
Definition open_creat (path : string) (trunc : bool) : M unit := λ w,
  (Some (),
   set_files
     (<[path := if trunc then [] else default [] (files w !! path)]>
        (files w)) w).
(** [write(fd, data, n)] at offset 0 when it succeeds *)
Definition write_file (path : string) (data : bytes) (n : Z) : M unit := λ w,
  let old := default [] (files w !! path) in
  (Some (), set_files (<[path := memcpy old 0 data n]> (files w)) w).
Definition unlink (path : string) : M unit :=
  λ w, (Some (), set_files (delete path (files w)) w).
Definition read_contents (path : string) : M (option bytes) :=
  λ w, (Some (files w !! path), w).

Definition sxc_meta_getval (k : string) : M (option bytes) :=
  λ w, (Some (meta w !! k), w).
Definition sxc_meta_setval (k : string) (v : bytes) (n : Z) : M unit :=
  λ w, (Some (), set_meta (<[k := slice v 0 n]> (meta w)) w).

(** [sxc_filter_get_input]: the next answer; [None] when it fails.
    When no answer is left the call fails. *)
Definition sxc_filter_get_input : M (option string) := λ w,
  match inputs w with
  | [] => (Some None, w)
  | a :: rest => (Some a, set_inputs rest w)
  end.

Definition strlen (s : string) : Z := Z.of_nat (String.length s).

(** The outcome of one password prompt: [0] with the key, or [1]
    (ask again); [-1] is the failure of the computation. *)
Inductive pw_result :=
  | PwKey (k : bytes)
  | PwAgain.

Section Prepare.
Context (C : crypto) (E : env).

Definition derive_key (pass : string) (salt : bytes) (salt_size : Z)
    (out_size : Z) : M bytes :=
  match sxi_derive_key C pass (slice salt 0 salt_size) with
  | None => error "Failed to derive key"
  | Some keybuf =>
      (* crypt returns a string containing the setting, the salt and the
         hashed password, hash it once more to avoid accidentally using the
         salt as a key *)
      let out := SHA512 C (list_byte_of_string keybuf) in
      if decide (blen out ≠ out_size) then error "Bad digest size: %d bytes"
      else mret out
  end.

Definition getpassword (repeat : bool) (mode : sxf_mode_t) (salt : bytes)
    : M pw_result :=
  r1 ← sxc_filter_get_input;
  match r1 with
  | None => WARN "[aes256]: Can't obtain password\n" ;; fail
  | Some pass1 =>
      if decide (strlen pass1 < 8) then
        WARN "[aes256]: ERROR: Password must be at least 8 characters long\n" ;;
        mret PwAgain
      else
        let finish : M pw_result :=
          k ← derive_key pass1 salt SALT_SIZE KEY_SIZE; mret (PwKey k) in
        if repeat then
          r2 ← sxc_filter_get_input;
          match r2 with
          | None => WARN "[aes256]: Can't obtain password\n" ;; fail
          | Some pass2 =>
              if decide (pass1 ≠ pass2) then
                WARN "[aes256]: ERROR: Passwords don't match\n" ;;
                mret PwAgain
              else finish
          end
        else finish
  end.

(** [while((ret = getpassword(...)) == 1);] with a bound on the number
    of rounds; [getpassword_retry] below gives a bound that is never
    reached. *)
Fixpoint getpassword_loop (fuel : nat) (repeat : bool) (mode : sxf_mode_t)
    (salt : bytes) : M bytes :=
  match fuel with
  | O => fail
  | S fuel' =>
      r ← getpassword repeat mode salt;
      match r with
      | PwKey k => mret k
      | PwAgain => getpassword_loop fuel' repeat mode salt
      end
  end.

(** Every round that asks again has consumed an answer, and a prompt
    with no answer left fails: one round more than there are answers
    is enough. *)
Definition getpassword_retry (repeat : bool) (mode : sxf_mode_t)
    (salt : bytes) : M bytes :=
  λ w, getpassword_loop (S (length (inputs w))) repeat mode salt w.

(** [keyfp]: with [current_fp] it checks the key against the
    fingerprint and yields nothing; without, it yields the new
    fingerprint (the 80 bytes stored at [new_fp]). *)
Definition keyfp (key : bytes) (current_fp : option bytes) : M bytes :=
  let salt :=
    match current_fp with
    | Some fp => slice fp 0 SALT_SIZE
    | None => slice (rand_bytes E) 0 SALT_SIZE
    end in
  let current_digest :=
    match current_fp with
    | Some fp => slice fp SALT_SIZE KEY_SIZE
    | None => []
    end in
  let tmp := SHA256 C (slice key 0 KEY_SIZE) in
  let keyfphex := sxi_bin2hex C (slice tmp 0 SHA256_DIGEST_LENGTH) in
  digest ← or_error (derive_key keyfphex salt SALT_SIZE KEY_SIZE)
             "Can't create key fingerprint";
  match current_fp with
  | Some _ =>
      if memcmp_differs digest current_digest KEY_SIZE
      then error "Invalid password"
      else mret []
  | None =>
      (* FP = FP_SALT + DIGEST *)
      mret (slice salt 0 SALT_SIZE ++ slice digest 0 KEY_SIZE)
  end.

(** Lines 261-319: when the blob is absent or of the nogenkey size and
    the metadata holds [aes256_fp], that value becomes the blob, and the
    file [custfp] is created, or compared with it. *)
Definition reconcile_custfp (cfgdir : string) (cfgdata : option bytes)
    : M (option bytes) :=
  if decide (cfgdata = None ∨ blen (default [] cfgdata) = SALT_SIZE + 1)
  then
    r ← sxc_meta_getval "aes256_fp";
    match r with
    | Some mdata =>
        let mdata_len := blen mdata in
        (if fails E F_malloc_fpfile then error "OOM" else mret ()) ;;
        let fpfile := String.append cfgdir "/custfp" in
        present ← access_F_OK fpfile;
        (if negb present then
           (if fails E F_open_custfp_creat
            then error "Can't create file %s"
            else open_creat fpfile false) ;;
           (if fails E F_write_custfp
            then error "Can't write to file %s"
            else write_file fpfile mdata mdata_len)
         else
           (if fails E F_open_custfp_rdonly
            then error "Can't open file %s" else mret ()) ;;
           contents ← read_contents fpfile;
           let custfp := slice (default [] contents) 0 (SALT_SIZE + FP_SIZE) in
           (if fails E F_read_custfp
               || bool_decide (blen custfp ≠ SALT_SIZE + FP_SIZE)
            then error "Can't read file %s" else mret ()) ;;
           if memcmp_differs custfp mdata mdata_len then
             NOTICE "Detected volume password change" ;;
             unlink fpfile ;;
             unlink (String.append cfgdir "/key")
           else mret ()) ;;
        (if fails E F_close_custfp
         then error "Can't close descriptor %d" else mret ()) ;;
        mret (Some mdata)
    | None => mret cfgdata
    end
  else mret cfgdata.

(** The locals of [aes256_data_prepare] that the later steps read *)
Record locals := {
  l_keyread : bool;
  l_key : bytes;
  l_salt : bytes;
  l_fp : bytes;
  l_have_fp : bool
}.

(** Lines 322-340: the blob is read according to its length. *)
Definition dispatch_blob (filename : string) (cfgdata : option bytes)
    (mode : sxf_mode_t) : M locals :=
  let l0 := {| l_keyread := false; l_key := []; l_salt := stack_salt E;
               l_fp := stack_fp E; l_have_fp := false |} in
  match cfgdata with
  | Some data =>
      let cfgdata_len := blen data in
      if decide (cfgdata_len = SALT_SIZE) then
        (* paranoid (no-key-file) mode *)
        NOTICE "File '%s' will be %s with provided password" ;;
        let salt := memcpy (l_salt l0) 0 data SALT_SIZE in
        k ← getpassword_retry (bool_decide (mode = SXF_MODE_UPLOAD)) mode salt;
        mret {| l_keyread := true; l_key := k; l_salt := salt;
                l_fp := l_fp l0; l_have_fp := false |}
      else if decide (cfgdata_len = SALT_SIZE + 1) then
        (* nogenkey mode -> no fingerprint available *)
        mret {| l_keyread := false; l_key := [];
                l_salt := memcpy (l_salt l0) 0 data SALT_SIZE;
                l_fp := l_fp l0; l_have_fp := false |}
      else if decide (cfgdata_len = SALT_SIZE + FP_SIZE) then
        mret {| l_keyread := false; l_key := [];
                l_salt := memcpy (l_salt l0) 0 data SALT_SIZE;
                l_fp := memcpy (l_fp l0) 0 (drop (Z.to_nat SALT_SIZE) data)
                          FP_SIZE;
                l_have_fp := true |}
      else error "Invalid configuration data"
  | None => mret l0
  end.

(** Lines 390-402: the key is written to the key file; every failure is
    a warning. *)
Definition persist_key (keyfile : string) (key : bytes) : M unit :=
  if fails E F_open_key_trunc then
    WARN "Can't open file %s for writing -- continuing without key file"
  else
    open_creat keyfile true ;;
    if fails E F_write_key then
      unlink keyfile ;;
      WARN "Can't write key data to file %s -- continuing without key file"
    else
      write_file keyfile key KEY_SIZE ;;
      if fails E F_close_key then
        unlink keyfile ;;
        WARN "Can't close file %s -- continuing without key file"
      else mret ().

(** Lines 342-404: the key comes from the key file, or from the
    password; in the second case the fingerprint is checked or created
    and the key file written.  Yields the key and [keyfile]. *)
Definition acquire_key (cfgdir : string) (l : locals) (mode : sxf_mode_t)
    : M (bytes * option string) :=
  if l_keyread l then mret (l_key l, None)
  else
    (if fails E F_malloc_keyfile then error "OOM" else mret ()) ;;
    let keyfile := String.append cfgdir "/key" in
    contents ← read_contents keyfile;
    cached ←
      (if fails E F_open_key_rdonly then
         WARN "Can't open key file %s -- attempt to recreate it" ;;
         mret None
       else
         match contents with
         | None =>
             (if l_have_fp l then
                NOTICE "The local key file doesn't exist and will be created now"
              else
                NOTICE "First upload to the encrypted volume, set the volume password now") ;;
             mret None
         | Some data =>
             if fails E F_read_key || bool_decide (blen data < KEY_SIZE) then
               WARN "Can't read key file %s -- new key file will be created" ;;
               mret None
             else mret (Some (slice data 0 KEY_SIZE))
         end);
    match cached with
    | Some key => mret (key, Some keyfile)
    | None =>
        key ← getpassword_retry
                (if l_have_fp l then false
                 else bool_decide (mode = SXF_MODE_UPLOAD))
                mode (l_salt l);
        (if l_have_fp l then
           keyfp key (Some (l_fp l)) ;; mret ()
         else
           new_fp ← keyfp key None;
           let mdata := slice (l_salt l) 0 SALT_SIZE ++ new_fp in
           if fails E F_meta_setval then error "Failed to set custom meta"
           else sxc_meta_setval "aes256_fp" mdata (SALT_SIZE + FP_SIZE)) ;;
        persist_key keyfile key ;;
        mret (key, Some keyfile)
    end.

(** The bytes of the structure from its member [key] on: [key] and
    [ivmac] are adjacent arrays of [unsigned char], so [actx->key + n]
    for [n >= KEY_SIZE] points into [ivmac]. *)
Definition key_region (a : aes256_ctx) : bytes := key a ++ ivmac a.

(** The key length of [EVP_aes_256_cbc()] *)
Definition AES256_KEY_LENGTH : Z := 32.

(** Lines 406-455: the context is allocated and the HMAC and cipher
    contexts are keyed. *)
Definition init_contexts (k : bytes) (kfile : option string)
    (mode : sxf_mode_t) : M aes256_ctx :=
  (if fails E F_calloc_ctx then error "OOM" else mret ()) ;;
  let actx := set_keyfile kfile aes256_ctx_zero in
  let actx := set_key (memcpy (key actx) 0 k KEY_SIZE) actx in
  (if fails E F_hmac_init_ivhash
   then error "Can't initialize HMAC context(1)" else mret ()) ;;
  let actx :=
    set_ivhash
      (hmac_init_ex HMAC_CTX_zero (Some (slice (key_region actx) 0 (KEY_SIZE / 2)))
         (Some EVP_sha1)) actx in
  (if fails E F_hmac_init_hmac
   then error "Can't initialize HMAC context(2)" else mret ()) ;;
  let actx :=
    set_hmac
      (hmac_init_ex HMAC_CTX_zero (Some (slice (key_region actx) 0 (KEY_SIZE / 2)))
         (Some EVP_sha512)) actx in
  let cipher_key := slice (key_region actx) KEY_SIZE AES256_KEY_LENGTH in
  actx ←
    (if decide (mode = SXF_MODE_UPLOAD) then
       if fails E F_cipher_init
       then error "Can't initialize encryption context"
       else mret (set_ectx
                    (EVP_CipherInit_ex EVP_CIPHER_CTX_zero (Some cipher_key)
                       None) actx)
     else
       if fails E F_cipher_init
       then error "Can't initialize decryption context"
       else mret (set_dctx
                    (EVP_CipherInit_ex EVP_CIPHER_CTX_zero (Some cipher_key)
                       None) actx));
  mret (set_ivmac (zeros EVP_MAX_MD_SIZE) actx).

Definition aes256_data_prepare (filename cfgdir : string)
    (cfgdata : option bytes) (mode : sxf_mode_t) : M aes256_ctx :=
  if decide (Z.land (u32 (runtime_ver E)) 0xff0000000
             ≠ Z.land (u32 (compile_ver E)) 0xff0000000)
  then error "OpenSSL library version mismatch: compiled: %x, runtime: %d"
  else
    cfgdata ← reconcile_custfp cfgdir cfgdata;
    l ← dispatch_blob filename cfgdata mode;
    '(key, keyfile) ← acquire_key cfgdir l mode;
    init_contexts key keyfile mode.

End Prepare.

(** ** A small instance of [crypto]

    A keyed byte-shift "cipher" with PKCS padding and a checksum "MAC":
    it is not secure, and it only serves to run the model and to show
    that [crypto_laws] can be met. *)

Definition byte_of_Z (z : Z) : byte :=
  default x00 (Byte.of_N (Z.to_N (z mod 256))).

Definition bytes_sum (l : bytes) : Z :=
  foldr (λ b s, byte_to_Z b + s) 0 l.

Definition toy_digest (n : nat) (m : bytes) : bytes :=
  (λ i, byte_of_Z (bytes_sum m + Z.of_nat i)) <$> seq 0 n.

Definition toy_HMAC (md : EVP_MD) (k m : bytes) : bytes :=
  toy_digest (match md with EVP_sha1 => 20 | EVP_sha512 => 64 end) (k ++ m).

Definition toy_shift (k iv : bytes) : Z := bytes_sum k + bytes_sum iv.

Definition toy_enc (k iv : bytes) (b : byte) : byte :=
  byte_of_Z (byte_to_Z b + toy_shift k iv).
Definition toy_dec (k iv : bytes) (b : byte) : byte :=
  byte_of_Z (byte_to_Z b - toy_shift k iv).

Definition toy_whole (p : bytes) : nat := (16 * (length p / 16))%nat.

Definition toy_padding (p : bytes) : bytes :=
  let n := (16 - length p `mod` 16)%nat in
  replicate n (byte_of_Z (Z.of_nat n)).

Definition toy_enc_update (k iv p : bytes) : bytes :=
  toy_enc k iv <$> take (toy_whole p) p.
Definition toy_enc_final (k iv p : bytes) : bytes :=
  toy_enc k iv <$> (drop (toy_whole p) p ++ toy_padding p).

Definition toy_dec_update (k iv c : bytes) : bytes :=
  toy_dec k iv <$> take (length c - 16) c.
Definition toy_dec_final (k iv c : bytes) : option bytes :=
  let l := toy_dec k iv <$> drop (length c - 16) c in
  match last l with
  | Some b =>
      let n := Z.to_nat (byte_to_Z b) in
      if decide (length l = 16%nat ∧ (1 ≤ n ≤ 16)%nat
                 ∧ drop (16 - n) l = replicate n b)
      then Some (take (16 - n) l) else None
  | None => None
  end.

Definition hex_digit (n : Z) : Ascii.ascii :=
  Ascii.ascii_of_nat (Z.to_nat (if decide (n < 10) then 48 + n else 87 + n)).

Definition toy_bin2hex (l : bytes) : string :=
  foldr (λ b s, String (hex_digit (byte_to_Z b / 16))
                  (String (hex_digit (byte_to_Z b mod 16)) s))
    EmptyString l.

Definition toy_derive_key (pass : string) (salt : bytes) : option string :=
  Some (String.append "$2b$14$"
          (String.append (toy_bin2hex salt)
             (toy_bin2hex (toy_digest 8 (list_byte_of_string pass ++ salt))))).

Definition toy : crypto :=
  {| HMAC := toy_HMAC;
     cbc_enc_update := toy_enc_update;
     cbc_enc_final := toy_enc_final;
     cbc_dec_update := toy_dec_update;
     cbc_dec_final := toy_dec_final;
     SHA256 := toy_digest 32;
     SHA512 := toy_digest 64;
     sxi_derive_key := toy_derive_key;
     sxi_bin2hex := toy_bin2hex |}.

(** ** The wire format *)

Section Wire.
Context (C : crypto).

(** The IV-chain digest of a block [p] under the chained state [σ] *)
Definition iv_digest (hk σ p : bytes) : bytes :=
  HMAC C EVP_sha1 hk (σ ++ p).

(** [IV ‖ ciphertext ‖ tag] for the plaintext block [p]: [hk] keys the two
    HMACs, [ck] the cipher. *)
Definition wire_block (hk ck σ p : bytes) : bytes :=
  let iv := take 16 (iv_digest hk σ p) in
  let ct := cbc_enc_update C ck iv p ++ cbc_enc_final C ck iv p in
  iv ++ ct ++ take 32 (HMAC C EVP_sha512 hk (iv ++ ct)).

(** The chained state after the block *)
Definition next_ivmac (hk σ p : bytes) : bytes :=
  memcpy σ 0 (iv_digest hk σ p) (blen (iv_digest hk σ p)).

(** The plaintext of a wire block, when its tag and its padding are
    right *)
Definition open_block (hk ck w : bytes) : option bytes :=
  if decide (48 ≤ length w)%nat then
    let body := take (length w - 32) w in
    let tag := drop (length w - 32) w in
    if decide (tag = take 32 (HMAC C EVP_sha512 hk body)) then
      let iv := take 16 body in
      let ct := drop 16 body in
      fin ← cbc_dec_final C ck iv ct;
      Some (cbc_dec_update C ck iv ct ++ fin)
    else None
  else None.

(** The two halves of a staged wire block *)
Definition staged_body (a : aes256_ctx) : bytes :=
  slice (in_ a) 0 (inbytes a - MAC_SIZE).
Definition staged_tag (a : aes256_ctx) : bytes :=
  slice (in_ a) (inbytes a - MAC_SIZE) MAC_SIZE.
Definition computed_tag (a : aes256_ctx) : bytes :=
  take 32 (HMAC C EVP_sha512 (hm_key (hmac a)) (staged_body a)).

End Wire.

(** ** The context [aes256_data_prepare] hands over *)

(** The context that [init_contexts] builds when nothing fails *)
Definition prepared_ctx (k : bytes) (kfile : option string)
    (mode : sxf_mode_t) : aes256_ctx :=
  let actx := set_keyfile kfile aes256_ctx_zero in
  let actx := set_key (memcpy (key actx) 0 k KEY_SIZE) actx in
  let actx :=
    set_ivhash
      (hmac_init_ex HMAC_CTX_zero
         (Some (slice (key_region actx) 0 (KEY_SIZE / 2))) (Some EVP_sha1))
      actx in
  let actx :=
    set_hmac
      (hmac_init_ex HMAC_CTX_zero
         (Some (slice (key_region actx) 0 (KEY_SIZE / 2))) (Some EVP_sha512))
      actx in
  let cipher_key := slice (key_region actx) KEY_SIZE AES256_KEY_LENGTH in
  let actx :=
    if decide (mode = SXF_MODE_UPLOAD) then
      set_ectx (EVP_CipherInit_ex EVP_CIPHER_CTX_zero (Some cipher_key) None)
        actx
    else
      set_dctx (EVP_CipherInit_ex EVP_CIPHER_CTX_zero (Some cipher_key) None)
        actx in
  set_ivmac (zeros EVP_MAX_MD_SIZE) actx.

(** The keys of that context: what the HMAC contexts and the cipher
    context have been given *)
Definition prepared_hmac_key (k : bytes) : bytes :=
  hm_key (hmac (prepared_ctx k None SXF_MODE_UPLOAD)).
Definition prepared_cipher_key (k : bytes) : bytes :=
  ci_key (ectx (prepared_ctx k None SXF_MODE_UPLOAD)).

(** The cipher context a mode uses *)
Definition cipher_ctx (mode : sxf_mode_t) (a : aes256_ctx) : EVP_CIPHER_CTX :=
  if decide (mode = SXF_MODE_UPLOAD) then ectx a else dctx a.

(** The shape of a context between two calls of [aes256_data_process]:
    buffer sizes, digests of the two HMAC contexts, and counters within
    their buffers. *)
Record ctx_wf (a : aes256_ctx) : Prop := {
  wf_in : length (in_ a) = Z.to_nat BUF_SIZE;
  wf_blk : length (blk a) = Z.to_nat BUF_SIZE;
  wf_ivmac : length (ivmac a) = Z.to_nat EVP_MAX_MD_SIZE;
  wf_ivhash : hm_md (ivhash a) = EVP_sha1;
  wf_hmac : hm_md (hmac a) = EVP_sha512
}.

(** What the block step leaves as it was *)
Record block_frame (a a' : aes256_ctx) : Prop := {
  bf_in : in_ a' = in_ a;
  bf_data_in : data_in a' = data_in a;
  bf_data_out_left : data_out_left a' = data_out_left a;
  bf_data_end : data_end a' = data_end a;
  bf_key : key a' = key a;
  bf_keyfile : keyfile a' = keyfile a;
  bf_ivhash_md : hm_md (ivhash a') = hm_md (ivhash a);
  bf_ivhash_key : hm_key (ivhash a') = hm_key (ivhash a);
  bf_hmac_md : hm_md (hmac a') = hm_md (hmac a);
  bf_hmac_key : hm_key (hmac a') = hm_key (hmac a);
  bf_ectx_key : ci_key (ectx a') = ci_key (ectx a);
  bf_dctx_key : ci_key (dctx a') = ci_key (dctx a);
  bf_blk_length : length (blk a') = length (blk a);
  bf_ivmac_length : length (ivmac a') = length (ivmac a)
}.

(** ** The state of a stream between two calls

    [ctx_inv mode hk ck σ s pend d e a]: the context [a] holds the bytes
    [s] in its staging buffer, still owes the caller the bytes [pend] of
    the last block, has consumed [d] bytes of the caller's input, has
    [data_end = e], chained state [σ], and the keys [hk] (both HMACs)
    and [ck] (the cipher of [mode]). *)
Record ctx_inv (mode : sxf_mode_t) (hk ck σ s pend : bytes) (d e : Z)
    (a : aes256_ctx) : Prop := {
  inv_wf : ctx_wf a;
  inv_hk1 : hm_key (ivhash a) = hk;
  inv_hk2 : hm_key (hmac a) = hk;
  inv_ck : ci_key (cipher_ctx mode a) = ck;
  inv_ivmac : ivmac a = σ;
  inv_inbytes : inbytes a = blen s;
  inv_staged : take (length s) (in_ a) = s;
  inv_data_in : data_in a = d;
  inv_data_end : data_end a = e;
  inv_out_left : data_out_left a = blen pend;
  inv_pending :
    pend ≠ [] →
    blkbytes a ≤ BUF_SIZE ∧ blen pend ≤ blkbytes a
    ∧ slice (blk a) (blkbytes a - blen pend) (blen pend) = pend
}.

(** One block through the filter: the output block and the chained
    state after it; [None] when a wire block is rejected. *)
Definition block_tr (C : crypto) (mode : sxf_mode_t) (hk ck σ s : bytes)
    : option (bytes * bytes) :=
  if decide (mode = SXF_MODE_UPLOAD) then
    Some (wire_block C hk ck σ s, next_ivmac C hk σ s)
  else
    p ← open_block C hk ck s; Some (p, σ).

(** ** The host's loop around [aes256_data_process] *)

Inductive host_result :=
  | HostDone (out : bytes) (a : aes256_ctx)
  | HostFailed
  | HostOutOfFuel.

Section Host.
Context (C : crypto) (mode : sxf_mode_t) (outsize : Z).

(** Modelled from the spec: the host library's loop is not part of the
    filter; §4.5 and §4.5.1 say how it drives [process].  The host
    offers an input slice with [Normal] or, for the last slice of the
    stream, [DataEnd]; it appends the bytes written to its output; and
    while the call answers [Repeat] it calls again with the same slice
    and [Repeat].  A negative count ends the transfer.  [fuel] bounds
    the number of calls for one slice. *)
Fixpoint host_feed (fuel : nat) (a : aes256_ctx) (chunk : bytes)
    (action : sxf_action_t) : host_result :=
  match fuel with
  | O => HostOutOfFuel
  | S fuel' =>
      let r := aes256_data_process C a chunk (blen chunk) outsize mode action in
      if decide (p_ret r < 0) then HostFailed
      else if decide (p_action r = SXF_ACTION_REPEAT) then
        match host_feed fuel' (p_ctx r) chunk SXF_ACTION_REPEAT with
        | HostDone out a' => HostDone (p_out r ++ out) a'
        | res => res
        end
      else HostDone (p_out r) (p_ctx r)
  end.

(** Modelled from the spec: a stream is offered slice by slice, the last
    one with [DataEnd]. *)
Fixpoint host_stream (fuel : nat) (a : aes256_ctx) (chunks : list bytes)
    : host_result :=
  match chunks with
  | [] => HostDone [] a
  | chunk :: rest =>
      let action :=
        match rest with
        | [] => SXF_ACTION_DATA_END
        | _ => SXF_ACTION_NORMAL
        end in
      match host_feed fuel a chunk action with
      | HostDone out a' =>
          match host_stream fuel a' rest with
          | HostDone out' a'' => HostDone (out ++ out') a''
          | res => res
          end
      | res => res
      end
  end.

End Host.

(** A number of calls that is enough for one slice, whatever the size of
    the output buffer *)
Definition feed_fuel (chunk : bytes) : nat :=
  Z.to_nat ((blen chunk + 1) * (BUF_SIZE + 1) + 1).

(** ** What a stream of blocks is *)

Section Streams.
(** One block: the chained state and the block go in; the output block
    and the next chained state come out. *)
Context (tr : bytes → bytes → option (bytes * bytes)) (bsize : nat).

(** [n] whole blocks off the front of [X]: the output, the chained
    state, and the rest of [X] *)
Fixpoint blocks_spec (n : nat) (σ X : bytes)
    : option (bytes * bytes * bytes) :=
  match n with
  | O => Some ([], σ, X)
  | S n' =>
      '(w, σ1) ← tr σ (take bsize X);
      '(ws, σ', rem) ← blocks_spec n' σ1 (drop bsize X);
      Some (w ++ ws, σ', rem)
  end.

(** The staged bytes [s] followed by the slice [X]: all whole blocks,
    and at the end of the stream ([e ≠ 0]) the last, short one *)
Definition chunk_spec (e : Z) (σ s X : bytes)
    : option (bytes * bytes * bytes) :=
  '(W, σ', rem) ← blocks_spec (length (s ++ X) / bsize) σ (s ++ X);
  if decide (e ≠ 0 ∧ rem ≠ []) then
    '(w, σ'') ← tr σ' rem; Some (W ++ w, σ'', [])
  else Some (W, σ', rem).

(** A stream offered slice by slice, the last slice ending it *)
Fixpoint chunks_spec (σ s : bytes) (chunks : list bytes)
    : option (bytes * bytes * bytes) :=
  match chunks with
  | [] => Some ([], σ, s)
  | c :: rest =>
      let e := match rest with [] => 1 | _ => 0 end in
      '(W, σ', rem) ← chunk_spec e σ s c;
      '(W', σ'', rem') ← chunks_spec σ' rem rest;
      Some (W ++ W', σ'', rem')
  end.

(** A whole stream, as one slice that ends it *)
Definition stream_spec (σ X : bytes) : option bytes :=
  '(W, _, _) ← chunk_spec 1 σ [] X; Some W.

End Streams.

(** What is left to do for a slice: a bound on the calls to come. *)
Definition feed_measure (c pend : bytes) (d : Z) : nat :=
  Z.to_nat ((blen c - d) * (BUF_SIZE + 1)
            + (if decide (pend = []) then
                 if decide (d = blen c) then BUF_SIZE + 1 else 0
               else blen pend)).


(** ** Contexts an upload can be in *)

(** The contexts of an upload under the key material [k]: the one
    [prepare] hands over, and what any call of [process] leaves. *)
Inductive upload_reachable (C : crypto) (k : bytes) : aes256_ctx → Prop :=
  | reach_prepared kfile :
      upload_reachable C k (prepared_ctx k kfile SXF_MODE_UPLOAD)
  | reach_process a in_buf insize outsize action :
      upload_reachable C k a →
      upload_reachable C k
        (p_ctx (aes256_data_process C a in_buf insize outsize
                  SXF_MODE_UPLOAD action)).

(** ** Concrete data for the examples *)

Definition ex_key : bytes := byte_of_Z <$> seqZ 1 64.
Definition ex_plain : bytes := byte_of_Z <$> seqZ 0 10.
Definition ex_chunks : list bytes := [take 4 ex_plain; drop 4 ex_plain].
Definition ex_fuel : nat := Z.to_nat 200000.

(** An upload of one block and ten bytes into output buffers of 16000
    bytes: the first call, and the call that follows it *)
Definition ex_long_plain : bytes := replicate (Z.to_nat 16394) xaa.
Definition ex_drain_first : process_result :=
  aes256_data_process toy (prepared_ctx ex_key None SXF_MODE_UPLOAD)
    ex_long_plain 16394 16000 SXF_MODE_UPLOAD SXF_ACTION_DATA_END.
Definition ex_drain_second : process_result :=
  aes256_data_process toy (p_ctx ex_drain_first)
    ex_long_plain 16394 16000 SXF_MODE_UPLOAD (p_action ex_drain_first).

(** The chained state of an upload under the HMAC key [hk], and the
    digests the two HMAC contexts were initialised with *)
Record chain_ok (hk : bytes) (a : aes256_ctx) : Prop := {
  chain_length : length (ivmac a) = 64%nat;
  chain_tail : drop 20 (ivmac a) = zeros 44;
  chain_md : hm_md (ivhash a) = EVP_sha1;
  chain_key : hm_key (ivhash a) = hk;
  chain_md512 : hm_md (hmac a) = EVP_sha512
}.

(** The wire block of [ex_plain] under [ex_key], and the same block with
    its first ciphertext byte changed *)
Definition ex_wire : bytes :=
  p_out (aes256_data_process toy (prepared_ctx ex_key None SXF_MODE_UPLOAD)
           ex_plain 10 20000 SXF_MODE_UPLOAD SXF_ACTION_DATA_END).
Definition ex_wire_bad : bytes :=
  take 16 ex_wire ++ [byte_of_Z (byte_to_Z (default x00 (ex_wire !! 16%nat)) + 1)]
    ++ drop 17 ex_wire.

(** A run of [aes256_data_prepare] in which no call fails, and a world
    with no file, no metadata and the password typed twice *)
Definition ex_env : env :=
  {| fails := λ _, false;
     runtime_ver := 0x1000207f; compile_ver := 0x1000207f;
     rand_bytes := byte_of_Z <$> seqZ 100 16;
     stack_salt := byte_of_Z <$> seqZ 200 16;
     stack_fp := zeros FP_SIZE |}.
Definition ex_world : world :=
  {| files := ∅; meta := ∅;
     inputs := [Some "password1"; Some "password1"]; log := [] |}.

(** The run [E] with the three calls that write the key file made to
    succeed *)
Definition no_key_cache_faults (E : env) : env :=
  {| fails := λ f,
       match f with
       | F_open_key_trunc | F_write_key | F_close_key => false
       | _ => fails E f
       end;
     runtime_ver := runtime_ver E; compile_ver := compile_ver E;
     rand_bytes := rand_bytes E; stack_salt := stack_salt E;
     stack_fp := stack_fp E |}.

(** The version check of lines 256-259 passes *)
Definition version_ok (E : env) : Prop :=
  Z.land (u32 (runtime_ver E)) 0xff0000000
  = Z.land (u32 (compile_ver E)) 0xff0000000.

(** A first upload with a blob of 17 bytes: it stores the fingerprint
    [ex_fp2] in the metadata.  Then a download in a directory whose
    [custfp] holds another value and whose key file holds an old key. *)
Definition ex_first_run : option aes256_ctx * world :=
  aes256_data_prepare toy ex_env "file" "cfg"
    (Some (byte_of_Z <$> seqZ 50 17)) SXF_MODE_UPLOAD ex_world.
Definition ex_fp2 : bytes :=
  default [] (meta (snd ex_first_run) !! "aes256_fp").
Definition ex_fp1 : bytes := replicate 96 x00.
Definition ex_world_changed : world :=
  {| files := <["cfg/custfp" := ex_fp1]> (<["cfg/key" := zeros 64]> ∅);
     meta := <["aes256_fp" := ex_fp2]> ∅;
     inputs := [Some "password1"]; log := [] |}.
Definition ex_changed_run : option aes256_ctx * world :=
  aes256_data_prepare toy ex_env "file" "cfg" None SXF_MODE_DOWNLOAD
    ex_world_changed.

(** The configuration error of line 337 *)
Definition cfgerr : log_entry := (SX_LOG_ERR, "Invalid configuration data").

(** The blob that lines 322-340 read: the host's, or, when that is
    absent or of the nogenkey size and the metadata holds [aes256_fp],
    the metadata value (line 267). *)
Definition effective_blob (cfgdata : option bytes) (w : world)
    : option bytes :=
  if decide (cfgdata = None ∨ blen (default [] cfgdata) = SALT_SIZE + 1)
  then match meta w !! "aes256_fp" with
       | Some mdata => Some mdata
       | None => cfgdata
       end
  else cfgdata.

(** A length that lines 322-340 do not know *)
Definition bad_length (b : bytes) : Prop :=
  blen b ≠ 16 ∧ blen b ≠ 17 ∧ blen b ≠ 96.

#[global] Instance bad_length_dec b : Decision (bad_length b).
Proof. unfold bad_length. apply _. Defined.

(** From [w] to [w'] the log has grown by [l] *)
Definition logged (w w' : world) (l : list log_entry) : Prop :=
  log w' = log w ++ l.
(** ... and no configuration error is in it *)
Definition quiet (w w' : world) : Prop :=
  ∃ l, logged w w' l ∧ cfgerr ∉ l.

(** A blob of the nogenkey size, and a volume whose metadata holds a
    fingerprint of 50 bytes *)
Definition ex_blob17 : bytes := byte_of_Z <$> seqZ 50 17.
Definition ex_world_badfp : world :=
  {| files := ∅; meta := <["aes256_fp" := zeros 50]> ∅;
     inputs := [Some "password1"; Some "password1"]; log := [] |}.
Definition ex_badfp_run : option aes256_ctx * world :=
  aes256_data_prepare toy ex_env "file" "cfg" (Some ex_blob17)
    SXF_MODE_UPLOAD ex_world_badfp.

(** Worlds and runs for further examples: no answer to any prompt, the
    locals of a call with no blob, and a volume whose metadata holds the
    fingerprint [ex_fp2] *)

Definition ex_world_silent : world :=
  {| files := ∅; meta := ∅; inputs := []; log := [] |}.
Definition ex_locals : locals :=
  {| l_keyread := false; l_key := []; l_salt := stack_salt ex_env;
     l_fp := stack_fp ex_env; l_have_fp := false |}.
Definition ex_acquire_run : option (bytes * option string) * world :=
  acquire_key toy ex_env "cfg" ex_locals SXF_MODE_UPLOAD ex_world.
Definition ex_keyfp_run : option bytes * world :=
  keyfp toy ex_env ex_key None ex_world.
Definition ex_world_meta : world :=
  {| files := ∅; meta := <["aes256_fp" := ex_fp2]> ∅;
     inputs := [Some "password1"]; log := [] |}.

(** * Properties *)

(** ** Arithmetic and buffers *)

Lemma u32_small x : 0 ≤ x < 4294967296 → u32 x = x.
Proof. intros. unfold u32. apply Z.mod_small. lia. Qed.

Lemma usize_small x : 0 ≤ x < 18446744073709551616 → usize x = x.
Proof. intros. unfold usize. apply Z.mod_small. lia. Qed.

Lemma blen_app (a b : bytes) : blen (a ++ b) = blen a + blen b.
Proof. unfold blen. rewrite length_app. lia. Qed.

Lemma blen_nonneg (a : bytes) : 0 ≤ blen a.
Proof. unfold blen. lia. Qed.

Lemma to_nat_blen (a : bytes) : Z.to_nat (blen a) = length a.
Proof. unfold blen. lia. Qed.

Lemma length_zeros n : length (zeros n) = Z.to_nat n.
Proof. unfold zeros. apply length_replicate. Qed.

Lemma length_memcpy (dst src : bytes) off n :
  0 ≤ off → 0 ≤ n → (Z.to_nat n ≤ length src)%nat →
  (Z.to_nat (off + n) ≤ length dst)%nat →
  length (memcpy dst off src n) = length dst.
Proof.
  intros. unfold memcpy.
  rewrite !length_app, !length_take, length_drop. lia.
Qed.

(** After [memcpy(dst + off, src, n)] the first [off + n] bytes of [dst]
    are its first [off] bytes followed by the bytes copied. *)
Lemma take_memcpy (dst src : bytes) off n :
  0 ≤ off → 0 ≤ n → (Z.to_nat off ≤ length dst)%nat →
  (Z.to_nat n ≤ length src)%nat →
  take (Z.to_nat (off + n)) (memcpy dst off src n)
  = take (Z.to_nat off) dst ++ take (Z.to_nat n) src.
Proof.
  intros. unfold memcpy. rewrite app_assoc.
  rewrite take_app_length'; [done|].
  rewrite length_app, !length_take. lia.
Qed.

Lemma take_memcpy_below (dst src : bytes) off n k :
  (k ≤ Z.to_nat off)%nat → (Z.to_nat off ≤ length dst)%nat →
  take k (memcpy dst off src n) = take k dst.
Proof.
  intros. unfold memcpy.
  rewrite take_app_le by (rewrite length_take; lia).
  rewrite take_take. f_equal. lia.
Qed.

Lemma slice_0 (b : bytes) n : slice b 0 n = take (Z.to_nat n) b.
Proof. unfold slice. by rewrite drop_0. Qed.

(** ** [hmac_compare] *)

Lemma byte_to_Z_inj a b : byte_to_Z a = byte_to_Z b → a = b.
Proof.
  unfold byte_to_Z. intros H. apply N2Z.inj in H.
  pose proof (Byte.of_to_N a) as Ha. pose proof (Byte.of_to_N b) as Hb.
  rewrite H in Ha. congruence.
Qed.

Lemma byte_to_Z_range b : 0 ≤ byte_to_Z b < 256.
Proof.
  unfold byte_to_Z. pose proof (Byte.to_N_bounded b). lia.
Qed.

Lemma hmac_compare_loop_nonneg len : ∀ m a b,
  0 ≤ m → 0 ≤ hmac_compare_loop m a b len.
Proof.
  induction len as [|len IH]; intros m a b Hm; simpl; [done|].
  destruct a as [|x a], b as [|y b]; try done.
  apply IH. apply Z.lor_nonneg. split; [done|].
  apply Z.lxor_nonneg.
  pose proof (byte_to_Z_range x). pose proof (byte_to_Z_range y). lia.
Qed.

Lemma hmac_compare_loop_zero len : ∀ m a b,
  0 ≤ m → (len ≤ length a)%nat → (len ≤ length b)%nat →
  hmac_compare_loop m a b len = 0 ↔ m = 0 ∧ take len a = take len b.
Proof.
  induction len as [|len IH]; intros m a b Hm Ha Hb; simpl.
  { rewrite !take_0. naive_solver. }
  destruct a as [|x a]; [simpl in Ha; lia|].
  destruct b as [|y b]; [simpl in Hb; lia|].
  simpl in Ha, Hb. rewrite IH; [|  |lia|lia].
  - rewrite Z.lor_eq_0_iff, Z.lxor_eq_0_iff. simpl. split.
    + intros [[-> ->%byte_to_Z_inj] ->]. done.
    + intros [-> [= -> ->]]. done.
  - apply Z.lor_nonneg. split; [done|]. apply Z.lxor_nonneg.
    pose proof (byte_to_Z_range x). pose proof (byte_to_Z_range y). lia.
Qed.

(** The comparison answers [0] exactly when the [len] bytes agree. *)
Lemma hmac_compare_zero (a b : bytes) len :
  (Z.to_nat len ≤ length a)%nat → (Z.to_nat len ≤ length b)%nat →
  hmac_compare a b len = 0 ↔ take (Z.to_nat len) a = take (Z.to_nat len) b.
Proof.
  intros. unfold hmac_compare.
  rewrite hmac_compare_loop_zero by (done || lia). naive_solver.
Qed.

(** ** The small instance satisfies [crypto_laws] *)

Lemma byte_of_Z_mod z : byte_of_Z (z mod 256) = byte_of_Z z.
Proof. unfold byte_of_Z. by rewrite Z.mod_mod. Qed.

Lemma byte_of_to_Z b : byte_of_Z (byte_to_Z b) = b.
Proof.
  unfold byte_of_Z. pose proof (byte_to_Z_range b).
  rewrite Z.mod_small by lia. unfold byte_to_Z.
  by rewrite N2Z.id, Byte.of_to_N.
Qed.

Lemma byte_to_of_Z z : byte_to_Z (byte_of_Z z) = z mod 256.
Proof.
  unfold byte_of_Z, byte_to_Z.
  pose proof (Z.mod_pos_bound z 256 ltac:(lia)).
  destruct (Byte.of_N (Z.to_N (z mod 256))) as [b|] eqn:Hb.
  - simpl. apply Byte.to_of_N in Hb. rewrite Hb. lia.
  - exfalso. pose proof (Byte.to_of_N_option_map (Z.to_N (z mod 256))) as H'.
    rewrite Hb in H'. simpl in H'.
    destruct (N.leb_spec (Z.to_N (z mod 256)) 255); [done|lia].
Qed.

Lemma toy_dec_enc k iv b : toy_dec k iv (toy_enc k iv b) = b.
Proof.
  unfold toy_dec, toy_enc. rewrite byte_to_of_Z.
  rewrite <- byte_of_Z_mod, Zminus_mod_idemp_l.
  replace (byte_to_Z b + toy_shift k iv - toy_shift k iv) with (byte_to_Z b)
    by lia.
  by rewrite byte_of_Z_mod, byte_of_to_Z.
Qed.

Lemma toy_dec_enc_list k iv (l : bytes) :
  toy_dec k iv <$> (toy_enc k iv <$> l) = l.
Proof.
  rewrite <- list_fmap_compose. rewrite <- (list_fmap_id l) at 2.
  apply list_fmap_ext. intros ? b _. apply toy_dec_enc.
Qed.

Lemma toy_whole_le (p : bytes) : (toy_whole p ≤ length p)%nat.
Proof.
  unfold toy_whole. pose proof (Nat.div_mod_eq (length p) 16). lia.
Qed.

Lemma length_toy_padding (p : bytes) :
  length (toy_padding p) = (16 - length p `mod` 16)%nat.
Proof. unfold toy_padding. apply length_replicate. Qed.

Lemma toy_enc_whole k iv (p : bytes) :
  toy_enc_update k iv p ++ toy_enc_final k iv p
  = toy_enc k iv <$> (p ++ toy_padding p).
Proof.
  unfold toy_enc_update, toy_enc_final.
  rewrite <- fmap_app, app_assoc, take_drop. done.
Qed.

Lemma toy_laws : crypto_laws toy.
Proof.
  split; cbn [toy HMAC cbc_enc_update cbc_enc_final cbc_dec_update
                cbc_dec_final].
  - intros. unfold toy_HMAC, toy_digest. by rewrite length_fmap, length_seq.
  - intros. unfold toy_HMAC, toy_digest. by rewrite length_fmap, length_seq.
  - intros k iv p. unfold toy_enc_update.
    rewrite length_fmap, length_take. pose proof (toy_whole_le p).
    unfold toy_whole in *. lia.
  - intros k iv p. unfold toy_enc_final.
    rewrite length_fmap, length_app, length_drop, length_toy_padding.
    unfold toy_whole. pose proof (Nat.div_mod_eq (length p) 16).
    pose proof (Nat.mod_upper_bound (length p) 16). lia.
  - intros k iv c. unfold toy_dec_update.
    rewrite length_fmap, length_take. lia.
  - intros k iv c fin. unfold toy_dec_final.
    destruct (last _) as [b|]; [|done].
    cbv zeta. case_decide; [|done]. intros [= <-].
    rewrite length_take. lia.
  - intros k iv p. rewrite toy_enc_whole.
    pose proof (Nat.div_mod_eq (length p) 16) as Hdm.
    pose proof (Nat.mod_upper_bound (length p) 16 ltac:(lia)) as Hub.
    pose proof (length_toy_padding p) as Hpad.
    set (r := (length p `mod` 16)%nat) in *.
    set (n := (16 - r)%nat) in *.
    set (q := (16 * (length p / 16))%nat) in *.
    assert (Hlen : length (toy_enc k iv <$> (p ++ toy_padding p))
                   = (q + 16)%nat).
    { rewrite length_fmap, length_app. lia. }
    exists (drop q p).
    unfold toy_dec_final, toy_dec_update. rewrite Hlen.
    replace (q + 16 - 16)%nat with q by lia.
    rewrite <- fmap_take, <- fmap_drop, !toy_dec_enc_list.
    rewrite take_app_le by lia. rewrite drop_app_le by lia.
    rewrite take_drop. split; [|done].
    assert (Hn : Z.to_nat (byte_to_Z (byte_of_Z (Z.of_nat n))) = n).
    { rewrite byte_to_of_Z, Z.mod_small by lia. lia. }
    assert (Hlast : last (drop q p ++ toy_padding p)
                    = Some (byte_of_Z (Z.of_nat n))).
    { unfold toy_padding. fold r. fold n.
      destruct n as [|n'] eqn:En; [lia|].
      rewrite replicate_S_end, app_assoc. apply last_snoc. }
    rewrite Hlast. cbv zeta. rewrite Hn.
    assert (Hd : length (drop q p) = r) by (rewrite length_drop; lia).
    rewrite decide_True.
    + f_equal. rewrite take_app_length'; [done|lia].
    + split_and!; try lia.
      * rewrite length_app. lia.
      * rewrite drop_app_length'; [done|lia].
Qed.

(** ** One block *)

Ltac unfold_consts :=
  unfold BUF_SIZE, FP_SIZE, KEY_SIZE, AES256_KEY_LENGTH in *;
  unfold SHA512_DIGEST_LENGTH, SHA256_DIGEST_LENGTH, EVP_MAX_MD_SIZE,
    AES_BLOCK_SIZE, FILTER_BLOCK_SIZE, IV_SIZE, MAC_SIZE, SALT_SIZE in *.

Section Blocks.
Context (C : crypto) (L : crypto_laws C).

Lemma length_iv_digest hk σ p : length (iv_digest C hk σ p) = 20%nat.
Proof. apply (HMAC_sha1_length C L). Qed.

Lemma length_wire_block hk ck σ (p : bytes) :
  length (wire_block C hk ck σ p) = (16 + 16 * (length p / 16 + 1) + 32)%nat.
Proof.
  unfold wire_block. rewrite !length_app, !length_take.
  rewrite (cbc_enc_update_length C L), (cbc_enc_final_length C L).
  rewrite length_iv_digest, (HMAC_sha512_length C L). lia.
Qed.

Lemma encrypt_block_ok a :
  ctx_wf a → 0 ≤ inbytes a ≤ FILTER_BLOCK_SIZE →
  let p := slice (in_ a) 0 (inbytes a) in
  let w := wire_block C (hm_key (ivhash a)) (ci_key (ectx a)) (ivmac a) p in
  hm_key (hmac a) = hm_key (ivhash a) →
  ∃ a', encrypt_block C a = BlockOk a'
        ∧ blkbytes a' = blen w
        ∧ take (length w) (blk a') = w
        ∧ ivmac a' = next_ivmac C (hm_key (ivhash a)) (ivmac a) p
        ∧ inbytes a' = inbytes a
        ∧ decrypt_err a' = decrypt_err a
        ∧ block_frame a a'.
Proof.
  intros [Hin Hblk Hiv Hmd1 Hmd2] Hn p w Hk.
  unfold encrypt_block. cbn.
  set (d := hmac_final C (hmac_update (hmac_update _ _) _)).
  assert (Hd : d = iv_digest C (hm_key (ivhash a)) (ivmac a) p).
  { unfold d, hmac_final, iv_digest. cbn. rewrite Hmd1. f_equal.
    rewrite slice_0, take_ge by lia. done. }
  set (iv := slice d 0 IV_SIZE).
  set (upd := cbc_enc_update C _ iv _).
  set (fin := EVP_EncryptFinal_ex C _).
  set (tag := hmac_final C _).
  assert (Hld : length d = 20%nat) by (rewrite Hd; apply length_iv_digest).
  assert (Hliv : length iv = 16%nat).
  { unfold iv. rewrite slice_0, length_take. unfold_consts. lia. }
  assert (Hlp : length p = Z.to_nat (inbytes a)).
  { unfold p. rewrite slice_0, length_take. unfold_consts. lia. }
  assert (Hlu : length upd = (16 * (length p / 16))%nat)
    by apply (cbc_enc_update_length C L).
  assert (Hlf : length fin = 16%nat) by apply (cbc_enc_final_length C L).
  assert (Hlt : length tag = 64%nat).
  { unfold tag, hmac_final. cbn. rewrite Hmd2.
    apply (HMAC_sha512_length C L). }
  assert (Hup : Z.of_nat (length upd) ≤ 16384).
  { pose proof (Nat.div_mod_eq (length p) 16).
    unfold_consts. lia. }
  unfold blen in *. rewrite Hld, Hlf, Hlt.
  unfold_consts.
  rewrite decide_False by lia.
  change (Z.div (Z.of_nat 64) 2) with 32.
  rewrite decide_False by lia.
  rewrite (u32_small (Z.of_nat (length upd) + 16)) by lia.
  rewrite (u32_small (Z.of_nat (length upd) + 16 + _)) by lia.
  rewrite (u32_small (Z.of_nat (length upd) + 16 + _ + _)) by lia.
  set (lu := Z.of_nat (length upd)) in *.
  change (Z.of_nat 16) with 16.
  set (b1 := memcpy (blk a) 0 iv 16).
  set (b2 := memcpy b1 16 upd lu).
  set (b3 := memcpy b2 (lu + 16) fin 16).
  assert (Hb1 : length b1 = length (blk a)).
  { apply length_memcpy; lia. }
  assert (Hb2 : length b2 = length (blk a)).
  { unfold b2. rewrite length_memcpy; lia. }
  assert (Hb3 : length b3 = length (blk a)).
  { unfold b3. rewrite length_memcpy; lia. }
  assert (Ht1 : take 16 b1 = iv).
  { unfold b1. change 16%nat with (Z.to_nat (0 + 16)).
    rewrite take_memcpy by lia. simpl. rewrite take_ge by lia. done. }
  assert (Ht2 : take (Z.to_nat (16 + lu)) b2 = iv ++ upd).
  { unfold b2. rewrite take_memcpy by lia.
    change (Z.to_nat 16) with 16%nat. rewrite Ht1.
    rewrite take_ge by lia. done. }
  assert (Ht3 : take (Z.to_nat (lu + 16 + 16)) b3 = iv ++ upd ++ fin).
  { unfold b3. rewrite take_memcpy by lia.
    replace (lu + 16) with (16 + lu) by lia.
    rewrite Ht2. rewrite take_ge by lia. by rewrite <- app_assoc. }
  assert (Htag : take 32 tag
                 = take 32 (HMAC C EVP_sha512 (hm_key (ivhash a))
                              (iv ++ upd ++ fin))).
  { unfold tag, hmac_final. cbn. rewrite Hmd2, Hk. do 2 f_equal.
    rewrite slice_0. unfold blen. rewrite Hlf. fold lu.
    change (Z.of_nat 16) with 16.
    rewrite (u32_small (lu + 16)) by lia.
    rewrite (u32_small (lu + 16 + 16)) by lia.
    fold b1 b2 b3. exact Ht3. }
  assert (Hw : w = iv ++ (upd ++ fin) ++ take 32 tag).
  { unfold w, wire_block. cbv zeta. rewrite <- Hd.
    change (take 16 d) with iv. unfold p. fold upd.
    change (cbc_enc_final C (ci_key (ectx a)) iv (slice (in_ a) 0 (inbytes a)))
      with fin.
    rewrite Htag. by rewrite <- !app_assoc. }
  eexists. split; [reflexivity|]. cbn.
  assert (Hlw : Z.of_nat (length w) = lu + 16 + 16 + 32).
  { rewrite Hw. rewrite !length_app, length_take. lia. }
  split_and!; try done.
  - fold b1 b2 b3.
    replace (length w) with (Z.to_nat (lu + 16 + 16 + 32)) by lia.
    rewrite take_memcpy by lia.
    rewrite Ht3, Hw. change (Z.to_nat 32) with 32%nat.
    by rewrite <- !app_assoc.
  - unfold next_ivmac. rewrite <- Hd. unfold blen. by rewrite Hld.
  - split; cbn; try done.
    + fold b1 b2 b3. rewrite length_memcpy; lia.
    + rewrite length_memcpy; lia.
Qed.

Lemma decrypt_block_tag_check a :
  ctx_wf a → IV_SIZE + MAC_SIZE ≤ inbytes a ≤ BUF_SIZE →
  hmac_compare (drop (Z.to_nat (inbytes a - MAC_SIZE)) (in_ a))
    (HMAC C EVP_sha512 (hm_key (hmac a)) (staged_body a)) MAC_SIZE = 0
  ↔ staged_tag a = computed_tag C a.
Proof.
  intros [Hin Hblk Hiv Hmd1 Hmd2] Hn.
  rewrite hmac_compare_zero.
  - unfold staged_tag, computed_tag, slice. unfold_consts. done.
  - rewrite length_drop. unfold_consts. lia.
  - rewrite (HMAC_sha512_length C L). unfold_consts. lia.
Qed.

Lemma decrypt_block_bad_tag a :
  ctx_wf a → IV_SIZE + MAC_SIZE ≤ inbytes a ≤ BUF_SIZE →
  staged_tag a ≠ computed_tag C a →
  ∃ a', decrypt_block C a
        = BlockErr "HMAC mismatch (Invalid password/key file or broken data)"
            a'
        ∧ decrypt_err a' = 1
        ∧ blk a' = blk a ∧ blkbytes a' = blkbytes a ∧ dctx a' = dctx a.
Proof.
  intros Hwf Hn Htag.
  pose proof (decrypt_block_tag_check a Hwf Hn) as Hcmp.
  destruct Hwf as [Hin Hblk Hiv Hmd1 Hmd2].
  unfold decrypt_block. cbn.
  rewrite decide_False by lia.
  rewrite (u32_small (inbytes a - MAC_SIZE)) by (unfold_consts; lia).
  unfold hmac_final. cbn. rewrite Hmd2. unfold blen.
  rewrite (HMAC_sha512_length C L).
  change (Z.div (Z.of_nat 64) 2) with MAC_SIZE.
  rewrite (decide_False (P := MAC_SIZE ≠ MAC_SIZE)) by (by intros ?).
  fold (staged_body a).
  rewrite decide_True by (rewrite Hcmp; done).
  eexists. split; [reflexivity|]. done.
Qed.

Lemma decrypt_block_after_tag a :
  ctx_wf a → IV_SIZE + MAC_SIZE ≤ inbytes a ≤ BUF_SIZE →
  staged_tag a = computed_tag C a →
  let iv := slice (in_ a) 0 IV_SIZE in
  let ct := slice (in_ a) IV_SIZE (inbytes a - MAC_SIZE - IV_SIZE) in
  match cbc_dec_final C (ci_key (dctx a)) iv ct with
  | None =>
      ∃ a', decrypt_block C a
            = BlockErr
                "EVP_DecryptFinal_ex failed (Invalid password/key file or broken data)"
                a'
            ∧ decrypt_err a' = 1
  | Some fin =>
      let p := cbc_dec_update C (ci_key (dctx a)) iv ct ++ fin in
      ∃ a', decrypt_block C a = BlockOk a'
            ∧ blkbytes a' = blen p
            ∧ take (length p) (blk a') = p
            ∧ ivmac a' = ivmac a
            ∧ decrypt_err a' = decrypt_err a
            ∧ block_frame a a'
  end.
Proof.
  intros Hwf Hn Htag iv ct.
  pose proof (decrypt_block_tag_check a Hwf Hn) as Hcmp.
  destruct Hwf as [Hin Hblk Hiv Hmd1 Hmd2].
  unfold decrypt_block. cbn.
  rewrite decide_False by lia.
  rewrite (u32_small (inbytes a - MAC_SIZE)) by (unfold_consts; lia).
  rewrite (u32_small (inbytes a - MAC_SIZE - IV_SIZE))
    by (unfold_consts; lia).
  unfold hmac_final. cbn. rewrite Hmd2. unfold blen.
  rewrite (HMAC_sha512_length C L).
  change (Z.div (Z.of_nat 64) 2) with MAC_SIZE.
  rewrite (decide_False (P := MAC_SIZE ≠ MAC_SIZE)) by (by intros ?).
  fold (staged_body a).
  rewrite decide_False by (rewrite Hcmp; by intros ?).
  fold iv. fold ct. unfold EVP_DecryptFinal_ex. cbn.
  destruct (cbc_dec_final C (ci_key (dctx a)) iv ct) as [fin|] eqn:Hfin.
  2: { eexists. split; [reflexivity|]. done. }
  set (upd := cbc_dec_update C (ci_key (dctx a)) iv ct) in *.
  set (p := upd ++ fin).
  eexists. split; [reflexivity|]. cbn.
  pose proof (cbc_dec_update_length C L (ci_key (dctx a)) iv ct) as Hlu.
  fold upd in Hlu.
  pose proof (cbc_dec_final_length C L _ _ _ _ Hfin) as Hlf.
  assert (Hlct : Z.of_nat (length ct) ≤ 16400).
  { unfold ct, slice. rewrite length_take. unfold_consts. lia. }
  set (lu := Z.of_nat (length upd)) in *.
  set (lf := Z.of_nat (length fin)) in *.
  unfold_consts.
  rewrite (u32_small (lu + lf)) by lia.
  assert (Hlp : Z.of_nat (length p) = lu + lf).
  { unfold p. rewrite length_app. lia. }
  set (b1 := memcpy (blk a) 0 upd lu).
  assert (Hb1 : length b1 = length (blk a)).
  { apply length_memcpy; lia. }
  split_and!; try done.
  - replace (length p) with (Z.to_nat (lu + lf)) by lia.
    rewrite take_memcpy by lia.
    unfold b1. replace lu with (0 + lu) at 1 by lia.
    rewrite take_memcpy by lia. simpl.
    unfold p. rewrite !take_ge by lia. done.
  - split; cbn; try done. rewrite length_memcpy; lia.
Qed.

(** [open_block] read off the staging buffer *)
Lemma open_block_staged a (w : bytes) :
  ctx_wf a → inbytes a = blen w → take (length w) (in_ a) = w →
  open_block C (hm_key (hmac a)) (ci_key (dctx a)) w
  = if decide (48 ≤ length w)%nat then
      if decide (staged_tag a = computed_tag C a) then
        fin ← cbc_dec_final C (ci_key (dctx a)) (slice (in_ a) 0 IV_SIZE)
                (slice (in_ a) IV_SIZE (inbytes a - MAC_SIZE - IV_SIZE));
        Some (cbc_dec_update C (ci_key (dctx a)) (slice (in_ a) 0 IV_SIZE)
                (slice (in_ a) IV_SIZE (inbytes a - MAC_SIZE - IV_SIZE))
              ++ fin)
      else None
    else None.
Proof.
  intros [Hin Hblk Hiv Hmd1 Hmd2] Hn Hw.
  unfold open_block. case_decide as Hlen; [|done].
  assert (Hbody : take (length w - 32) w = staged_body a).
  { unfold staged_body. rewrite slice_0.
    transitivity (take (length w - 32) (take (length w) (in_ a)));
      [by rewrite Hw|].
    rewrite take_take. f_equal.
    unfold blen in *. unfold_consts. lia. }
  assert (Htag : drop (length w - 32) w = staged_tag a).
  { unfold staged_tag, slice.
    transitivity (drop (length w - 32) (take (length w) (in_ a)));
      [by rewrite Hw|].
    rewrite take_drop_commute. f_equal; [|f_equal].
    - unfold blen in *. unfold_consts. lia.
    - unfold blen in *. unfold_consts. lia. }
  rewrite Hbody, Htag. unfold computed_tag.
  assert (Hiv' : take 16 (staged_body a) = slice (in_ a) 0 IV_SIZE).
  { unfold staged_body. rewrite !slice_0, take_take. f_equal.
    unfold blen in *. unfold_consts. lia. }
  assert (Hct : drop 16 (staged_body a)
                = slice (in_ a) IV_SIZE (inbytes a - MAC_SIZE - IV_SIZE)).
  { unfold staged_body, slice. rewrite drop_0, take_drop_commute.
    do 2 f_equal. unfold blen in *. unfold_consts. lia. }
  rewrite Hiv', Hct. done.
Qed.

Lemma block_tr_length mode hk ck σ (s w σ' : bytes) :
  blen s ≤ bsize_of mode →
  block_tr C mode hk ck σ s = Some (w, σ') →
  blen w ≤ BUF_SIZE.
Proof.
  unfold block_tr, bsize_of. intros Hs.
  case_decide.
  - intros [= <- <-]. unfold blen in *. rewrite length_wire_block.
    pose proof (Nat.div_mod_eq (length s) 16). unfold_consts. lia.
  - unfold open_block. case_decide; [|done]. case_decide; [|done].
    destruct (cbc_dec_final _ _ _ _) as [fin|] eqn:Hfin; [|done].
    simpl. intros [= <- <-]. unfold blen in *. rewrite length_app.
    pose proof (cbc_dec_final_length C L _ _ _ _ Hfin).
    pose proof (cbc_dec_update_length C L ck
                  (take 16 (take (length s - 32) s))
                  (drop 16 (take (length s - 32) s))) as Hu.
    rewrite length_drop, length_take in Hu. unfold_consts. lia.
Qed.

Ltac inv_solve :=
  split; cbn; unfold cipher_ctx; cbn;
  try congruence; try done; try (split; cbn; congruence);
  try (case_decide; cbn; congruence).

(** The block step of either mode, on a context that satisfies
    [ctx_inv]. *)
Lemma block_step mode hk ck σ s d e a w σ' :
  ctx_inv mode hk ck σ s [] d e a →
  blen s ≤ bsize_of mode →
  block_tr C mode hk ck σ s = Some (w, σ') →
  ∃ a', (if decide (mode = SXF_MODE_UPLOAD) then encrypt_block C a
         else decrypt_block C a) = BlockOk a'
        ∧ blkbytes a' = blen w
        ∧ take (length w) (blk a') = w
        ∧ blen w ≤ BUF_SIZE
        ∧ ctx_wf a'
        ∧ data_out_left a' = 0
        ∧ ctx_inv mode hk ck σ' [] [] d e (set_inbytes 0 a').
Proof.
  intros Hinv Hs Htr. destruct Hinv as [Hwf H1 H2 H3 H4 H5 H6 H7 H8 H9 _].
  pose proof Hwf as [Hin Hblk Hiv Hmd1 Hmd2].
  unfold block_tr, bsize_of, cipher_ctx in *.
  assert (Hstg : slice (in_ a) 0 (inbytes a) = s).
  { rewrite slice_0, H5, to_nat_blen. done. }
  destruct (decide (mode = SXF_MODE_UPLOAD)) as [->|Hm].
  - injection Htr as <- <-.
    destruct (encrypt_block_ok a Hwf) as (a' & Ha' & Hb & Ht & Hi & Hn & He & Hf).
    { pose proof (blen_nonneg s). lia. }
    { congruence. }
    rewrite Hstg, H1, H3, H4 in *. destruct Hf.
    exists a'. split_and!; try done.
    + unfold blen. rewrite length_wire_block.
      assert (Z.of_nat (length s) ≤ 16384) by (unfold blen in *; unfold_consts; lia).
      pose proof (Nat.div_mod_eq (length s) 16). unfold_consts. lia.
    + split; congruence.
    + rewrite bf_data_out_left0, H9. done.
    + inv_solve.
  - destruct (open_block C hk ck s) as [p|] eqn:Hop; [|done].
    injection Htr as <- <-.
    rewrite <- H2, <- H3 in Hop.
    rewrite (open_block_staged a s Hwf H5 H6) in Hop.
    case_decide as Hlen; [|done]. case_decide as Htag; [|done].
    assert (Hn : IV_SIZE + MAC_SIZE ≤ inbytes a ≤ BUF_SIZE).
    { rewrite H5. unfold blen. unfold_consts. unfold blen in Hs. lia. }
    pose proof (decrypt_block_after_tag a Hwf Hn Htag) as Hdec.
    cbv zeta in Hdec.
    destruct (cbc_dec_final C _ _ _) as [fin|] eqn:Hfin; [|done].
    simpl in Hop. injection Hop as <-.
    destruct Hdec as (a' & Ha' & Hb & Ht & Hi & He & Hf). destruct Hf.
    exists a'. split_and!; try done.
    + unfold blen. rewrite length_app.
      pose proof (cbc_dec_update_length C L (ci_key (dctx a))
                    (slice (in_ a) 0 IV_SIZE)
                    (slice (in_ a) IV_SIZE (inbytes a - MAC_SIZE - IV_SIZE))).
      pose proof (cbc_dec_final_length C L _ _ _ _ Hfin).
      assert (length (slice (in_ a) IV_SIZE (inbytes a - MAC_SIZE - IV_SIZE))
              ≤ Z.to_nat (inbytes a - MAC_SIZE - IV_SIZE))%nat.
      { unfold slice. rewrite length_take. lia. }
      unfold_consts. lia.
    + split; congruence.
    + rewrite bf_data_out_left0, H9. done.
    + inv_solve.
Qed.

End Blocks.

(** ** One call *)

Section Calls.
Context (C : crypto) (L : crypto_laws C).

Lemma bsize_of_range mode : 16384 ≤ bsize_of mode ≤ 16448.
Proof. unfold bsize_of. case_decide; unfold_consts; lia. Qed.

(** Input ingestion: the staging buffer takes what it still has room
    for. *)
Lemma ingest_step mode hk ck σ s d e a (c : bytes) act :
  ctx_inv mode hk ck σ s [] d e a →
  blen s ≤ bsize_of mode → 0 ≤ d ≤ blen c → blen c < 4294967296 →
  let n := Z.min (bsize_of mode - blen s) (blen c - d) in
  let s' := s ++ take (Z.to_nat n) (drop (Z.to_nat d) c) in
  let e' := if decide (act = SXF_ACTION_DATA_END) then 1 else e in
  ctx_inv mode hk ck σ s' [] (d + n) e' (ingest a c (blen c) mode act).
Proof.
  intros [Hwf H1 H2 H3 H4 H5 H6 H7 H8 H9 _] Hs Hd Hc n s' e'.
  pose proof Hwf as [Hin Hblk Hiv Hmd1 Hmd2].
  pose proof (bsize_of_range mode) as Hb. pose proof (blen_nonneg s) as Hs0.
  unfold ingest.
  set (a0 := if decide (act = SXF_ACTION_DATA_END) then set_data_end 1 a
             else a).
  assert (Ha0 : in_ a0 = in_ a ∧ inbytes a0 = inbytes a
                ∧ data_in a0 = data_in a ∧ data_end a0 = e'
                ∧ ctx_wf a0 ∧ hm_key (ivhash a0) = hk ∧ hm_key (hmac a0) = hk
                ∧ ci_key (cipher_ctx mode a0) = ck ∧ ivmac a0 = σ
                ∧ data_out_left a0 = 0).
  { unfold a0, e', cipher_ctx in *.
    destruct (decide (act = SXF_ACTION_DATA_END)); cbn; split_and!; try done.
  }
  destruct Ha0 as (E1 & E2 & E3 & E4 & E5 & E6 & E7 & E8 & E9 & E10).
  cbn. rewrite E1, E2, E3, H5, H7.
  rewrite (usize_small (blen c - d)) by lia.
  rewrite (u32_small (bsize_of mode - blen s)) by lia.
  set (bytes := if decide (blen c - d >= bsize_of mode - blen s)
                then bsize_of mode - blen s else u32 (blen c - d)).
  assert (Hbytes : bytes = n).
  { unfold bytes, n. case_decide; [lia|]. rewrite u32_small by lia. lia. }
  clearbody bytes. subst bytes.
  assert (Hn : 0 ≤ n) by (unfold n; lia).
  rewrite (u32_small (d + n)) by (unfold n; lia).
  rewrite (u32_small (blen s + n)) by (unfold n; lia).
  destruct E5 as [Hin0 Hblk0 Hiv0 Hmd10 Hmd20].
  assert (Hlen : length (take (Z.to_nat n) (drop (Z.to_nat d) c))
                 = Z.to_nat n).
  { rewrite length_take, length_drop. unfold n, blen in *. lia. }
  split; cbn; try done.
  - split; cbn; try done.
    rewrite length_memcpy; [lia|lia|lia| |].
    + rewrite length_drop. unfold n, blen in *. lia.
    + unfold n, blen in *. unfold_consts. lia.
  - unfold s'. rewrite blen_app.
    unfold blen in *. rewrite Hlen. lia.
  - unfold s'. rewrite length_app, Hlen.
    replace (length s + Z.to_nat n)%nat with (Z.to_nat (blen s + n))
      by (unfold blen; lia).
    rewrite take_memcpy.
    + rewrite to_nat_blen, H6. done.
    + lia.
    + lia.
    + unfold blen in *. unfold_consts. lia.
    + rewrite length_drop. unfold n, blen in *. lia.
Qed.

Lemma block_due_staged mode hk ck σ s d e a act :
  ctx_inv mode hk ck σ s [] d e a →
  (act = SXF_ACTION_DATA_END → e ≠ 0) →
  block_due a mode act ↔ blen s = bsize_of mode ∨ (s ≠ [] ∧ e ≠ 0).
Proof.
  intros [Hwf H1 H2 H3 H4 H5 H6 H7 H8 H9 _] Hact. unfold block_due.
  rewrite H5, H8.
  assert (blen s ≠ 0 ↔ s ≠ []).
  { unfold blen. destruct s; simpl; split; intros; (done || lia). }
  naive_solver.
Qed.

(** A call that completes a block: the block goes out, whole or in
    part. *)
Lemma process_block mode hk ck σ s d e a (c : bytes) act outsize w σ' :
  ctx_inv mode hk ck σ s [] d e a →
  blen s ≤ bsize_of mode → 0 ≤ d ≤ blen c → blen c < 4294967296 →
  0 ≤ outsize →
  let n := Z.min (bsize_of mode - blen s) (blen c - d) in
  let s' := s ++ take (Z.to_nat n) (drop (Z.to_nat d) c) in
  let e' := if decide (act = SXF_ACTION_DATA_END) then 1 else e in
  blen s' = bsize_of mode ∨ (s' ≠ [] ∧ e' ≠ 0) →
  block_tr C mode hk ck σ s' = Some (w, σ') →
  let r := aes256_data_process C a c (blen c) outsize mode act in
  if decide (blen w > outsize) then
    p_ret r = outsize ∧ p_out r = take (Z.to_nat outsize) w
    ∧ p_action r = SXF_ACTION_REPEAT
    ∧ ctx_inv mode hk ck σ' [] (drop (Z.to_nat outsize) w) (d + n) e'
        (p_ctx r)
  else
    p_ret r = blen w ∧ p_out r = w
    ∧ if decide (d + n = blen c) then
        p_action r = (if decide (e' = 0) then SXF_ACTION_NORMAL
                      else SXF_ACTION_DATA_END)
        ∧ ctx_inv mode hk ck σ' [] [] 0 e' (p_ctx r)
      else
        p_action r = SXF_ACTION_REPEAT
        ∧ ctx_inv mode hk ck σ' [] [] (d + n) e' (p_ctx r).
Proof.
  intros Hinv Hs Hd Hc Ho n s' e' Hdue Htr r.
  pose proof (ingest_step mode hk ck σ s d e a c act Hinv Hs Hd Hc) as Hing.
  cbv zeta in Hing. fold n s' e' in Hing.
  set (a1 := ingest a c (blen c) mode act) in *.
  assert (Hs' : blen s' ≤ bsize_of mode).
  { unfold s'. rewrite blen_app. unfold blen at 2.
    rewrite length_take, length_drop. unfold n, blen in *. lia. }
  assert (Hdue1 : block_due a1 mode act).
  { rewrite (block_due_staged _ _ _ _ _ _ _ _ _ Hing); [done|].
    unfold e'. intros ->. by rewrite decide_True. }
  destruct (block_step C L mode hk ck σ s' (d + n) e' a1 w σ' Hing Hs' Htr)
    as (a2 & Hblk & Hbb & Htk & Hwl & Hwf2 & Hdol & Hinv2).
  assert (Hr : r = let a := set_inbytes 0 a2 in
          if decide (blkbytes a > outsize) then
            {| p_ret := outsize;
               p_ctx := set_data_out_left (u32 (blkbytes a - outsize)) a;
               p_out := slice (blk a) 0 outsize;
               p_action := SXF_ACTION_REPEAT;
               p_log := [] |}
          else
            let out := slice (blk a) 0 (blkbytes a) in
            let final := blkbytes a in
            let a := set_blkbytes 0 a in
            if decide (data_in a = blen c) then
              {| p_ret := final;
                 p_ctx := set_data_in 0 a;
                 p_out := out;
                 p_action := if decide (data_end a = 0) then SXF_ACTION_NORMAL
                             else SXF_ACTION_DATA_END;
                 p_log := [] |}
            else
              {| p_ret := final; p_ctx := a; p_out := out;
                 p_action := SXF_ACTION_REPEAT; p_log := [] |}).
  { unfold r, aes256_data_process.
    rewrite decide_False.
    2: { intros [_ Hne]. apply Hne. by rewrite (inv_out_left _ _ _ _ _ _ _ _ _ Hinv). }
    fold a1. rewrite (decide_True (P := block_due a1 mode act)) by done.
    rewrite Hblk. done. }
  clearbody r. subst r. cbn.
  destruct Hinv2 as [_ I1 I2 I3 I4 I5 I6 I7 I8 I9 _]. cbn in *.
  destruct Hwf2 as [W1 W2 W3 W4 W5].
  pose proof (blen_nonneg w) as Hw0.
  rewrite Hbb.
  destruct (decide (blen w > outsize)) as [Hgt|Hle]; cbn.
  - split_and!; try done.
    + rewrite slice_0.
      transitivity (take (Z.to_nat outsize) (take (length w) (blk a2)));
        [|by rewrite Htk].
      rewrite take_take. f_equal. unfold blen in *. lia.
    + assert (Hld : blen (drop (Z.to_nat outsize) w) = blen w - outsize).
      { unfold blen. rewrite length_drop. unfold blen in *. lia. }
      split; cbn; unfold cipher_ctx in *; try done.
      * rewrite Hld. apply u32_small. unfold_consts. lia.
      * intros _. rewrite Hld, Hbb. split_and!; try lia.
        unfold slice. replace (blen w - (blen w - outsize)) with outsize by lia.
        transitivity (drop (Z.to_nat outsize) (take (length w) (blk a2)));
          [|by rewrite Htk].
        rewrite take_drop_commute. do 2 f_equal. unfold blen in *. lia.
  - assert (Hout : slice (blk a2) 0 (blen w) = w).
    { rewrite slice_0. unfold blen. rewrite Nat2Z.id. exact Htk. }
    rewrite I7.
    destruct (decide (d + n = blen c)) as [Heq|Hne]; cbn.
    + rewrite I8. split_and!; try done.
    + split_and!; try done.
Qed.

(** A call that does not complete a block asks for more input. *)
Lemma process_more mode hk ck σ s d e a (c : bytes) act outsize :
  ctx_inv mode hk ck σ s [] d e a →
  blen s ≤ bsize_of mode → 0 ≤ d ≤ blen c → blen c < 4294967296 →
  let n := Z.min (bsize_of mode - blen s) (blen c - d) in
  let s' := s ++ take (Z.to_nat n) (drop (Z.to_nat d) c) in
  let e' := if decide (act = SXF_ACTION_DATA_END) then 1 else e in
  ¬ (blen s' = bsize_of mode ∨ (s' ≠ [] ∧ e' ≠ 0)) →
  let r := aes256_data_process C a c (blen c) outsize mode act in
  p_ret r = 0 ∧ p_out r = [] ∧ p_action r = SXF_ACTION_NORMAL
  ∧ ctx_inv mode hk ck σ s' [] 0 e' (p_ctx r).
Proof.
  intros Hinv Hs Hd Hc n s' e' Hdue r.
  pose proof (ingest_step mode hk ck σ s d e a c act Hinv Hs Hd Hc) as Hing.
  cbv zeta in Hing. fold n s' e' in Hing.
  set (a1 := ingest a c (blen c) mode act) in *.
  assert (Hdue1 : ¬ block_due a1 mode act).
  { rewrite (block_due_staged _ _ _ _ _ _ _ _ _ Hing); [done|].
    unfold e'. intros ->. by rewrite decide_True. }
  unfold r, aes256_data_process.
  rewrite decide_False.
  2: { intros [_ Hne]. apply Hne.
       by rewrite (inv_out_left _ _ _ _ _ _ _ _ _ Hinv). }
  fold a1. rewrite (decide_False (P := block_due a1 mode act)) by done.
  cbn. split_and!; try done.
  destruct Hing as [[]]. split; cbn; unfold cipher_ctx in *; try done.
Qed.

(** A call that finds output pending hands over as much of it as the
    caller takes, and nothing else. *)
Lemma process_drain mode hk ck σ s pend d e a (c : bytes) outsize :
  ctx_inv mode hk ck σ s pend d e a →
  pend ≠ [] → 0 ≤ outsize →
  let r := aes256_data_process C a c (blen c) outsize mode
             SXF_ACTION_REPEAT in
  if decide (blen pend > outsize) then
    p_ret r = outsize ∧ p_out r = take (Z.to_nat outsize) pend
    ∧ p_action r = SXF_ACTION_REPEAT
    ∧ ctx_inv mode hk ck σ s (drop (Z.to_nat outsize) pend) d e (p_ctx r)
  else
    p_ret r = blen pend ∧ p_out r = pend
    ∧ if decide (d = blen c) then
        p_action r = (if decide (e = 0) then SXF_ACTION_NORMAL
                      else SXF_ACTION_DATA_END)
        ∧ ctx_inv mode hk ck σ s [] 0 e (p_ctx r)
      else
        p_action r = SXF_ACTION_REPEAT
        ∧ ctx_inv mode hk ck σ s [] d e (p_ctx r).
Proof.
  intros [[W1 W2 W3 W4 W5] H1 H2 H3 H4 H5 H6 H7 H8 H9 H10] Hpend Ho r.
  destruct (H10 Hpend) as (Hb1 & Hb2 & Hsl).
  assert (Hp0 : 0 < blen pend).
  { unfold blen. destruct pend; [done|simpl; lia]. }
  unfold r, aes256_data_process.
  rewrite (decide_True (P := SXF_ACTION_REPEAT = SXF_ACTION_REPEAT
                                ∧ data_out_left a ≠ 0))
    by (split; [done|rewrite H9; lia]).
  rewrite H9.
  rewrite (u32_small (blkbytes a - blen pend)) by (unfold_consts; lia).
  destruct (decide (blen pend > outsize)) as [Hgt|Hle]; cbn.
  - assert (Hld : blen (drop (Z.to_nat outsize) pend) = blen pend - outsize).
    { unfold blen. rewrite length_drop. unfold blen in *. lia. }
    split_and!; try done.
    + transitivity (take (Z.to_nat outsize)
                      (slice (blk a) (blkbytes a - blen pend) (blen pend)));
        [|by rewrite Hsl].
      unfold slice. rewrite take_take. f_equal. unfold blen in *. lia.
    + split; cbn; unfold cipher_ctx in *; try done.
      * rewrite Hld. apply u32_small. unfold_consts. lia.
      * intros _. rewrite Hld. split_and!; try lia.
        transitivity (drop (Z.to_nat outsize)
                        (slice (blk a) (blkbytes a - blen pend) (blen pend)));
          [|by rewrite Hsl].
        unfold slice. rewrite skipn_firstn_comm, drop_drop.
        f_equal; [|f_equal]; unfold blen in *; lia.
  - rewrite H7.
    destruct (decide (d = blen c)) as [Heq|Hne]; cbn.
    + rewrite H8. split_and!; try done.
    + split_and!; try done.
Qed.

End Calls.

(** ** Streams of blocks *)

Section StreamSpec.
Context (tr : bytes → bytes → option (bytes * bytes)) (bsize : nat).
Context (Hbsize : (0 < bsize)%nat).

Lemma blocks_spec_rem n : ∀ σ X W σ' rem,
  blocks_spec tr bsize n σ X = Some (W, σ', rem) →
  rem = drop (n * bsize) X.
Proof.
  induction n as [|n IH]; intros σ X W σ' rem; simpl.
  - intros [= _ _ <-]. by rewrite drop_0.
  - destruct (tr σ (take bsize X)) as [[w σ1]|]; [|done]. simpl.
    destruct (blocks_spec tr bsize n σ1 (drop bsize X))
      as [[[ws σ2] rem2]|] eqn:Hrec; [|done]. simpl.
    intros [= _ _ <-]. apply IH in Hrec. rewrite Hrec, drop_drop.
    f_equal; lia.
Qed.

Lemma chunk_spec_rem e σ s X W σ' rem :
  chunk_spec tr bsize e σ s X = Some (W, σ', rem) →
  (length rem < bsize)%nat.
Proof.
  unfold chunk_spec.
  destruct (blocks_spec _ _ _ _ _) as [[[W1 σ1] rem1]|] eqn:Hb; [|done].
  simpl. apply blocks_spec_rem in Hb.
  case_decide.
  - destruct (tr σ1 rem1) as [[w σ2]|]; [|done]. simpl.
    intros [= _ _ <-]. simpl. lia.
  - intros [= _ _ <-]. rewrite Hb, length_drop.
    pose proof (Nat.div_mod_eq (length (s ++ X)) bsize).
    pose proof (Nat.mod_upper_bound (length (s ++ X)) bsize). lia.
Qed.

(** With a whole block at hand, the block goes first. *)
Lemma chunk_spec_block e σ s X W σ' rem :
  (bsize ≤ length (s ++ X))%nat →
  chunk_spec tr bsize e σ s X = Some (W, σ', rem) →
  ∃ w σ1 W',
    tr σ (take bsize (s ++ X)) = Some (w, σ1)
    ∧ chunk_spec tr bsize e σ1 [] (drop bsize (s ++ X)) = Some (W', σ', rem)
    ∧ W = w ++ W'.
Proof.
  intros Hlen. unfold chunk_spec.
  assert (Hdiv : (length (s ++ X) / bsize
                  = S (length (drop bsize (s ++ X)) / bsize))%nat).
  { rewrite length_drop.
    replace (length (s ++ X)) with ((length (s ++ X) - bsize) + 1 * bsize)%nat
      at 1 by lia.
    rewrite Nat.div_add by lia. lia. }
  rewrite Hdiv. rewrite !app_nil_l. simpl.
  destruct (tr σ (take bsize (s ++ X))) as [[w σ1]|]; [|done]. simpl.
  destruct (blocks_spec _ _ _ _ _) as [[[ws σ2] rem2]|] eqn:Hb; [|done].
  simpl. case_decide.
  - destruct (tr σ2 rem2) as [[w2 σ3]|] eqn:Htr2; [|done]. simpl.
    intros [= <- <- <-]. exists w, σ1, (ws ++ w2).
    rewrite Hb. simpl. rewrite decide_True by done. rewrite Htr2. simpl.
    by rewrite app_assoc.
  - intros [= <- <- <-]. exists w, σ1, ws.
    rewrite Hb. simpl. by rewrite decide_False by done.
Qed.

(** Without, the bytes wait, unless the stream ends here. *)
Lemma chunk_spec_short e σ s X :
  (length (s ++ X) < bsize)%nat →
  chunk_spec tr bsize e σ s X
  = if decide (e ≠ 0 ∧ s ++ X ≠ []) then
      '(w, σ') ← tr σ (s ++ X); Some (w, σ', [])
    else Some ([], σ, s ++ X).
Proof.
  intros Hlen. unfold chunk_spec.
  rewrite Nat.div_small by done. simpl.
  case_decide; [|done].
  by destruct (tr σ (s ++ X)) as [[w σ1]|].
Qed.

Lemma blocks_spec_app n : ∀ σ X Y,
  (n * bsize ≤ length X)%nat →
  blocks_spec tr bsize n σ (X ++ Y)
  = '(W, σ', rem) ← blocks_spec tr bsize n σ X; Some (W, σ', rem ++ Y).
Proof.
  induction n as [|n IH]; intros σ X Y Hlen; simpl; [done|].
  rewrite take_app_le by lia. rewrite drop_app_le by lia.
  destruct (tr σ (take bsize X)) as [[w σ1]|]; [|done]. simpl.
  rewrite IH by (rewrite length_drop; lia).
  by destruct (blocks_spec tr bsize n σ1 (drop bsize X)) as [[[ws σ2] r2]|].
Qed.

Lemma blocks_spec_add n m : ∀ σ X,
  blocks_spec tr bsize (n + m) σ X
  = '(W, σ', rem) ← blocks_spec tr bsize n σ X;
    '(W', σ'', rem') ← blocks_spec tr bsize m σ' rem;
    Some (W ++ W', σ'', rem').
Proof.
  induction n as [|n IH]; intros σ X; simpl.
  - by destruct (blocks_spec tr bsize m σ X) as [[[ws σ2] r2]|].
  - destruct (tr σ (take bsize X)) as [[w σ1]|]; [|done]. simpl.
    rewrite IH.
    destruct (blocks_spec tr bsize n σ1 (drop bsize X))
      as [[[ws σ2] r2]|]; [|done]. simpl.
    destruct (blocks_spec tr bsize m σ2 r2) as [[[ws' σ3] r3]|]; [|done].
    simpl. by rewrite app_assoc.
Qed.

Lemma chunk_spec_0 σ s c :
  chunk_spec tr bsize 0 σ s c
  = blocks_spec tr bsize (length (s ++ c) / bsize) σ (s ++ c).
Proof.
  unfold chunk_spec.
  destruct (blocks_spec _ _ _ _ _) as [[[W σ1] rem]|]; [|done].
  cbn [mbind option_bind]. case_decide; [naive_solver|done].
Qed.

(** Offering a slice in two parts changes nothing. *)
Lemma chunk_spec_app e σ s c Y :
  chunk_spec tr bsize e σ s (c ++ Y)
  = '(W, σ', rem) ← chunk_spec tr bsize 0 σ s c;
    '(W', σ'', rem') ← chunk_spec tr bsize e σ' rem Y;
    Some (W ++ W', σ'', rem').
Proof.
  set (n := (length (s ++ c) / bsize)%nat).
  pose proof (Nat.div_mod_eq (length (s ++ c)) bsize) as Hdm.
  pose proof (Nat.mod_upper_bound (length (s ++ c)) bsize ltac:(lia)) as Hub.
  fold n in Hdm.
  assert (Hdiv : (length (s ++ c ++ Y) / bsize
                  = n + (length (drop (n * bsize) (s ++ c) ++ Y)) / bsize)%nat).
  { rewrite !length_app, length_drop, length_app in *.
    replace (length s + (length c + length Y))%nat
      with ((length s + length c - n * bsize + length Y) + n * bsize)%nat
      by lia.
    rewrite Nat.div_add by lia. lia. }
  rewrite chunk_spec_0. unfold chunk_spec. fold n.
  rewrite Hdiv, blocks_spec_add.
  rewrite (app_assoc s c Y), blocks_spec_app by lia.
  destruct (blocks_spec tr bsize n σ (s ++ c)) as [[[W σ1] rem]|] eqn:Hb;
    [|reflexivity].
  cbn [mbind option_bind].
  pose proof (blocks_spec_rem _ _ _ _ _ _ Hb) as ->.
  destruct (blocks_spec tr bsize _ σ1 _) as [[[W' σ2] rem']|]; [|done].
  simpl. case_decide.
  - destruct (tr σ2 rem') as [[w σ3]|]; [|done]. simpl.
    by rewrite app_assoc.
  - done.
Qed.

Lemma chunks_spec_concat chunks : ∀ σ s,
  chunks ≠ [] →
  chunks_spec tr bsize σ s chunks
  = '(W, σ', rem) ← chunk_spec tr bsize 1 σ s (concat chunks);
    Some (W, σ', rem).
Proof.
  induction chunks as [|c rest IH]; intros σ s Hne; [done|].
  destruct rest as [|c' rest'].
  - simpl. rewrite app_nil_r.
    destruct (chunk_spec tr bsize 1 σ s c) as [[[W σ1] rem]|]; [|done].
    simpl. by rewrite app_nil_r.
  - change (concat (c :: c' :: rest')) with (c ++ concat (c' :: rest')).
    rewrite chunk_spec_app.
    change (chunks_spec tr bsize σ s (c :: c' :: rest'))
      with ('(W, σ', rem) ← chunk_spec tr bsize 0 σ s c;
            '(W', σ'', rem') ← chunks_spec tr bsize σ' rem (c' :: rest');
            Some (W ++ W', σ'', rem')).
    destruct (chunk_spec tr bsize 0 σ s c) as [[[W σ1] rem]|]; [|done].
    cbn [mbind option_bind]. rewrite IH by done.
    by destruct (chunk_spec tr bsize 1 σ1 rem _) as [[[W' σ2] rem']|].
Qed.

End StreamSpec.

(** ** One slice through the host's loop *)

Section Feed.
Context (C : crypto) (L : crypto_laws C).
Context (mode : sxf_mode_t) (hk ck : bytes) (outsize : Z).
Context (Hout : 1 ≤ outsize).

Let B := bsize_of mode.
Let tr := block_tr C mode hk ck.

Lemma blen_nil_iff (l : bytes) : blen l = 0 ↔ l = [].
Proof. unfold blen. destruct l; simpl; split; intros; (done || lia). Qed.

Lemma blen_drop (l : bytes) n : 0 ≤ n ≤ blen l →
  blen (drop (Z.to_nat n) l) = blen l - n.
Proof. unfold blen. rewrite length_drop. lia. Qed.

Lemma feed_measure_step (c pend pend' : bytes) d d' :
  0 ≤ d ≤ d' → d' ≤ blen c → blen pend' ≤ BUF_SIZE →
  (d' = d ∧ pend ≠ [] ∧ blen pend' < blen pend
   ∧ (pend' = [] → d ≠ blen c))
  ∨ (pend = [] ∧ (d < d' ∨ d = blen c) ∧ (pend' = [] → d' ≠ blen c)) →
  (feed_measure c pend' d' < feed_measure c pend d)%nat.
Proof.
  intros Hd Hd' Hp Hcase. unfold feed_measure.
  pose proof (blen_nonneg pend). pose proof (blen_nonneg pend').
  pose proof (blen_nil_iff pend). pose proof (blen_nil_iff pend').
  unfold_consts.
  repeat case_decide; subst; try lia; naive_solver lia.
Qed.

Lemma host_feed_spec (c : bytes) :
  blen c < 4294967296 →
  ∀ fuel a σ s pend d e0 act W σ' rem,
    ctx_inv mode hk ck σ s pend d e0 a →
    blen s < B → 0 ≤ d ≤ blen c →
    blen pend ≤ BUF_SIZE →
    (pend ≠ [] → act = SXF_ACTION_REPEAT ∧ s = []) →
    let e := if decide (act = SXF_ACTION_DATA_END) then 1 else e0 in
    chunk_spec tr (Z.to_nat B) e σ s (drop (Z.to_nat d) c)
    = Some (W, σ', rem) →
    (feed_measure c pend d < fuel)%nat →
    ∃ a', host_feed C mode outsize fuel a c act = HostDone (pend ++ W) a'
          ∧ ctx_inv mode hk ck σ' rem [] 0 e a'.
Proof.
  intros Hc. induction fuel as [|fuel IH];
    intros a σ s pend d e0 act W σ' rem Hinv Hs Hd Hpl Hact e Hspec Hfuel;
    [lia|].
  pose proof (bsize_of_range mode) as HB. fold B in HB.
  pose proof (blen_nonneg s) as Hs0.
  assert (He : (if decide (SXF_ACTION_REPEAT = SXF_ACTION_DATA_END)
                then 1 else e) = e) by done.
  simpl.
  set (r := aes256_data_process C a c (blen c) outsize mode act).
  destruct (decide (pend = [])) as [->|Hpend].
  - (* input ingestion *)
    set (n := Z.min (B - blen s) (blen c - d)).
    set (X := drop (Z.to_nat d) c) in *.
    assert (HlX : blen X = blen c - d) by (apply blen_drop; lia).
    set (s' := s ++ take (Z.to_nat n) X).
    rewrite app_nil_l.
    destruct (decide (B ≤ blen s + blen X)) as [Hfull|Hshort].
    + (* a whole block *)
      assert (Hn : n = B - blen s) by (unfold n; lia).
      assert (Hs' : s' = take (Z.to_nat B) (s ++ X)).
      { unfold s'. rewrite take_app.
        rewrite (take_ge s) by (unfold blen in *; lia).
        do 2 f_equal. unfold blen in *. lia. }
      destruct (chunk_spec_block tr (Z.to_nat B) ltac:(lia) e σ s X W σ' rem)
        as (w & σ1 & W' & Htr & Hrest & ->); [|done|].
      { rewrite length_app. unfold blen in *. lia. }
      rewrite <- Hs' in Htr.
      assert (Hdrop : drop (Z.to_nat B) (s ++ X) = drop (Z.to_nat (d + n)) c).
      { rewrite drop_app. rewrite (drop_ge s) by (unfold blen in *; lia).
        simpl. unfold X. rewrite drop_drop. f_equal. unfold blen in *. lia. }
      rewrite Hdrop in Hrest.
      pose proof (process_block C L mode hk ck σ s d e0 a c act outsize w σ1
                    Hinv ltac:(fold B; lia) Hd Hc ltac:(lia)) as Hstep.
      cbv zeta in Hstep. fold B n X s' e r in Hstep.
      specialize (Hstep ltac:(left; rewrite Hs'; unfold blen;
                              rewrite length_take, length_app;
                              unfold blen in *; lia) Htr).
      destruct (decide (blen w > outsize)) as [Hgt|Hle].
      * destruct Hstep as (Hret & Hout' & Hact' & Hinv').
        rewrite decide_False by lia. rewrite decide_True by done.
        assert (Hwl : blen w ≤ BUF_SIZE).
        { eapply (block_tr_length C L); [|exact Htr].
          rewrite Hs'. unfold blen. rewrite length_take. fold B. lia. }
        destruct (IH (p_ctx r) σ1 [] (drop (Z.to_nat outsize) w) (d + n) e
                    SXF_ACTION_REPEAT W' σ' rem Hinv')
          as (a' & Hfeed & Hinv'');
          [ unfold blen; simpl; lia | lia | rewrite blen_drop; lia
          | done | exact Hrest | | ].
        -- eapply Nat.lt_le_trans; [|apply Nat.lt_succ_r; exact Hfuel].
           apply feed_measure_step; [lia | lia | rewrite blen_drop; lia |].
           right. split; [done|]. split; [lia|].
           intros Hnil%blen_nil_iff. rewrite blen_drop in Hnil; lia.
        -- rewrite Hfeed. exists a'. split; [|done]. simpl.
           rewrite Hout', app_assoc, take_drop. done.
      * destruct Hstep as (Hret & Hout' & Hstep).
        pose proof (blen_nonneg w).
        rewrite decide_False by lia.
        destruct (decide (d + n = blen c)) as [Hend|Hmore].
        -- destruct Hstep as (Hact' & Hinv').
           rewrite decide_False by (rewrite Hact'; by case_decide).
           rewrite Hend, drop_ge in Hrest by (unfold blen; lia).
           rewrite chunk_spec_short in Hrest by (simpl; lia).
           rewrite decide_False in Hrest by naive_solver.
           injection Hrest as <- <- <-.
           exists (p_ctx r). rewrite Hout', app_nil_r. done.
        -- destruct Hstep as (Hact' & Hinv').
           rewrite decide_True by done.
           destruct (IH (p_ctx r) σ1 [] [] (d + n) e
                       SXF_ACTION_REPEAT W' σ' rem Hinv')
             as (a' & Hfeed & Hinv'');
             [ unfold blen; simpl; lia | lia
             | unfold blen; simpl; unfold_consts; lia
             | done | exact Hrest | | ].
           ++ eapply Nat.lt_le_trans; [|apply Nat.lt_succ_r; exact Hfuel].
              apply feed_measure_step;
                [lia | lia | unfold blen; simpl; unfold_consts; lia |].
              right. split; [done|]. split; [lia|done].
           ++ rewrite Hfeed. exists a'. split; [|done]. simpl.
              rewrite Hout'. done.
    + (* the rest of the slice is short of a block *)
      assert (Hn : n = blen X) by (unfold n; lia).
      assert (Hs' : s' = s ++ X).
      { unfold s'. rewrite take_ge by (unfold blen in *; lia). done. }
      rewrite chunk_spec_short in Hspec
        by (rewrite length_app; unfold blen in *; lia).
      destruct (decide (e ≠ 0 ∧ s ++ X ≠ [])) as [Hdue|Hwait].
      * destruct (tr σ (s ++ X)) as [[w σ2]|] eqn:Htr; [|done].
        simpl in Hspec. injection Hspec as <- <- <-.
        rewrite <- Hs' in Htr.
        pose proof (process_block C L mode hk ck σ s d e0 a c act outsize w σ2
                      Hinv ltac:(fold B; lia) Hd Hc ltac:(lia)) as Hstep.
        cbv zeta in Hstep. fold B n X s' e r in Hstep.
        assert (Hdue' : blen s' = B ∨ s' ≠ [] ∧ e ≠ 0).
        { right. rewrite Hs'. naive_solver. }
        specialize (Hstep Hdue' Htr).
        destruct (decide (blen w > outsize)) as [Hgt|Hle].
        -- destruct Hstep as (Hret & Hout' & Hact' & Hinv').
           rewrite decide_False by lia. rewrite decide_True by done.
           assert (Hwl : blen w ≤ BUF_SIZE).
           { eapply (block_tr_length C L); [|exact Htr].
             rewrite Hs', blen_app. fold B. lia. }
           destruct (IH (p_ctx r) σ2 [] (drop (Z.to_nat outsize) w) (d + n) e
                       SXF_ACTION_REPEAT [] σ2 [] Hinv')
             as (a' & Hfeed & Hinv'');
             [ unfold blen; simpl; lia | lia | rewrite blen_drop; lia
             | done | | | ].
           ++ rewrite drop_ge by (unfold blen in *; lia).
              rewrite chunk_spec_short by (simpl; lia).
              rewrite decide_False by naive_solver. done.
           ++ eapply Nat.lt_le_trans; [|apply Nat.lt_succ_r; exact Hfuel].
              apply feed_measure_step;
                [lia | lia | rewrite blen_drop; lia |].
              right. split; [done|]. split; [lia|].
              intros Hnil%blen_nil_iff. rewrite blen_drop in Hnil; lia.
           ++ rewrite Hfeed. exists a'. split; [|done]. simpl.
              rewrite Hout', app_nil_r, take_drop. done.
        -- destruct Hstep as (Hret & Hout' & Hstep).
           pose proof (blen_nonneg w).
           rewrite decide_False by lia.
           rewrite decide_True in Hstep by lia.
           destruct Hstep as (Hact' & Hinv').
           rewrite decide_False by (rewrite Hact'; by case_decide).
           exists (p_ctx r). rewrite Hout'. done.
      * injection Hspec as <- <- <-.
        pose proof (process_more C mode hk ck σ s d e0 a c act outsize
                      Hinv ltac:(fold B; lia) Hd Hc) as Hstep.
        cbv zeta in Hstep. fold B n X s' e r in Hstep.
        destruct Hstep as (Hret & Hout' & Hact' & Hinv').
        { rewrite Hs'. intros [Hfull|Hdue]; [|naive_solver].
          rewrite blen_app in Hfull. lia. }
        rewrite decide_False by lia.
        rewrite decide_False by (by rewrite Hact').
        exists (p_ctx r). rewrite Hout', <- Hs'. done.
  - (* pending output *)
    destruct (Hact Hpend) as [-> ->].
    pose proof (process_drain C mode hk ck σ [] pend d e0 a c outsize
                  Hinv Hpend ltac:(lia)) as Hstep.
    cbv zeta in Hstep. fold r in Hstep.
    assert (Hp0 : 0 < blen pend).
    { pose proof (blen_nil_iff pend). pose proof (blen_nonneg pend).
      destruct (decide (blen pend = 0)); [naive_solver|lia]. }
    destruct (decide (blen pend > outsize)) as [Hgt|Hle].
    + destruct Hstep as (Hret & Hout' & Hact' & Hinv').
      rewrite decide_False by lia. rewrite decide_True by done.
      destruct (IH (p_ctx r) σ [] (drop (Z.to_nat outsize) pend) d e0
                  SXF_ACTION_REPEAT W σ' rem Hinv')
        as (a' & Hfeed & Hinv'');
        [ done | done | rewrite blen_drop; lia | done | exact Hspec | | ].
      * eapply Nat.lt_le_trans; [|apply Nat.lt_succ_r; exact Hfuel].
        apply feed_measure_step; [lia | lia | rewrite blen_drop; lia |].
        left. split; [done|]. split; [done|].
        rewrite blen_drop by lia. split; [lia|].
        intros Hnil%blen_nil_iff. rewrite blen_drop in Hnil; lia.
      * rewrite Hfeed. exists a'. split; [|done].
        rewrite Hout', app_assoc, take_drop. done.
    + destruct Hstep as (Hret & Hout' & Hstep).
      rewrite decide_False by lia.
      destruct (decide (d = blen c)) as [Hend|Hmore].
      * destruct Hstep as (Hact' & Hinv').
        rewrite decide_False by (rewrite Hact'; by case_decide).
        rewrite Hend, drop_ge in Hspec by (unfold blen; lia).
        rewrite chunk_spec_short in Hspec by (simpl; lia).
        rewrite decide_False in Hspec by naive_solver.
        injection Hspec as <- <- <-.
        exists (p_ctx r). rewrite Hout', app_nil_r. done.
      * destruct Hstep as (Hact' & Hinv').
        rewrite decide_True by done.
        destruct (IH (p_ctx r) σ [] [] d e0
                    SXF_ACTION_REPEAT W σ' rem Hinv')
          as (a' & Hfeed & Hinv'');
          [ done | done | unfold blen; simpl; unfold_consts; lia
          | done | exact Hspec | | ].
        -- eapply Nat.lt_le_trans; [|apply Nat.lt_succ_r; exact Hfuel].
           apply feed_measure_step;
             [lia | lia | unfold blen; simpl; unfold_consts; lia |].
           left. split; [done|]. split; [done|].
           split; [unfold blen at 1; simpl; lia|done].
        -- rewrite Hfeed. exists a'. split; [|done].
           rewrite Hout'. done.
Qed.

Lemma feed_measure_start (c : bytes) :
  (feed_measure c [] 0 < feed_fuel c)%nat.
Proof.
  unfold feed_measure, feed_fuel. pose proof (blen_nonneg c).
  rewrite decide_True by done. unfold_consts. case_decide; lia.
Qed.

(** The host's loop over a stream follows [chunks_spec]. *)
Lemma host_stream_spec chunks : ∀ fuel a σ s W σ' rem,
  ctx_inv mode hk ck σ s [] 0 0 a → blen s < B →
  Forall (λ c, blen c < 4294967296) chunks →
  Forall (λ c, (feed_fuel c ≤ fuel)%nat) chunks →
  chunks_spec tr (Z.to_nat B) σ s chunks = Some (W, σ', rem) →
  ∃ a', host_stream C mode outsize fuel a chunks = HostDone W a'.
Proof.
  pose proof (bsize_of_range mode) as HB. fold B in HB.
  induction chunks as [|c rest IH];
    intros fuel a σ s W σ' rem Hinv Hs Hsz Hfuel Hspec.
  { injection Hspec as <- <- <-. by exists a. }
  apply Forall_cons in Hsz as [Hc Hsz].
  apply Forall_cons in Hfuel as [Hfc Hfuel].
  cbn [chunks_spec] in Hspec. cbn [host_stream].
  set (e := match rest with [] => 1 | _ => 0 end) in *.
  set (act := match rest with
              | [] => SXF_ACTION_DATA_END
              | _ => SXF_ACTION_NORMAL
              end).
  destruct (chunk_spec tr (Z.to_nat B) e σ s c) as [[[W1 σ1] rem1]|] eqn:H1;
    [|done].
  cbn [mbind option_bind] in Hspec.
  destruct (chunks_spec tr (Z.to_nat B) σ1 rem1 rest)
    as [[[W2 σ2] rem2]|] eqn:H2; [|done].
  injection Hspec as <- <- <-.
  assert (He : (if decide (act = SXF_ACTION_DATA_END) then 1 else 0) = e).
  { unfold act, e. by destruct rest. }
  destruct (host_feed_spec c Hc fuel a σ s [] 0 0 act W1 σ1 rem1)
    as (a1 & Hfeed & Hinv1);
    [ done | done | pose proof (blen_nonneg c); lia
    | unfold blen; simpl; unfold_consts; lia | done
    | rewrite He, drop_0; exact H1
    | pose proof (feed_measure_start c); lia | ].
  rewrite Hfeed, app_nil_l. rewrite He in Hinv1.
  pose proof (chunk_spec_rem tr (Z.to_nat B) ltac:(lia) _ _ _ _ _ _ _ H1)
    as Hrem.
  destruct rest as [|c' rest'].
  - injection H2 as <- <- <-. cbn [host_stream]. by exists a1.
  - destruct (IH fuel a1 σ1 rem1 W2 σ2 rem2) as (a2 & Hrun);
      [ done | unfold blen; lia | done | done | done | ].
    rewrite Hrun. by exists a2.
Qed.

(** However the stream is cut into slices, the host ends up with what
    [stream_spec] says of the whole stream. *)
Lemma host_stream_whole chunks fuel a σ W :
  ctx_inv mode hk ck σ [] [] 0 0 a →
  Forall (λ c, blen c < 4294967296) chunks →
  Forall (λ c, (feed_fuel c ≤ fuel)%nat) chunks →
  stream_spec tr (Z.to_nat B) σ (concat chunks) = Some W →
  ∃ a', host_stream C mode outsize fuel a chunks = HostDone W a'.
Proof.
  pose proof (bsize_of_range mode) as HB. fold B in HB.
  intros Hinv Hsz Hfuel Hspec. unfold stream_spec in Hspec.
  destruct (chunk_spec tr (Z.to_nat B) 1 σ [] (concat chunks))
    as [[[W1 σ1] rem1]|] eqn:H1; [|done].
  injection Hspec as <-.
  destruct chunks as [|c rest].
  - rewrite chunk_spec_short in H1 by (simpl; lia).
    rewrite decide_False in H1 by naive_solver.
    injection H1 as <- <- <-. by exists a.
  - apply (host_stream_spec (c :: rest) fuel a σ [] W1 σ1 rem1);
      [ done | unfold blen; simpl; lia | done | done | ].
    rewrite chunks_spec_concat by (done || lia). by rewrite H1.
Qed.

End Feed.

(** ** The prepared context *)

Lemma prepared_ctx_inv k kfile mode :
  ctx_inv mode (prepared_hmac_key k) (prepared_cipher_key k)
    (zeros EVP_MAX_MD_SIZE) [] [] 0 0 (prepared_ctx k kfile mode).
Proof.
  unfold prepared_hmac_key, prepared_cipher_key, prepared_ctx, cipher_ctx.
  rewrite (decide_True (P := SXF_MODE_UPLOAD = SXF_MODE_UPLOAD)) by done.
  destruct (decide (mode = SXF_MODE_UPLOAD)) as [->|Hm]; cbn.
  - split; cbn; try done;
      try (split; cbn; try done; apply length_zeros).
  - split; cbn; try done;
      try (split; cbn; try done; apply length_zeros).
    unfold cipher_ctx. by rewrite decide_False.
Qed.

(** ** Decryption undoes encryption *)

Section RoundTrip.
Context (C : crypto) (L : crypto_laws C) (hk ck : bytes).

Let enc := block_tr C SXF_MODE_UPLOAD hk ck.
Let dec := block_tr C SXF_MODE_DOWNLOAD hk ck.
Let Bu := Z.to_nat (bsize_of SXF_MODE_UPLOAD).
Let Bd := Z.to_nat (bsize_of SXF_MODE_DOWNLOAD).

Lemma open_wire_block σ p :
  open_block C hk ck (wire_block C hk ck σ p) = Some p.
Proof.
  pose proof (length_wire_block C L hk ck σ p) as Hlw.
  unfold open_block, wire_block in *.
  set (iv := take 16 (iv_digest C hk σ p)) in *.
  set (ct := cbc_enc_update C ck iv p ++ cbc_enc_final C ck iv p) in *.
  set (tag := take 32 (HMAC C EVP_sha512 hk (iv ++ ct))) in *.
  assert (Hliv : length iv = 16%nat).
  { unfold iv. rewrite length_take, (length_iv_digest C L). lia. }
  assert (Hlt : length tag = 32%nat).
  { unfold tag. rewrite length_take, (HMAC_sha512_length C L). lia. }
  rewrite decide_True by lia.
  assert (Hbody : take (length (iv ++ ct ++ tag) - 32) (iv ++ ct ++ tag)
                  = iv ++ ct).
  { rewrite app_assoc. rewrite take_app_length'; [done|].
    rewrite !length_app. lia. }
  assert (Htag : drop (length (iv ++ ct ++ tag) - 32) (iv ++ ct ++ tag)
                 = tag).
  { rewrite app_assoc. rewrite drop_app_length'; [done|].
    rewrite !length_app. lia. }
  rewrite Hbody, Htag. fold tag. rewrite decide_True by done.
  rewrite take_app_length' by done. rewrite drop_app_length' by done.
  destruct (cbc_dec_enc C L ck iv p) as (fin & Hfin & Hp).
  fold ct in Hfin, Hp. rewrite Hfin. simpl. by rewrite Hp.
Qed.

Lemma enc_total σ p : enc σ p = Some (wire_block C hk ck σ p,
                                       next_ivmac C hk σ p).
Proof. unfold enc, block_tr. by rewrite decide_True. Qed.

Lemma dec_enc σ σd p : dec σd (wire_block C hk ck σ p) = Some (p, σd).
Proof.
  unfold dec, block_tr. rewrite decide_False by done.
  by rewrite open_wire_block.
Qed.

Lemma Bu_val : Z.of_nat Bu = 16384.
Proof. unfold Bu, bsize_of. rewrite decide_True by done. unfold_consts. lia. Qed.

Lemma Bd_val : Z.of_nat Bd = 16448.
Proof. unfold Bd, bsize_of. rewrite decide_False by done. unfold_consts. lia. Qed.

Lemma blocks_spec_enc_total n : ∀ σ X,
  is_Some (blocks_spec enc Bu n σ X).
Proof.
  induction n as [|n IH]; intros σ X; cbn [blocks_spec]; [done|].
  rewrite enc_total. cbn [mbind option_bind].
  destruct (IH (next_ivmac C hk σ (take Bu X)) (drop Bu X))
    as [[[ws σ2] rem] ->].
  done.
Qed.

(** Encryption never fails. *)
Lemma stream_spec_enc_total σ P : is_Some (stream_spec enc Bu σ P).
Proof.
  unfold stream_spec, chunk_spec.
  destruct (blocks_spec_enc_total (length ([] ++ P) / Bu) σ ([] ++ P))
    as [[[W σ1] rem] ->].
  cbn [mbind option_bind]. case_decide; [|done].
  rewrite enc_total. done.
Qed.

(** A whole plaintext block makes a wire block that fills the staging
    buffer of the download side. *)
Lemma length_full_wire_block σ (p : bytes) :
  length p = Bu → length (wire_block C hk ck σ p) = Bd.
Proof.
  intros Hp. rewrite (length_wire_block C L), Hp.
  pose proof Bu_val. pose proof Bd_val.
  assert (Z.of_nat (Bu / 16) = 1024).
  { rewrite Nat2Z.inj_div. rewrite H. done. }
  lia.
Qed.

Lemma length_short_wire_block σ (p : bytes) :
  (length p < Bu)%nat →
  (0 < length (wire_block C hk ck σ p) < Bd)%nat.
Proof.
  intros Hp. rewrite (length_wire_block C L).
  pose proof Bu_val. pose proof Bd_val.
  pose proof (Nat.div_mod_eq (length p) 16). lia.
Qed.

Lemma blocks_roundtrip n : ∀ σ X W σ' rem Y σd,
  (n * Bu ≤ length X)%nat →
  blocks_spec enc Bu n σ X = Some (W, σ', rem) →
  blocks_spec dec Bd n σd (W ++ Y) = Some (take (n * Bu) X, σd, Y)
  ∧ length W = (n * Bd)%nat.
Proof.
  induction n as [|n IH]; intros σ X W σ' rem Y σd Hlen; cbn [blocks_spec].
  - intros [= <- <- <-]. by rewrite take_0.
  - rewrite enc_total. cbn [mbind option_bind].
    assert (Hlen' : (Bu + n * Bu ≤ length X)%nat)
      by (rewrite Nat.mul_succ_l in Hlen; (clearbody Bu Bd; lia)).
    destruct (blocks_spec enc Bu n _ _) as [[[ws σ2] rem2]|] eqn:Hb; [|done].
    cbn [mbind option_bind]. intros [= <- <- <-].
    set (w1 := wire_block C hk ck σ (take Bu X)).
    assert (Hw1 : length w1 = Bd).
    { apply length_full_wire_block. rewrite length_take.
      clear -Hlen'. clearbody Bu. lia. }
    assert (Hlen2 : (n * Bu ≤ length (drop Bu X))%nat).
    { rewrite length_drop. clear -Hlen'. clearbody Bu. lia. }
    destruct (IH _ _ _ _ _ Y σd Hlen2 Hb)
      as [Hdec Hlws].
    rewrite <- app_assoc.
    rewrite take_app_length' by done. rewrite drop_app_length' by done.
    unfold w1 at 1. rewrite dec_enc. cbn [mbind option_bind].
    rewrite Hdec. cbn [mbind option_bind].
    split.
    + by rewrite take_take_drop.
    + rewrite length_app. (clearbody Bu Bd; lia).
Qed.

(** The stream that encryption makes of [P] decrypts to [P]. *)
Lemma stream_roundtrip σ σd P W :
  stream_spec enc Bu σ P = Some W → stream_spec dec Bd σd W = Some P.
Proof.
  pose proof Bu_val as HBu. pose proof Bd_val as HBd.
  unfold stream_spec, chunk_spec. rewrite !app_nil_l.
  set (n := (length P / Bu)%nat).
  pose proof (Nat.div_mod_eq (length P) Bu) as Hdm.
  pose proof (Nat.mod_upper_bound (length P) Bu ltac:((clearbody Bu Bd; lia))) as Hub.
  fold n in Hdm.
  destruct (blocks_spec enc Bu n σ P) as [[[W1 σ1] rem]|] eqn:Hb; [|done].
  cbn [mbind option_bind].
  pose proof (blocks_spec_rem enc Bu n _ _ _ _ _ Hb) as Hrem.
  assert (Hlrem : (length rem < Bu)%nat).
  { rewrite Hrem, length_drop. (clearbody Bu Bd; lia). }
  assert (HP : take (n * Bu) P ++ rem = P).
  { rewrite Hrem. apply take_drop. }
  case_decide as Hlast.
  - destruct Hlast as [_ Hne]. rewrite enc_total. cbn [mbind option_bind].
    intros [= <-].
    destruct (blocks_roundtrip n σ P W1 σ1 rem
                (wire_block C hk ck σ1 rem) σd ltac:((clearbody Bu Bd; lia)) Hb) as [Hdec HlW].
    pose proof (length_short_wire_block σ1 rem Hlrem) as Hlw.
    assert (Hdiv : (length (W1 ++ wire_block C hk ck σ1 rem) / Bd = n)%nat).
    { rewrite length_app, HlW.
      rewrite Nat.add_comm, Nat.div_add by (clearbody Bu Bd; lia).
      rewrite Nat.div_small by (clearbody Bu Bd; lia). done. }
    rewrite Hdiv, Hdec. cbn [mbind option_bind].
    rewrite decide_True.
    2: { split; [lia|]. intros Hnil. rewrite Hnil in Hlw.
         cbn [length] in Hlw. clearbody Bu Bd. lia. }
    rewrite dec_enc. cbn [mbind option_bind]. by f_equal.
  - intros [= <-].
    assert (rem = []) as ->.
    { destruct rem as [|b r]; [done|]. exfalso. apply Hlast.
      split; [lia|done]. }
    destruct (blocks_roundtrip n σ P W1 σ1 [] [] σd ltac:((clearbody Bu Bd; lia)) Hb)
      as [Hdec HlW].
    rewrite app_nil_r in *.
    assert (Hdiv : (length W1 / Bd = n)%nat).
    { rewrite HlW. apply Nat.div_mul. (clearbody Bu Bd; lia). }
    rewrite Hdiv, Hdec. cbn [mbind option_bind].
    rewrite decide_False by (intros [_ Hne]; by apply Hne).
    cbn [mbind option_bind]. by f_equal.
Qed.

End RoundTrip.

(** ** The chained state of an upload *)

Section Chain.
Context (C : crypto) (L : crypto_laws C).

Lemma memcpy_digest (σ d : bytes) :
  length σ = 64%nat → length d = 20%nat → drop 20 σ = zeros 44 →
  memcpy σ 0 d (blen d) = d ++ zeros 44.
Proof.
  intros Hσ Hd Ht. unfold memcpy, blen. rewrite Hd. cbn [Z.to_nat].
  change (Z.to_nat (0 + Z.of_nat 20)) with 20%nat.
  rewrite take_0, take_ge by lia. cbn [app]. by rewrite Ht.
Qed.

Lemma chain_ok_digest hk (σ d : bytes) a :
  length d = 20%nat → ivmac a = d ++ zeros 44 →
  hm_md (ivhash a) = EVP_sha1 → hm_key (ivhash a) = hk →
  hm_md (hmac a) = EVP_sha512 → chain_ok hk a.
Proof.
  intros Hd Hσ Hmd Hk Hmd2. split; try done.
  - rewrite Hσ, length_app, Hd, length_zeros. done.
  - rewrite Hσ, drop_app_length'; done.
Qed.

(** In a context with the chained state in order the block step of an
    upload goes through: the two digests have the sizes the code checks
    for. *)
Lemma encrypt_block_chain hk a :
  chain_ok hk a →
  let d := HMAC C EVP_sha1 hk (ivmac a ++ slice (in_ a) 0 (inbytes a)) in
  ∃ a', encrypt_block C a = BlockOk a'
        ∧ chain_ok hk a' ∧ ivmac a' = d ++ zeros 44
        ∧ ci_iv (ectx a') = take 16 d ∧ 0 ≤ blkbytes a'.
Proof.
  intros [Hlen Htail Hmd Hk Hmd2] d.
  assert (Hd : length d = 20%nat) by apply (HMAC_sha1_length C L).
  unfold encrypt_block. cbn.
  set (d' := hmac_final C _).
  assert (Hd' : d' = d).
  { unfold d', hmac_final. cbn. rewrite Hmd, Hk. f_equal.
    rewrite slice_0, take_ge; [done|]. rewrite Hlen. done. }
  clearbody d'. subst d'.
  rewrite decide_False by (unfold blen, IV_SIZE; lia).
  rewrite (memcpy_digest _ _ Hlen Hd Htail).
  set (tag := hmac_final C _).
  assert (Htag : blen tag / 2 = MAC_SIZE).
  { unfold tag, hmac_final, blen. cbn. rewrite Hmd2.
    rewrite (HMAC_sha512_length C L). done. }
  clearbody tag.
  rewrite decide_False by (intros H; by apply H).
  eexists. split; [reflexivity|]. cbn.
  split_and!; [by apply (chain_ok_digest hk (ivmac a) d)|done| |].
  - by rewrite slice_0.
  - unfold u32. apply Z.mod_pos_bound. lia.
Qed.

Lemma ingest_chain hk a in_buf insize mode action :
  chain_ok hk a → chain_ok hk (ingest a in_buf insize mode action).
Proof.
  intros [H1 H2 H3 H4 H5]. unfold ingest.
  destruct (decide (action = SXF_ACTION_DATA_END)); by split.
Qed.

Lemma process_chain hk a in_buf insize outsize action :
  chain_ok hk a →
  chain_ok hk (p_ctx (aes256_data_process C a in_buf insize outsize
                        SXF_MODE_UPLOAD action)).
Proof.
  intros Hc. pose proof Hc as [H1 H2 H3 H4 H5]. unfold aes256_data_process.
  case_decide.
  { repeat case_decide; by split. }
  pose proof (ingest_chain hk a in_buf insize SXF_MODE_UPLOAD action Hc)
    as Hi.
  set (a1 := ingest _ _ _ _ _) in *. clearbody a1.
  case_decide; [|by destruct Hi; split].
  rewrite decide_True by done.
  destruct (encrypt_block_chain hk a1 Hi) as (a' & -> & [G1 G2 G3 G4 G5] & _).
  cbn. repeat case_decide; by split.
Qed.

(** The call of [process] that completes a block on upload: it does not
    fail, and it leaves the IV in the cipher context and the digest in
    [ivmac]. *)
Lemma process_block_chain hk a in_buf insize outsize action :
  chain_ok hk a →
  ¬ (action = SXF_ACTION_REPEAT ∧ data_out_left a ≠ 0) →
  let a1 := ingest a in_buf insize SXF_MODE_UPLOAD action in
  let d := HMAC C EVP_sha1 hk (ivmac a1 ++ slice (in_ a1) 0 (inbytes a1)) in
  block_due a1 SXF_MODE_UPLOAD action → 0 ≤ outsize →
  let r := aes256_data_process C a in_buf insize outsize SXF_MODE_UPLOAD
             action in
  0 ≤ p_ret r ∧ ci_iv (ectx (p_ctx r)) = take 16 d
  ∧ ivmac (p_ctx r) = d ++ zeros 44.
Proof.
  intros Hc Hnd a1 d Hdue Ho r.
  pose proof (ingest_chain hk a in_buf insize SXF_MODE_UPLOAD action Hc)
    as Hi.
  fold a1 in Hi.
  destruct (encrypt_block_chain hk a1 Hi) as (a' & He & _ & E1 & E2 & E3).
  fold d in E1, E2.
  unfold r, aes256_data_process. rewrite decide_False by done.
  fold a1. rewrite decide_True by done. rewrite decide_True by done.
  clearbody a1. rewrite He. cbn.
  repeat case_decide; cbn; split_and!; (done || lia).
Qed.

Lemma prepared_hmac_key_take (k : bytes) :
  length k = 64%nat → prepared_hmac_key k = take 32 k.
Proof.
  intros Hk. unfold prepared_hmac_key, prepared_ctx. cbn.
  unfold key_region. cbn. unfold memcpy, slice.
  change (Z.to_nat 0) with 0%nat. change (Z.to_nat (KEY_SIZE / 2)) with 32%nat.
  change (Z.to_nat KEY_SIZE) with 64%nat.
  rewrite drop_0, take_0. cbn [app].
  rewrite (take_ge k) by lia.
  rewrite take_app_le by (rewrite length_app; lia).
  rewrite take_app_le by lia. done.
Qed.

Lemma prepared_chain (k : bytes) kfile mode :
  length k = 64%nat → chain_ok (take 32 k) (prepared_ctx k kfile mode).
Proof.
  intros Hk. rewrite <- (prepared_hmac_key_take k Hk).
  unfold prepared_hmac_key, prepared_ctx.
  rewrite (decide_True (P := SXF_MODE_UPLOAD = SXF_MODE_UPLOAD)) by done.
  destruct (decide (mode = SXF_MODE_UPLOAD)); by split.
Qed.

Lemma upload_reachable_chain (k : bytes) a :
  length k = 64%nat → upload_reachable C k a → chain_ok (take 32 k) a.
Proof.
  intros Hk. induction 1 as [kfile|a in_buf insize outsize action _ IH].
  - by apply prepared_chain.
  - by apply process_chain.
Qed.

End Chain.

(** ** Keying of the contexts *)

Lemma init_contexts_ok (E : env) (k : bytes) kfile mode (w : world) :
  fails E F_calloc_ctx = false → fails E F_hmac_init_ivhash = false →
  fails E F_hmac_init_hmac = false → fails E F_cipher_init = false →
  init_contexts E k kfile mode w = (Some (prepared_ctx k kfile mode), w).
Proof.
  intros H1 H2 H3 H4. unfold init_contexts, prepared_ctx.
  rewrite H1, H2, H3, H4.
  destruct (decide (mode = SXF_MODE_UPLOAD)); reflexivity.
Qed.

Lemma init_contexts_some (E : env) k kf mode w a w' :
  init_contexts E k kf mode w = (Some a, w') →
  a = prepared_ctx k kf mode ∧ w' = w.
Proof.
  unfold init_contexts, prepared_ctx.
  destruct (fails E F_calloc_ctx), (fails E F_hmac_init_ivhash),
    (fails E F_hmac_init_hmac), (fails E F_cipher_init),
    (decide (mode = SXF_MODE_UPLOAD)); by intros [= <- <-].
Qed.

Lemma prepared_cipher_key_zero (k : bytes) kfile mode :
  length k = 64%nat →
  ci_key (cipher_ctx mode (prepared_ctx k kfile mode)) = zeros 32.
Proof.
  intros Hk.
  assert (Hz : ∀ k' : bytes, length k' = 64%nat →
            slice (k' ++ zeros EVP_MAX_MD_SIZE) KEY_SIZE AES256_KEY_LENGTH
            = zeros 32).
  { intros k' Hk'. unfold slice.
    change (Z.to_nat KEY_SIZE) with 64%nat.
    rewrite drop_app_length' by done. reflexivity. }
  assert (Hm : length (memcpy (zeros KEY_SIZE) 0 k KEY_SIZE) = 64%nat).
  { unfold memcpy. change (Z.to_nat (0 + KEY_SIZE)) with 64%nat.
    change (Z.to_nat KEY_SIZE) with 64%nat. change (Z.to_nat 0) with 0%nat.
    rewrite take_0, (take_ge k) by lia. cbn [app].
    rewrite length_app, Hk, length_drop, length_zeros. done. }
  unfold prepared_ctx, cipher_ctx.
  destruct (decide (mode = SXF_MODE_UPLOAD)); cbn; unfold key_region; cbn;
    by apply Hz.
Qed.

(** ** The claims about [aes256_data_process] *)

Section ProcessClaims.
Context (C : crypto) (L : crypto_laws C).

(** C7. For a staged plaintext block of [N] bytes, [1 ≤ N ≤ 16384], the
    encrypt path leaves in [blk] a wire block of exactly
    [16 + ⌈(N+1)/16⌉·16 + 32] bytes: the 16-byte IV, the padded CBC
    ciphertext, and the HMAC-SHA-512 tag cut to 32 bytes; the call of
    [process] that completes the block hands the caller its first
    [outsize] bytes. *)
Theorem encrypt_wire_block_size (a0 : aes256_ctx) (in_buf : bytes)
    (insize outsize N : Z) (action : sxf_action_t) :
  let a := ingest a0 in_buf insize SXF_MODE_UPLOAD action in
  ctx_wf a → hm_key (hmac a) = hm_key (ivhash a) →
  inbytes a = N → 1 ≤ N ≤ FILTER_BLOCK_SIZE →
  ¬ (action = SXF_ACTION_REPEAT ∧ data_out_left a0 ≠ 0) →
  block_due a SXF_MODE_UPLOAD action → 0 ≤ outsize →
  let p := slice (in_ a) 0 N in
  let iv := take 16 (HMAC C EVP_sha1 (hm_key (ivhash a)) (ivmac a ++ p)) in
  let ct := cbc_enc_update C (ci_key (ectx a)) iv p
            ++ cbc_enc_final C (ci_key (ectx a)) iv p in
  let tag := take 32 (HMAC C EVP_sha512 (hm_key (hmac a)) (iv ++ ct)) in
  let r := aes256_data_process C a0 in_buf insize outsize SXF_MODE_UPLOAD
             action in
  blen iv = 16 ∧ blen ct = (N + 1 + 15) / 16 * 16 ∧ blen tag = 32
  ∧ (∃ a', encrypt_block C a = BlockOk a'
           ∧ blkbytes a' = 16 + (N + 1 + 15) / 16 * 16 + 32
           ∧ slice (blk a') 0 (blkbytes a') = iv ++ ct ++ tag)
  ∧ p_out r = take (Z.to_nat outsize) (iv ++ ct ++ tag)
  ∧ p_ret r = Z.min outsize (16 + (N + 1 + 15) / 16 * 16 + 32).
Proof.
  intros a Hwf Hk HN HNr Hnd Hdue Ho p iv ct tag r.
  destruct (encrypt_block_ok C L a Hwf ltac:(lia) Hk)
    as (a' & Hblk & Hbb & Htk & _).
  rewrite HN in Hbb, Htk. fold p in Hbb, Htk.
  set (w := wire_block C (hm_key (ivhash a)) (ci_key (ectx a)) (ivmac a) p)
    in *.
  assert (Hw : w = iv ++ ct ++ tag).
  { unfold w, wire_block, iv_digest, tag. by rewrite Hk. }
  assert (Hlp : length p = Z.to_nat N).
  { unfold p. rewrite slice_0, length_take. destruct Hwf as [Hin _ _ _ _].
    rewrite Hin. unfold_consts. lia. }
  assert (Hliv : blen iv = 16).
  { unfold iv, blen. rewrite length_take, (HMAC_sha1_length C L). lia. }
  assert (Hlct : blen ct = (N + 1 + 15) / 16 * 16).
  { unfold ct, blen. rewrite length_app, (cbc_enc_update_length C L),
      (cbc_enc_final_length C L), Hlp.
    rewrite Nat2Z.inj_add, Nat2Z.inj_mul, Nat2Z.inj_div, Z2Nat.id by lia.
    change (Z.of_nat 16) with 16.
    replace (N + 1 + 15) with (N + 1 * 16) by lia.
    rewrite Z.div_add by lia. lia. }
  assert (Hlt : blen tag = 32).
  { unfold tag, blen. rewrite length_take, (HMAC_sha512_length C L). lia. }
  assert (Hlw : blen w = 16 + (N + 1 + 15) / 16 * 16 + 32).
  { rewrite Hw, !blen_app. lia. }
  assert (Hslice : slice (blk a') 0 (blkbytes a') = w).
  { rewrite slice_0, Hbb, to_nat_blen. exact Htk. }
  split_and!; try done.
  - exists a'. split_and!; [done|congruence|by rewrite <- Hw].
  - unfold r, aes256_data_process. rewrite decide_False by done.
    fold a. rewrite decide_True by done. rewrite decide_True by done.
    rewrite Hblk. cbn. rewrite <- Hw.
    case_decide; cbn.
    + rewrite slice_0.
      transitivity (take (Z.to_nat outsize) (take (length w) (blk a')));
        [|by rewrite Htk].
      rewrite take_take. f_equal. unfold blen in *. lia.
    + rewrite Hslice. rewrite take_ge by (unfold blen in *; lia).
      by case_decide.
  - unfold r, aes256_data_process. rewrite decide_False by done.
    fold a. rewrite decide_True by done. rewrite decide_True by done.
    rewrite Hblk. cbn. rewrite <- Hlw, <- Hbb.
    case_decide; [cbn; lia|].
    case_decide; cbn; lia.
Qed.

(** C3. On download, the staged wire block is authenticated before any
    decryption: when its trailing 32 bytes differ from the recomputed,
    truncated HMAC-SHA-512 of the rest, [process] returns [-1], sets
    [decrypt_err], writes no output, and has touched neither the cipher
    context nor the output staging buffer; when the tag is right and the
    CBC finalization fails, [process] returns [-1], sets [decrypt_err]
    and writes no output; otherwise the call succeeds. *)
Theorem download_authenticates_first (a0 : aes256_ctx) (in_buf : bytes)
    (insize outsize : Z) (action : sxf_action_t) :
  let a := ingest a0 in_buf insize SXF_MODE_DOWNLOAD action in
  ctx_wf a →
  ¬ (action = SXF_ACTION_REPEAT ∧ data_out_left a0 ≠ 0) →
  block_due a SXF_MODE_DOWNLOAD action →
  IV_SIZE + MAC_SIZE ≤ inbytes a ≤ BUF_SIZE → 0 ≤ outsize →
  let r := aes256_data_process C a0 in_buf insize outsize SXF_MODE_DOWNLOAD
             action in
  let iv := slice (in_ a) 0 IV_SIZE in
  let ct := slice (in_ a) IV_SIZE (inbytes a - MAC_SIZE - IV_SIZE) in
  (staged_tag a ≠ computed_tag C a →
   p_ret r = -1 ∧ decrypt_err (p_ctx r) = 1 ∧ p_out r = []
   ∧ blk (p_ctx r) = blk a0 ∧ dctx (p_ctx r) = dctx a0)
  ∧ (staged_tag a = computed_tag C a →
     cbc_dec_final C (ci_key (dctx a)) iv ct = None →
     p_ret r = -1 ∧ decrypt_err (p_ctx r) = 1 ∧ p_out r = [])
  ∧ (staged_tag a = computed_tag C a →
     is_Some (cbc_dec_final C (ci_key (dctx a)) iv ct) →
     0 ≤ p_ret r ∧ decrypt_err (p_ctx r) = decrypt_err a0).
Proof.
  intros a Hwf Hnd Hdue Hn Ho r iv ct.
  assert (Hframe : blk a = blk a0 ∧ dctx a = dctx a0
                   ∧ decrypt_err a = decrypt_err a0).
  { unfold a, ingest. by destruct (decide (action = SXF_ACTION_DATA_END)). }
  destruct Hframe as (Hblk0 & Hdctx0 & Herr0).
  assert (Hr : r = match decrypt_block C a with
                   | BlockErr msg a' => process_error msg a' action
                   | BlockOk a' =>
                       let a' := set_inbytes 0 a' in
                       if decide (blkbytes a' > outsize) then
                         {| p_ret := outsize;
                            p_ctx := set_data_out_left
                                       (u32 (blkbytes a' - outsize)) a';
                            p_out := slice (blk a') 0 outsize;
                            p_action := SXF_ACTION_REPEAT;
                            p_log := [] |}
                       else
                         let out := slice (blk a') 0 (blkbytes a') in
                         let final := blkbytes a' in
                         let a' := set_blkbytes 0 a' in
                         if decide (data_in a' = insize) then
                           {| p_ret := final;
                              p_ctx := set_data_in 0 a';
                              p_out := out;
                              p_action :=
                                if decide (data_end a' = 0)
                                then SXF_ACTION_NORMAL
                                else SXF_ACTION_DATA_END;
                              p_log := [] |}
                         else
                           {| p_ret := final; p_ctx := a'; p_out := out;
                              p_action := SXF_ACTION_REPEAT; p_log := [] |}
                   end).
  { unfold r, aes256_data_process. rewrite decide_False by done.
    fold a. rewrite decide_True by done. by rewrite decide_False. }
  clearbody r. subst r. clearbody a.
  split_and!.
  - intros Htag.
    destruct (decrypt_block_bad_tag C L a Hwf Hn Htag)
      as (a' & -> & He & Hb & _ & Hd).
    cbn. split_and!; [done|done|done|by rewrite Hb|by rewrite Hd].
  - intros Htag Hfin.
    pose proof (decrypt_block_after_tag C L a Hwf Hn Htag) as Hdec.
    cbv zeta in Hdec. fold iv ct in Hdec. rewrite Hfin in Hdec.
    destruct Hdec as (a' & -> & He). cbn. done.
  - intros Htag [fin Hfin].
    pose proof (decrypt_block_after_tag C L a Hwf Hn Htag) as Hdec.
    cbv zeta in Hdec. fold iv ct in Hdec. rewrite Hfin in Hdec.
    destruct Hdec as (a' & -> & Hbb & _ & _ & He & _).
    cbn. rewrite Hbb. pose proof (blen_nonneg (cbc_dec_update C
      (ci_key (dctx a)) iv ct ++ fin)).
    repeat case_decide; cbn; split; (lia || congruence).
Qed.

(** C5, the claim as the spec words it, refuted on a run: an upload of
    16394 bytes into output buffers of 16000 bytes.  The first call
    stages the block of the first 16384 bytes and leaves 448 bytes of it
    pending, with ten bytes of input unread; the second call hands out
    those 448 bytes and returns with the ten bytes still unread and the
    staging buffer still empty. *)
Lemma drain_does_not_ingest_example :
  p_action ex_drain_first = SXF_ACTION_REPEAT
  ∧ data_out_left (p_ctx ex_drain_first) = 448
  ∧ data_in (p_ctx ex_drain_first) = 16384
  ∧ p_ret ex_drain_second = 448
  ∧ data_out_left (p_ctx ex_drain_second) = 0
  ∧ inbytes (p_ctx ex_drain_second) = 0
  ∧ data_in (p_ctx ex_drain_second) = 16384
  ∧ p_action ex_drain_second = SXF_ACTION_REPEAT.
Proof. vm_compute. repeat split. Qed.

(** C5, as the code has it.  A call that enters with pending output and
    an output buffer that takes all of it returns those bytes at once
    and copies no input, whether or not the caller's input is used up:
    when it is, the action becomes [NORMAL] or [DATA_END] and the input
    offset is reset; when it is not, the action stays [REPEAT] and the
    input offset is kept, so that the ingestion is left to the next
    call. *)
Theorem drain_returns_at_once (a : aes256_ctx) (in_buf : bytes)
    (insize outsize : Z) (mode : sxf_mode_t) :
  0 < data_out_left a ≤ outsize →
  let r := aes256_data_process C a in_buf insize outsize mode
             SXF_ACTION_REPEAT in
  p_ret r = data_out_left a
  ∧ p_out r = slice (blk a) (u32 (blkbytes a - data_out_left a))
                (data_out_left a)
  ∧ data_out_left (p_ctx r) = 0 ∧ blkbytes (p_ctx r) = 0
  ∧ inbytes (p_ctx r) = inbytes a ∧ in_ (p_ctx r) = in_ a
  ∧ data_in (p_ctx r) = (if decide (data_in a = insize) then 0
                         else data_in a)
  ∧ p_action r = (if decide (data_in a = insize) then
                    if decide (data_end a = 0) then SXF_ACTION_NORMAL
                    else SXF_ACTION_DATA_END
                  else SXF_ACTION_REPEAT).
Proof.
  intros Hl r. unfold r, aes256_data_process.
  rewrite (decide_True (P := SXF_ACTION_REPEAT = SXF_ACTION_REPEAT ∧ _))
    by (split; [done|lia]).
  rewrite decide_False by lia. cbn.
  destruct (decide (data_in a = insize)) as [Heq|Hne]; cbn; done.
Qed.

(** C2. Round trip: for every plaintext [P] and key material [k],
    however the host cuts [P] into input slices and whatever the sizes
    of its output buffers, the upload direction of [process] makes of
    [P] a stream [W], and the download direction under the same [k]
    makes of [W], however it is cut into slices, exactly [P].  The
    contexts are the ones [prepare] hands over; the host loop is given
    enough calls per slice ([feed_fuel]). *)
Theorem process_round_trip (k : bytes) (kfile kfile' : option string)
    (P : bytes) (pchunks : list bytes) (oe : Z) (fe : nat) :
  concat pchunks = P →
  Forall (λ c, blen c < 4294967296) pchunks →
  Forall (λ c, (feed_fuel c ≤ fe)%nat) pchunks →
  1 ≤ oe →
  ∃ W ea,
    host_stream C SXF_MODE_UPLOAD oe fe
      (prepared_ctx k kfile SXF_MODE_UPLOAD) pchunks = HostDone W ea
    ∧ ∀ (wchunks : list bytes) (od : Z) (fd : nat),
        concat wchunks = W →
        Forall (λ c, blen c < 4294967296) wchunks →
        Forall (λ c, (feed_fuel c ≤ fd)%nat) wchunks →
        1 ≤ od →
        ∃ da,
          host_stream C SXF_MODE_DOWNLOAD od fd
            (prepared_ctx k kfile' SXF_MODE_DOWNLOAD) wchunks
          = HostDone P da.
Proof.
  intros HP Hsz Hfuel Hoe.
  set (hk := prepared_hmac_key k). set (ck := prepared_cipher_key k).
  set (σ0 := zeros EVP_MAX_MD_SIZE).
  destruct (stream_spec (block_tr C SXF_MODE_UPLOAD hk ck)
              (Z.to_nat (bsize_of SXF_MODE_UPLOAD)) σ0 P) as [W|] eqn:Henc.
  2: { destruct (stream_spec_enc_total C hk ck σ0 P) as [W HW].
       rewrite HW in Henc. done. }
  destruct (host_stream_whole C L SXF_MODE_UPLOAD hk ck oe Hoe pchunks fe
              (prepared_ctx k kfile SXF_MODE_UPLOAD) σ0 W) as (ea & Hup);
    [ apply prepared_ctx_inv | done | done | by rewrite HP | ].
  exists W, ea. split; [done|].
  intros wchunks od fd HW Hwsz Hwfuel Hod.
  apply (host_stream_whole C L SXF_MODE_DOWNLOAD hk ck od Hod wchunks fd
           (prepared_ctx k kfile' SXF_MODE_DOWNLOAD) σ0 P);
    [ apply prepared_ctx_inv | done | done | ].
  rewrite HW. by apply (stream_roundtrip C L hk ck σ0 σ0 P W).
Qed.

End ProcessClaims.

Lemma feed_fuel_small (c : bytes) :
  blen c ≤ 10 → (feed_fuel c ≤ ex_fuel)%nat.
Proof. unfold feed_fuel, ex_fuel. intros. unfold_consts. lia. Qed.

Lemma ex_chunks_fuel :
  Forall (λ c, (feed_fuel c ≤ ex_fuel)%nat) ex_chunks.
Proof.
  unfold ex_chunks.
  apply Forall_cons_2; [|apply Forall_cons_2; [|apply Forall_nil_2]];
    apply feed_fuel_small; vm_compute; discriminate.
Qed.

Lemma ex_chunks_size : Forall (λ c, blen c < 4294967296) ex_chunks.
Proof.
  unfold ex_chunks.
  apply Forall_cons_2; [|apply Forall_cons_2; [|apply Forall_nil_2]];
    vm_compute; reflexivity.
Qed.

(** Witness of C2: ten bytes offered as slices of four and six bytes,
    with output buffers of seven bytes. *)
Lemma process_round_trip_witness :
  ∃ W ea,
    host_stream toy SXF_MODE_UPLOAD 7 ex_fuel
      (prepared_ctx ex_key None SXF_MODE_UPLOAD) ex_chunks = HostDone W ea
    ∧ ∀ (wchunks : list bytes) (od : Z) (fd : nat),
        concat wchunks = W →
        Forall (λ c, blen c < 4294967296) wchunks →
        Forall (λ c, (feed_fuel c ≤ fd)%nat) wchunks →
        1 ≤ od →
        ∃ da,
          host_stream toy SXF_MODE_DOWNLOAD od fd
            (prepared_ctx ex_key None SXF_MODE_DOWNLOAD) wchunks
          = HostDone ex_plain da.
Proof.
  apply (process_round_trip toy toy_laws ex_key None None ex_plain ex_chunks
           7 ex_fuel);
    [ reflexivity | exact ex_chunks_size | exact ex_chunks_fuel | lia ].
Defined.

(** Witness of C7: the ten bytes of [ex_plain], offered in one call that
    ends the data, come out as a wire block of 64 bytes. *)
Lemma encrypt_wire_block_size_witness :
  p_ret (aes256_data_process toy (prepared_ctx ex_key None SXF_MODE_UPLOAD)
           ex_plain 10 20000 SXF_MODE_UPLOAD SXF_ACTION_DATA_END)
  = Z.min 20000 (16 + (10 + 1 + 15) / 16 * 16 + 32).
Proof.
  destruct (encrypt_wire_block_size toy toy_laws
              (prepared_ctx ex_key None SXF_MODE_UPLOAD) ex_plain 10 20000 10
              SXF_ACTION_DATA_END) as (_ & _ & _ & _ & _ & H).
  - split; vm_compute; reflexivity.
  - vm_compute; reflexivity.
  - vm_compute; reflexivity.
  - vm_compute. split; discriminate.
  - intros [? _]. discriminate.
  - right. split; [vm_compute; discriminate|left; reflexivity].
  - lia.
  - exact H.
Defined.

(** Witness of C3: the wire block of [ex_plain] is opened, and the same
    block with one ciphertext byte changed is refused. *)
Lemma download_authenticates_first_witness :
  (let r := aes256_data_process toy
              (prepared_ctx ex_key None SXF_MODE_DOWNLOAD) ex_wire_bad 64
              20000 SXF_MODE_DOWNLOAD SXF_ACTION_DATA_END in
   p_ret r = -1 ∧ decrypt_err (p_ctx r) = 1 ∧ p_out r = [])
  ∧ (let r := aes256_data_process toy
                (prepared_ctx ex_key None SXF_MODE_DOWNLOAD) ex_wire 64
                20000 SXF_MODE_DOWNLOAD SXF_ACTION_DATA_END in
     0 ≤ p_ret r ∧ decrypt_err (p_ctx r) = 0).
Proof.
  split.
  - destruct (download_authenticates_first toy toy_laws
                (prepared_ctx ex_key None SXF_MODE_DOWNLOAD) ex_wire_bad 64
                20000 SXF_ACTION_DATA_END) as (H & _ & _).
    + split; vm_compute; reflexivity.
    + intros [? _]. discriminate.
    + right. split; [vm_compute; discriminate|left; reflexivity].
    + vm_compute. split; discriminate.
    + lia.
    + destruct H as (H1 & H2 & H3 & _); [|by split_and!].
      apply (bool_decide_unpack _). vm_compute. exact I.
  - destruct (download_authenticates_first toy toy_laws
                (prepared_ctx ex_key None SXF_MODE_DOWNLOAD) ex_wire 64
                20000 SXF_ACTION_DATA_END) as (_ & _ & H).
    + split; vm_compute; reflexivity.
    + intros [? _]. discriminate.
    + right. split; [vm_compute; discriminate|left; reflexivity].
    + vm_compute. split; discriminate.
    + lia.
    + apply H.
      * vm_compute. reflexivity.
      * vm_compute. eexists. reflexivity.
Defined.

(** Witness of C5: the second call of the run above. *)
Lemma drain_returns_at_once_witness :
  let r := aes256_data_process toy (p_ctx ex_drain_first) ex_long_plain
             16394 16000 SXF_MODE_UPLOAD SXF_ACTION_REPEAT in
  p_ret r = data_out_left (p_ctx ex_drain_first)
  ∧ inbytes (p_ctx r) = inbytes (p_ctx ex_drain_first)
  ∧ in_ (p_ctx r) = in_ (p_ctx ex_drain_first).
Proof.
  destruct (drain_returns_at_once toy (p_ctx ex_drain_first) ex_long_plain
              16394 16000 SXF_MODE_UPLOAD)
    as (H1 & _ & _ & _ & H2 & H3 & _).
  - vm_compute. split; [reflexivity|discriminate].
  - by split_and!.
Defined.

(** ** The claims about the keys and the chained state *)

(** C10. On upload the IV of a block is the first 16 bytes of the
    HMAC-SHA-1, keyed with the first 32 key bytes, of the 64 bytes of
    [ivmac] followed by the block's plaintext.  The context that
    [prepare] builds has an all-zero [ivmac].  In every context an
    upload reaches from it, the block step goes through: it gives the
    cipher that IV, stores the 20-byte digest at the start of [ivmac]
    and nothing behind it, so that the bytes 20..63 of [ivmac] are
    always zero; and the call of [process] that completes a block does
    not fail and leaves that IV and that chained state. *)
Theorem upload_iv_chain (C : crypto) (L : crypto_laws C) (k : bytes)
    (a : aes256_ctx) (in_buf : bytes) (insize outsize : Z)
    (action : sxf_action_t) :
  length k = 64%nat →
  upload_reachable C k a →
  let a1 := ingest a in_buf insize SXF_MODE_UPLOAD action in
  let d := HMAC C EVP_sha1 (take 32 k)
             (ivmac a1 ++ slice (in_ a1) 0 (inbytes a1)) in
  (∀ E kfile w a0 w',
     init_contexts E k kfile SXF_MODE_UPLOAD w = (Some a0, w') →
     ivmac a0 = zeros 64 ∧ upload_reachable C k a0)
  ∧ length (ivmac a) = 64%nat ∧ drop 20 (ivmac a) = zeros 44
  ∧ ivmac a1 = ivmac a
  ∧ hm_md (ivhash a1) = EVP_sha1 ∧ hm_key (ivhash a1) = take 32 k
  ∧ (∃ a', encrypt_block C a1 = BlockOk a'
           ∧ ci_iv (ectx a') = take 16 d ∧ ivmac a' = d ++ zeros 44)
  ∧ (¬ (action = SXF_ACTION_REPEAT ∧ data_out_left a ≠ 0) →
     block_due a1 SXF_MODE_UPLOAD action → 0 ≤ outsize →
     let r := aes256_data_process C a in_buf insize outsize SXF_MODE_UPLOAD
                action in
     0 ≤ p_ret r ∧ ci_iv (ectx (p_ctx r)) = take 16 d
     ∧ ivmac (p_ctx r) = d ++ zeros 44).
Proof.
  intros Hk Hr a1 d.
  pose proof (upload_reachable_chain C L k a Hk Hr) as Hc.
  pose proof (ingest_chain (take 32 k) a in_buf insize SXF_MODE_UPLOAD
                action Hc) as Hi.
  fold a1 in Hi.
  assert (Hiv : ivmac a1 = ivmac a).
  { unfold a1, ingest. by destruct (decide (action = SXF_ACTION_DATA_END)). }
  split_and!; try apply Hc; try apply Hi; try done.
  - intros E kfile w a0 w' H0. apply init_contexts_some in H0 as [-> _].
    split; [done|constructor].
  - destruct (encrypt_block_chain C L (take 32 k) a1 Hi)
      as (a' & He & _ & E1 & E2 & _).
    exists a'. by split_and!.
  - intros Hnd Hdue Ho.
    by apply (process_block_chain C L (take 32 k) a in_buf insize outsize
                action Hc Hnd).
Qed.

(** Witness of C10: the context of [prepare] under [ex_key] takes the
    ten bytes of [ex_plain]; the block step succeeds with the IV of the
    all-zero chained state. *)
Lemma upload_iv_chain_witness :
  ∃ a',
    encrypt_block toy
      (ingest (prepared_ctx ex_key None SXF_MODE_UPLOAD) ex_plain 10
         SXF_MODE_UPLOAD SXF_ACTION_DATA_END) = BlockOk a'
    ∧ ci_iv (ectx a')
      = take 16 (HMAC toy EVP_sha1 (take 32 ex_key) (zeros 64 ++ ex_plain))
    ∧ drop 20 (ivmac a') = zeros 44.
Proof.
  destruct (upload_iv_chain toy toy_laws ex_key
              (prepared_ctx ex_key None SXF_MODE_UPLOAD) ex_plain 10 20000
              SXF_ACTION_DATA_END)
    as (_ & _ & _ & _ & _ & _ & (a' & H1 & H2 & H3) & _).
  - reflexivity.
  - constructor.
  - exists a'. split_and!; [exact H1|exact H2|].
    rewrite H3. apply drop_app_length'. reflexivity.
Defined.

(** C1, as the code has it.  Both HMAC contexts are keyed with the first
    32 bytes of the 64-byte key, the first for SHA-1 and the second for
    SHA-512.  The cipher context is given the 32 bytes at
    [actx->key + KEY_SIZE]: with [KEY_SIZE = 64] these are not the last
    32 bytes of the key but the first 32 bytes of [ivmac], the array
    that follows [key] in the structure, which [calloc] has zeroed.  So
    the cipher key is 32 zero bytes whatever the key is, and differs
    from the last 32 key bytes unless those are all zero. *)
Theorem prepare_context_keys (E : env) (k : bytes) (kfile : option string)
    (mode : sxf_mode_t) (w : world) :
  length k = 64%nat →
  fails E F_calloc_ctx = false → fails E F_hmac_init_ivhash = false →
  fails E F_hmac_init_hmac = false → fails E F_cipher_init = false →
  ∃ a, init_contexts E k kfile mode w = (Some a, w)
       ∧ hm_md (ivhash a) = EVP_sha1 ∧ hm_key (ivhash a) = take 32 k
       ∧ hm_md (hmac a) = EVP_sha512 ∧ hm_key (hmac a) = take 32 k
       ∧ ci_key (cipher_ctx mode a) = zeros 32
       ∧ (drop 32 k ≠ zeros 32 → ci_key (cipher_ctx mode a) ≠ drop 32 k).
Proof.
  intros Hk F1 F2 F3 F4. exists (prepared_ctx k kfile mode).
  pose proof (prepared_ctx_inv k kfile mode) as [[_ _ _ W1 W2] I1 I2 _ _ _ _ _ _ _ _].
  pose proof (prepared_cipher_key_zero k kfile mode Hk) as Hz.
  rewrite (prepared_hmac_key_take k Hk) in I1, I2.
  split_and!; try done.
  - by apply init_contexts_ok.
  - rewrite Hz. congruence.
Qed.

(** Witness of C1: the key of bytes 1 to 64, for an upload. *)
Lemma prepare_context_keys_witness :
  ∃ a, init_contexts ex_env ex_key None SXF_MODE_UPLOAD ex_world
       = (Some a, ex_world)
       ∧ hm_key (ivhash a) = take 32 ex_key
       ∧ hm_key (hmac a) = take 32 ex_key
       ∧ ci_key (ectx a) = zeros 32
       ∧ ci_key (ectx a) ≠ drop 32 ex_key.
Proof.
  destruct (prepare_context_keys ex_env ex_key None SXF_MODE_UPLOAD ex_world)
    as (a & H1 & _ & H2 & _ & H3 & H4 & H5); try reflexivity.
  exists a. split_and!; try done. apply H5. vm_compute. discriminate.
Defined.

(** ** What the steps of [aes256_data_prepare] do to the world *)

Arguments derive_key : simpl never.
Arguments getpassword : simpl never.
Arguments getpassword_retry : simpl never.
Arguments keyfp : simpl never.
Arguments persist_key : simpl never.
Arguments init_contexts : simpl never.

Ltac run_M :=
  repeat first
    [ progress cbn in *
    | progress unfold mbind, M_bind, mret, M_ret, error, fail, ERROR, WARN,
        NOTICE, sxc_filter_msg, or_error, sxc_filter_get_input,
        sxc_meta_getval, sxc_meta_setval, access_F_OK, open_creat,
        write_file, unlink, read_contents in * ].

Section PrepareFacts.
Context (C : crypto) (E : env).

Lemma derive_key_spec pass salt ss os w r w' :
  derive_key C pass salt ss os w = (r, w') →
  files w' = files w ∧ meta w' = meta w ∧ inputs w' = inputs w
  ∧ ∀ k, r = Some k → blen k = os ∧ w' = w.
Proof.
  unfold derive_key. destruct (sxi_derive_key C pass _).
  - case_decide.
    + intros [= <- <-]. done.
    + intros [= <- <-]. split_and!; try done. intros k [= <-]. split; [|done].
      destruct (decide (blen (SHA512 C (list_byte_of_string s)) = os)); done.
  - intros [= <- <-]. done.
Qed.

Lemma getpassword_spec repeat mode salt w r w' :
  getpassword C repeat mode salt w = (r, w') →
  files w' = files w ∧ meta w' = meta w
  ∧ (∀ k, r = Some (PwKey k) → blen k = KEY_SIZE)
  ∧ (r = Some PwAgain → (length (inputs w') < length (inputs w))%nat).
Proof.
  unfold getpassword. run_M.
  destruct (inputs w) as [|[pass1|] rest] eqn:Hin; cbn.
  - intros [= <- <-]. done.
  - case_decide.
    + intros [= <- <-]. cbn. split_and!; try done. lia.
    + destruct repeat.
      * destruct rest as [|[pass2|] rest]; cbn.
        -- intros [= <- <-]. done.
        -- case_decide.
           ++ intros [= <- <-]. cbn. split_and!; try done. lia.
           ++ destruct (derive_key C pass1 salt SALT_SIZE KEY_SIZE _)
                as [[k|] w1] eqn:Hd; intros [= <- <-];
                apply derive_key_spec in Hd as (F1 & F2 & F3 & F4);
                split_and!; try done.
              intros k' [= <-]. by apply F4.
        -- intros [= <- <-]. done.
      * destruct (derive_key C pass1 salt SALT_SIZE KEY_SIZE _)
          as [[k|] w1] eqn:Hd; intros [= <- <-];
          apply derive_key_spec in Hd as (F1 & F2 & F3 & F4);
          split_and!; try done.
        intros k' [= <-]. by apply F4.
  - intros [= <- <-]. done.
Qed.

Lemma getpassword_loop_spec fuel repeat mode salt : ∀ w r w',
  getpassword_loop C fuel repeat mode salt w = (r, w') →
  files w' = files w ∧ meta w' = meta w
  ∧ (∀ k, r = Some k → blen k = KEY_SIZE).
Proof.
  induction fuel as [|fuel IH]; intros w r w'; cbn.
  - intros [= <- <-]. done.
  - unfold mbind, M_bind.
    destruct (getpassword C repeat mode salt w) as [[[k|]|] w1] eqn:Hg;
      apply getpassword_spec in Hg as (G1 & G2 & G3 & G4).
    + intros [= <- <-]. split_and!; try done. intros k' [= <-]. by apply G3.
    + intros Hl. apply IH in Hl as (H1 & H2 & H3). split_and!; [congruence|congruence|done].
    + intros [= <- <-]. done.
Qed.

Lemma getpassword_retry_spec repeat mode salt w r w' :
  getpassword_retry C repeat mode salt w = (r, w') →
  files w' = files w ∧ meta w' = meta w
  ∧ (∀ k, r = Some k → blen k = KEY_SIZE).
Proof. apply getpassword_loop_spec. Qed.

Lemma keyfp_spec key cur w r w' :
  keyfp C E key cur w = (r, w') →
  files w' = files w ∧ meta w' = meta w ∧ inputs w' = inputs w.
Proof.
  unfold keyfp. unfold mbind, M_bind, or_error.
  destruct (derive_key C _ _ SALT_SIZE KEY_SIZE w) as [[d|] w1] eqn:Hd;
    apply derive_key_spec in Hd as (F1 & F2 & F3 & F4).
  - destruct cur; [destruct (memcmp_differs _ _ _)|]; intros [= <- <-]; done.
  - intros [= <- <-]. done.
Qed.

Lemma persist_key_spec keyfile key w :
  ∃ w', persist_key E keyfile key w = (Some (), w')
    ∧ meta w' = meta w ∧ inputs w' = inputs w
    ∧ (∀ q, q ≠ keyfile → files w' !! q = files w !! q)
    ∧ (if fails E F_open_key_trunc then
         files w' = files w
         ∧ log w' = log w ++ [(SX_LOG_WARNING,
             "Can't open file %s for writing -- continuing without key file")]
       else if fails E F_write_key then
         files w' !! keyfile = None
         ∧ log w' = log w ++ [(SX_LOG_WARNING,
             "Can't write key data to file %s -- continuing without key file")]
       else if fails E F_close_key then
         files w' !! keyfile = None
         ∧ log w' = log w ++ [(SX_LOG_WARNING,
             "Can't close file %s -- continuing without key file")]
       else
         files w' !! keyfile = Some (take (Z.to_nat KEY_SIZE) key)
         ∧ log w' = log w).
Proof.
  unfold persist_key.
  destruct (fails E F_open_key_trunc); [|destruct (fails E F_write_key);
    [|destruct (fails E F_close_key)]]; run_M; eexists; split; try done;
    split_and!; cbn; try done;
    try (intros q Hq; by rewrite ?lookup_delete_ne, ?lookup_insert_ne by done);
    try (by rewrite lookup_delete_eq).
  rewrite !lookup_insert_eq. cbn. unfold memcpy. cbn.
  by rewrite drop_nil, app_nil_r.
Qed.


Lemma init_contexts_spec k kf mode :
  ∃ r, ∀ w, ∃ w', init_contexts E k kf mode w = (r, w')
    ∧ files w' = files w ∧ meta w' = meta w ∧ inputs w' = inputs w.
Proof.
  unfold init_contexts.
  destruct (fails E F_calloc_ctx), (fails E F_hmac_init_ivhash),
    (fails E F_hmac_init_hmac), (fails E F_cipher_init),
    (decide (mode = SXF_MODE_UPLOAD));
    eexists; intros w; eexists; (split; [reflexivity|done]).
Qed.

Lemma dispatch_blob_spec filename cfg mode w r w' :
  dispatch_blob C E filename cfg mode w = (r, w') →
  files w' = files w ∧ meta w' = meta w.
Proof.
  unfold dispatch_blob. destruct cfg as [data|]; [|by intros [= <- <-]].
  cbv zeta. destruct (decide (blen data = SALT_SIZE));
    [|repeat case_decide; by intros [= <- <-]].
  unfold mbind, M_bind, NOTICE, sxc_filter_msg.
  match goal with
  | |- context [getpassword_retry ?a ?b ?c ?d ?e] =>
      destruct (getpassword_retry a b c d e) as [[k|] w1] eqn:Hg
  end;
    apply getpassword_retry_spec in Hg as (G1 & G2 & _);
    by intros [= <- <-].
Qed.

Lemma acquire_key_spec cfgdir l mode w r w' :
  acquire_key C E cfgdir l mode w = (r, w') →
  (∀ q, q ≠ String.append cfgdir "/key" → files w' !! q = files w !! q)
  ∧ (∀ k kf, r = Some (k, kf) → l_keyread l = false →
       blen k = KEY_SIZE ∧ kf = Some (String.append cfgdir "/key")).
Proof.
  unfold acquire_key. destruct (l_keyread l) eqn:Hkr.
  { intros [= <- <-]. done. }
  destruct (fails E F_malloc_keyfile); run_M; [by intros [= <- <-]|].
  set (kf := String.append cfgdir "/key").
  set (pre := if fails E F_open_key_rdonly then _ else _).
  assert (Hpre : ∃ c wc, pre w = (Some c, wc) ∧ files wc = files w
            ∧ meta wc = meta w
            ∧ ∀ k, c = Some k → blen k = KEY_SIZE).
  { unfold pre. destruct (fails E F_open_key_rdonly).
    { eexists _, _. split; [reflexivity|done]. }
    destruct (files w !! kf) as [data|].
    - destruct (fails E F_read_key); cbn.
      { eexists _, _. split; [reflexivity|done]. }
      case_bool_decide.
      { eexists _, _. split; [reflexivity|done]. }
      eexists _, _. split; [reflexivity|]. split_and!; try done.
      intros k [= <-]. unfold blen, slice. rewrite drop_0, length_take.
      unfold blen in *. unfold_consts. lia.
    - destruct (l_have_fp l); eexists _, _; (split; [reflexivity|done]). }
  destruct Hpre as (c & wc & -> & Hf & Hm & Hc). clear pre.
  destruct c as [k|].
  { intros [= <- <-]. split; [by rewrite Hf|]. intros k' kf' [= <- <-] _.
    split; [by apply Hc|done]. }
  destruct (getpassword_retry C _ mode (l_salt l) wc) as [[k|] w1] eqn:Hg;
    apply getpassword_retry_spec in Hg as (G1 & G2 & G3);
    [|intros [= <- <-]; split; [by rewrite G1, Hf|done]].
  set (mid := if l_have_fp l then _ else _).
  assert (Hmid : ∃ rm wm, mid w1 = (rm, wm) ∧ files wm = files w).
  { unfold mid. destruct (l_have_fp l).
    - destruct (keyfp C E k (Some (l_fp l)) w1) as [[d|] w2] eqn:Hk;
        apply keyfp_spec in Hk as (K1 & K2 & K3);
        eexists _, _; (split; [reflexivity|]); cbn; congruence.
    - destruct (keyfp C E k None w1) as [[d|] w2] eqn:Hk;
        apply keyfp_spec in Hk as (K1 & K2 & K3);
        [destruct (fails E F_meta_setval)|];
        eexists _, _; (split; [reflexivity|]); cbn; congruence. }
  destruct Hmid as (rm & wm & -> & Hfm). clear mid.
  destruct rm as [[]|]; [|intros [= <- <-]; split; [by rewrite Hfm|done]].
  destruct (persist_key_spec kf k wm) as (wp & -> & P1 & P2 & P3 & _).
  intros [= <- <-]. split.
  - intros q Hq. by rewrite P3, Hfm.
  - intros k' kf' [= <- <-] _. split; [by apply G3|done].
Qed.

End PrepareFacts.

(** ** Faults of the key cache *)

Lemma acquire_key_faults (C : crypto) (E : env) cfgdir l mode w :
  ∃ r w1 w0,
    acquire_key C E cfgdir l mode w = (r, w1)
    ∧ acquire_key C (no_key_cache_faults E) cfgdir l mode w = (r, w0)
    ∧ meta w1 = meta w0 ∧ inputs w1 = inputs w0
    ∧ ∀ q, q ≠ String.append cfgdir "/key" → files w1 !! q = files w0 !! q.
Proof.
  unfold acquire_key. destruct (l_keyread l).
  { eexists _, _, _. split; [reflexivity|]. split; [reflexivity|done]. }
  change (keyfp C (no_key_cache_faults E)) with (keyfp C E).
  cbn [fails no_key_cache_faults].
  destruct (fails E F_malloc_keyfile); run_M.
  { eexists _, _, _. split; [reflexivity|]. split; [reflexivity|done]. }
  set (kf := String.append cfgdir "/key").
  set (pre := if fails E F_open_key_rdonly then _ else _).
  destruct (pre w) as [[[k|]|] wc].
  1, 3: eexists _, _, _; (split; [reflexivity|]); (split; [reflexivity|done]).
  clear pre.
  destruct (getpassword_retry C _ mode (l_salt l) wc) as [[k|] w1].
  2: eexists _, _, _; (split; [reflexivity|]); (split; [reflexivity|done]).
  set (mid := if l_have_fp l then _ else _).
  destruct (mid w1) as [[[]|] wm].
  2: eexists _, _, _; (split; [reflexivity|]); (split; [reflexivity|done]).
  destruct (persist_key_spec E kf k wm) as (wp & -> & P1 & P2 & P3 & _).
  destruct (persist_key_spec (no_key_cache_faults E) kf k wm)
    as (wp0 & -> & Q1 & Q2 & Q3 & _).
  eexists _, _, _. split; [reflexivity|]. split; [reflexivity|].
  split_and!; [congruence|congruence|].
  intros q Hq. by rewrite P3, Q3.
Qed.

Lemma prepare_faults (C : crypto) (E : env) filename cfgdir cfgdata mode w :
  ∃ r w1 w0,
    aes256_data_prepare C E filename cfgdir cfgdata mode w = (r, w1)
    ∧ aes256_data_prepare C (no_key_cache_faults E) filename cfgdir cfgdata
        mode w = (r, w0)
    ∧ meta w1 = meta w0 ∧ inputs w1 = inputs w0
    ∧ ∀ q, q ≠ String.append cfgdir "/key" → files w1 !! q = files w0 !! q.
Proof.
  unfold aes256_data_prepare.
  change (reconcile_custfp (no_key_cache_faults E)) with (reconcile_custfp E).
  change (dispatch_blob C (no_key_cache_faults E)) with (dispatch_blob C E).
  change (init_contexts (no_key_cache_faults E)) with (init_contexts E).
  cbn [runtime_ver compile_ver no_key_cache_faults].
  case_decide.
  { eexists _, _, _. split; [reflexivity|]. split; [reflexivity|done]. }
  unfold mbind, M_bind.
  destruct (reconcile_custfp E cfgdir cfgdata w) as [[cfg|] wr].
  2: eexists _, _, _; (split; [reflexivity|]); (split; [reflexivity|done]).
  destruct (dispatch_blob C E filename cfg mode wr) as [[l|] wd].
  2: eexists _, _, _; (split; [reflexivity|]); (split; [reflexivity|done]).
  destruct (acquire_key_faults C E cfgdir l mode wd)
    as (r & w1 & w0 & -> & -> & A1 & A2 & A3).
  destruct r as [[k kf]|].
  2: eexists _, _, _; (split; [reflexivity|]); (split; [reflexivity|done]).
  destruct (init_contexts_spec E k kf mode) as (r & Hr).
  destruct (Hr w1) as (w1' & -> & I1 & I2 & I3).
  destruct (Hr w0) as (w0' & -> & J1 & J2 & J3).
  eexists _, _, _. split; [reflexivity|]. split; [reflexivity|].
  split_and!; [congruence|congruence|].
  intros q Hq. by rewrite I1, J1, A3.
Qed.

(** ** The session key *)

Lemma append_inj (s a b : string) :
  String.append s a = String.append s b → a = b.
Proof. induction s as [|c s IH]; cbn; [done|]. intros [= H]. by apply IH. Qed.

Lemma custfp_not_key (cfgdir : string) :
  String.append cfgdir "/custfp" ≠ String.append cfgdir "/key".
Proof. intros H. apply append_inj in H. discriminate. Qed.

Lemma key_memcpy (k : bytes) :
  blen k = KEY_SIZE → memcpy (zeros KEY_SIZE) 0 k KEY_SIZE = k.
Proof.
  intros Hk. unfold memcpy. change (Z.to_nat 0) with 0%nat.
  rewrite take_0. cbn [app]. rewrite take_ge by (unfold blen in Hk; lia).
  rewrite drop_ge; [by rewrite app_nil_r|].
  rewrite length_zeros. lia.
Qed.

Lemma key_prepared_ctx (k : bytes) kf mode :
  blen k = KEY_SIZE → key (prepared_ctx k kf mode) = k.
Proof.
  intros Hk. unfold prepared_ctx.
  destruct (decide (mode = SXF_MODE_UPLOAD)); cbn; by apply key_memcpy.
Qed.

Section Password.
Context (C : crypto) (E : env).

(** A password of eight characters or more, typed once, or twice when
    it is to be repeated, is taken at the first prompt. *)
Lemma getpassword_retry_first (repeat : bool) mode salt w pass rest :
  inputs w = Some pass :: (if repeat then Some pass :: rest else rest) →
  8 ≤ strlen pass →
  getpassword_retry C repeat mode salt w
  = match derive_key C pass salt SALT_SIZE KEY_SIZE (set_inputs rest w) with
    | (Some k, w') => (Some k, w')
    | (None, w') => (None, w')
    end.
Proof.
  intros Hin Hlen. unfold getpassword_retry. rewrite Hin. cbn [length].
  cbn [getpassword_loop]. unfold mbind at 1, M_bind at 1.
  unfold getpassword. run_M. rewrite Hin.
  rewrite decide_False by lia.
  destruct repeat; cbn.
  - rewrite decide_False by (intros H; by apply H).
    by destruct (derive_key C pass salt SALT_SIZE KEY_SIZE _) as [[k|] w1].
  - by destruct (derive_key C pass salt SALT_SIZE KEY_SIZE _) as [[k|] w1].
Qed.

Lemma derive_key_some pass salt ss os w k w' :
  derive_key C pass salt ss os w = (Some k, w') →
  ∃ kb, sxi_derive_key C pass (slice salt 0 ss) = Some kb
        ∧ k = SHA512 C (list_byte_of_string kb).
Proof.
  unfold derive_key. destruct (sxi_derive_key C pass _) as [kb|]; [|done].
  case_decide; [done|]. intros [= <- <-]. by exists kb.
Qed.

(** With no key file the key is derived from the password and the salt
    of the locals, and the key file, when it exists afterwards, holds
    that key. *)
Lemma acquire_key_fresh cfgdir l mode w r w' :
  l_keyread l = false →
  files w !! String.append cfgdir "/key" = None →
  acquire_key C E cfgdir l mode w = (r, w') →
  (files w' !! String.append cfgdir "/key" = None
   ∨ ∃ k, r = Some (k, Some (String.append cfgdir "/key"))
          ∧ files w' !! String.append cfgdir "/key" = Some k)
  ∧ ∀ k kf pass rest,
      r = Some (k, kf) →
      inputs w = Some pass ::
        (if (if l_have_fp l then false
             else bool_decide (mode = SXF_MODE_UPLOAD))
         then Some pass :: rest else rest) →
      8 ≤ strlen pass →
      ∃ kb, sxi_derive_key C pass (slice (l_salt l) 0 SALT_SIZE) = Some kb
            ∧ k = SHA512 C (list_byte_of_string kb).
Proof.
  intros Hkr Hnone. unfold acquire_key. rewrite Hkr.
  destruct (fails E F_malloc_keyfile); run_M;
    [intros [= <- <-]; split; [by left|done]|].
  set (kf := String.append cfgdir "/key") in *. rewrite Hnone.
  set (pre := if fails E F_open_key_rdonly then _ else _).
  assert (Hpre : ∃ wc, pre w = (Some None, wc) ∧ files wc = files w
            ∧ inputs wc = inputs w).
  { unfold pre. destruct (fails E F_open_key_rdonly).
    { eexists. split; [reflexivity|done]. }
    destruct (l_have_fp l); eexists; (split; [reflexivity|done]). }
  destruct Hpre as (wc & -> & Hf & Hi). clear pre.
  destruct (getpassword_retry C _ mode (l_salt l) wc) as [[k|] w1] eqn:Hg.
  2: { apply getpassword_retry_spec in Hg as (G1 & G2 & G3).
       intros [= <- <-]. split; [left; by rewrite G1, Hf|done]. }
  pose proof Hg as Hg'.
  apply getpassword_retry_spec in Hg' as (G1 & G2 & G3).
  set (mid := if l_have_fp l then _ else _).
  assert (Hmid : ∃ rm wm, mid w1 = (rm, wm) ∧ files wm = files w).
  { unfold mid. destruct (l_have_fp l).
    - destruct (keyfp C E k (Some (l_fp l)) w1) as [[d|] w2] eqn:Hk;
        apply keyfp_spec in Hk as (K1 & K2 & K3);
        eexists _, _; (split; [reflexivity|]); cbn; congruence.
    - destruct (keyfp C E k None w1) as [[d|] w2] eqn:Hk;
        apply keyfp_spec in Hk as (K1 & K2 & K3);
        [destruct (fails E F_meta_setval)|];
        eexists _, _; (split; [reflexivity|]); cbn; congruence. }
  destruct Hmid as (rm & wm & -> & Hfm). clear mid.
  destruct rm as [[]|];
    [|intros [= <- <-]; split; [left; by rewrite Hfm|done]].
  destruct (persist_key_spec E kf k wm) as (wp & -> & P1 & P2 & P3 & P4).
  intros [= <- <-]. split.
  - destruct (fails E F_open_key_trunc);
      [left; destruct P4 as [-> _]; by rewrite Hfm|].
    destruct (fails E F_write_key); [left; apply P4|].
    destruct (fails E F_close_key); [left; apply P4|].
    right. exists k. split; [done|]. destruct P4 as [-> _].
    rewrite take_ge; [done|]. specialize (G3 k eq_refl).
    unfold blen in G3. lia.
  - intros k' kf' pass rest [= <- <-] Hin Hlen.
    rewrite <- Hi in Hin.
    rewrite (getpassword_retry_first _ mode (l_salt l) wc pass rest Hin Hlen)
      in Hg.
    destruct (derive_key C pass (l_salt l) SALT_SIZE KEY_SIZE _)
      as [[k'|] wd] eqn:Hd; [|done].
    injection Hg as -> ->. by apply derive_key_some in Hd.
Qed.

End Password.

(** ** The fingerprint file *)

Section Reconcile.
Context (E : env).

Lemma reconcile_custfp_other cfgdir (b : bytes) w :
  blen b ≠ SALT_SIZE + 1 →
  reconcile_custfp E cfgdir (Some b) w = (Some (Some b), w).
Proof.
  intros Hb. unfold reconcile_custfp. rewrite decide_False; [done|].
  intros [?|?]; done.
Qed.



Lemma reconcile_custfp_changed cfgdir cfgdata w (V1 V2 : bytes) :
  cfgdata = None ∨ blen (default [] cfgdata) = SALT_SIZE + 1 →
  meta w !! "aes256_fp" = Some V2 →
  files w !! String.append cfgdir "/custfp" = Some V1 →
  SALT_SIZE + FP_SIZE ≤ blen V1 →
  take (length V2) (take 96 V1) ≠ take (length V2) V2 →
  fails E F_malloc_fpfile = false → fails E F_open_custfp_rdonly = false →
  fails E F_read_custfp = false →
  ∃ wr,
    reconcile_custfp E cfgdir cfgdata w
    = (if fails E F_close_custfp then None else Some (Some V2), wr)
    ∧ files wr = delete (String.append cfgdir "/key")
                   (delete (String.append cfgdir "/custfp") (files w))
    ∧ meta wr = meta w ∧ inputs wr = inputs w
    ∧ (SX_LOG_NOTICE, "Detected volume password change") ∈ log wr.
Proof.
  intros Hc Hm Hf Hlen Hne F1 F2 F3. unfold reconcile_custfp.
  rewrite decide_True by done. run_M. rewrite Hm, F1. cbn.
  rewrite Hf. rewrite bool_decide_eq_true_2 by done. cbn.
  rewrite F2, F3. cbn. rewrite ?Hf. cbn.
  assert (Hl : blen (slice V1 0 (SALT_SIZE + FP_SIZE)) = SALT_SIZE + FP_SIZE).
  { unfold blen, slice. rewrite drop_0, length_take.
    unfold blen in *. unfold_consts. lia. }
  rewrite bool_decide_eq_false_2 by (intros H; by apply H). cbn.
  assert (Hd : memcmp_differs (slice V1 0 (SALT_SIZE + FP_SIZE)) V2 (blen V2)
               = true).
  { unfold memcmp_differs. apply bool_decide_eq_true_2.
    rewrite to_nat_blen. unfold slice. by rewrite drop_0. }
  rewrite Hd. cbn.
  destruct (fails E F_close_custfp); cbn; eexists; (split; [reflexivity|]);
    cbn; split_and!; try done; set_solver.
Qed.

End Reconcile.

(** ** What the steps log *)

Lemma quiet_refl w : quiet w w.
Proof. exists []. split; [unfold logged; by rewrite app_nil_r|set_solver]. Qed.

Lemma quiet_trans w1 w2 w3 : quiet w1 w2 → quiet w2 w3 → quiet w1 w3.
Proof.
  intros (l1 & H1 & N1) (l2 & H2 & N2). exists (l1 ++ l2). split.
  - unfold logged in *. by rewrite H2, H1, app_assoc.
  - rewrite elem_of_app. tauto.
Qed.

Lemma quiet_eq w w' : log w' = log w → quiet w w'.
Proof.
  intros H. exists []. split; [unfold logged; by rewrite app_nil_r|set_solver].
Qed.

Lemma quiet_msg w w' lvl msg :
  log w' = log w ++ [(lvl, msg)] → (lvl, msg) ≠ cfgerr → quiet w w'.
Proof.
  intros H Hne. exists [(lvl, msg)]. split; [done|].
  intros Hin. apply elem_of_cons in Hin as [Hin|Hin]; [congruence|].
  by apply elem_of_nil in Hin.
Qed.

Lemma quiet_intro w w' l :
  log w' = log w ++ l → Forall (λ e, e ≠ cfgerr) l → quiet w w'.
Proof.
  intros H Hl. exists l. split; [done|]. intros Hin.
  by apply (proj1 (Forall_forall _ _) Hl _ Hin).
Qed.

Ltac quiet_step :=
  first
    [ apply quiet_refl
    | apply quiet_eq; reflexivity
    | eapply quiet_intro;
      [ cbn; rewrite <- ?app_assoc; reflexivity
      | repeat (apply Forall_cons; split; [discriminate|]);
        apply Forall_nil_2 ] ].

Section Quiet.
Context (C : crypto) (E : env).

Lemma derive_key_quiet pass salt ss os w r w' :
  derive_key C pass salt ss os w = (r, w') → quiet w w'.
Proof.
  unfold derive_key. destruct (sxi_derive_key C pass _).
  - case_decide; intros [= <- <-]; quiet_step.
  - intros [= <- <-]. quiet_step.
Qed.

Lemma getpassword_quiet repeat mode salt w r w' :
  getpassword C repeat mode salt w = (r, w') → quiet w w'.
Proof.
  unfold getpassword. run_M.
  destruct (inputs w) as [|[pass1|] rest] eqn:Hin; cbn.
  - intros [= <- <-]. quiet_step.
  - case_decide.
    + intros [= <- <-]. quiet_step.
    + destruct repeat.
      * destruct rest as [|[pass2|] rest]; cbn.
        -- intros [= <- <-]. quiet_step.
        -- case_decide.
           ++ intros [= <- <-]. quiet_step.
           ++ destruct (derive_key C pass1 salt SALT_SIZE KEY_SIZE _)
                as [[k|] w1] eqn:Hd; intros [= <- <-];
                apply derive_key_quiet in Hd;
                (eapply quiet_trans; [|exact Hd]); quiet_step.
        -- intros [= <- <-]. quiet_step.
      * destruct (derive_key C pass1 salt SALT_SIZE KEY_SIZE _)
          as [[k|] w1] eqn:Hd; intros [= <- <-];
          apply derive_key_quiet in Hd;
          (eapply quiet_trans; [|exact Hd]); quiet_step.
  - intros [= <- <-]. quiet_step.
Qed.

Lemma getpassword_loop_quiet fuel repeat mode salt : ∀ w r w',
  getpassword_loop C fuel repeat mode salt w = (r, w') → quiet w w'.
Proof.
  induction fuel as [|fuel IH]; intros w r w'; cbn.
  - intros [= <- <-]. quiet_step.
  - unfold mbind, M_bind.
    destruct (getpassword C repeat mode salt w) as [[[k|]|] w1] eqn:Hg;
      apply getpassword_quiet in Hg.
    + by intros [= <- <-].
    + intros Hl. apply IH in Hl. by eapply quiet_trans.
    + by intros [= <- <-].
Qed.

Lemma getpassword_retry_quiet repeat mode salt w r w' :
  getpassword_retry C repeat mode salt w = (r, w') → quiet w w'.
Proof. apply getpassword_loop_quiet. Qed.

Lemma keyfp_quiet key cur w r w' :
  keyfp C E key cur w = (r, w') → quiet w w'.
Proof.
  unfold keyfp. unfold mbind, M_bind, or_error.
  destruct (derive_key C _ _ SALT_SIZE KEY_SIZE w) as [[d|] w1] eqn:Hd;
    apply derive_key_quiet in Hd.
  - destruct cur; [destruct (memcmp_differs _ _ _)|]; intros [= <- <-];
      try done.
    eapply quiet_trans; [exact Hd|]. quiet_step.
  - intros [= <- <-]. eapply quiet_trans; [exact Hd|]. quiet_step.
Qed.

Lemma persist_key_quiet keyfile key w r w' :
  persist_key E keyfile key w = (r, w') → quiet w w'.
Proof.
  unfold persist_key.
  destruct (fails E F_open_key_trunc); [|destruct (fails E F_write_key);
    [|destruct (fails E F_close_key)]]; run_M; intros [= <- <-]; quiet_step.
Qed.

Lemma init_contexts_quiet k kf mode w r w' :
  init_contexts E k kf mode w = (r, w') → quiet w w'.
Proof.
  unfold init_contexts.
  destruct (fails E F_calloc_ctx), (fails E F_hmac_init_ivhash),
    (fails E F_hmac_init_hmac), (fails E F_cipher_init),
    (decide (mode = SXF_MODE_UPLOAD)); intros [= <- <-]; quiet_step.
Qed.

Lemma reconcile_custfp_quiet cfgdir cfgdata w r w' :
  reconcile_custfp E cfgdir cfgdata w = (r, w') → quiet w w'.
Proof.
  unfold reconcile_custfp. case_decide; [|intros [= <- <-]; quiet_step].
  run_M. destruct (meta w !! "aes256_fp") as [v|];
    [|intros [= <- <-]; quiet_step].
  repeat first
    [ match goal with
      | |- context [fails E ?f] => destruct (fails E f)
      | |- context [bool_decide ?P] => destruct (bool_decide P)
      | |- context [memcmp_differs ?a ?b ?c] =>
          destruct (memcmp_differs a b c)
      end
    | progress cbn ];
    intros [= <- <-]; quiet_step.
Qed.

Lemma reconcile_custfp_effective cfgdir cfgdata w c w' :
  reconcile_custfp E cfgdir cfgdata w = (Some c, w') →
  c = effective_blob cfgdata w.
Proof.
  unfold reconcile_custfp, effective_blob.
  case_decide; [|by intros [= <- <-]].
  run_M. destruct (meta w !! "aes256_fp") as [v|];
    [|by intros [= <- <-]].
  repeat first
    [ match goal with
      | |- context [fails E ?f] => destruct (fails E f)
      | |- context [bool_decide ?P] => destruct (bool_decide P)
      | |- context [memcmp_differs ?a ?b ?c] =>
          destruct (memcmp_differs a b c)
      end
    | progress cbn ];
    by intros [= <- <-].
Qed.

Lemma acquire_key_quiet cfgdir l mode w r w' :
  acquire_key C E cfgdir l mode w = (r, w') → quiet w w'.
Proof.
  unfold acquire_key. destruct (l_keyread l).
  { intros [= <- <-]. quiet_step. }
  destruct (fails E F_malloc_keyfile); run_M;
    [intros [= <- <-]; quiet_step|].
  set (kf := String.append cfgdir "/key").
  set (pre := if fails E F_open_key_rdonly then _ else _).
  assert (Hpre : ∃ c wc, pre w = (Some c, wc) ∧ quiet w wc).
  { unfold pre. destruct (fails E F_open_key_rdonly).
    { eexists _, _. split; [reflexivity|quiet_step]. }
    destruct (files w !! kf) as [data|].
    - destruct (fails E F_read_key || bool_decide (blen data < KEY_SIZE));
        eexists _, _; (split; [reflexivity|quiet_step]).
    - destruct (l_have_fp l); eexists _, _; (split; [reflexivity|quiet_step]).
  }
  destruct Hpre as (c & wc & -> & Hq). clear pre.
  destruct c as [k|]; [by intros [= <- <-]|].
  destruct (getpassword_retry C _ mode (l_salt l) wc) as [[k|] w1] eqn:Hg;
    apply getpassword_retry_quiet in Hg;
    [|intros [= <- <-]; by eapply quiet_trans].
  set (mid := if l_have_fp l then _ else _).
  assert (Hmid : ∃ rm wm, mid w1 = (rm, wm) ∧ quiet w1 wm).
  { unfold mid. destruct (l_have_fp l).
    - destruct (keyfp C E k (Some (l_fp l)) w1) as [[d|] w2] eqn:Hk;
        apply keyfp_quiet in Hk;
        eexists _, _; (split; [reflexivity|]); done.
    - destruct (keyfp C E k None w1) as [[d|] w2] eqn:Hk;
        apply keyfp_quiet in Hk;
        [destruct (fails E F_meta_setval)|];
        eexists _, _; (split; [reflexivity|]); try done;
        (eapply quiet_trans; [exact Hk|]); quiet_step. }
  destruct Hmid as (rm & wm & -> & Hqm). clear mid.
  assert (Hq1 : quiet w wm).
  { eapply quiet_trans; [exact Hq|]. eapply quiet_trans; [exact Hg|done]. }
  destruct rm as [[]|]; [|by intros [= <- <-]].
  destruct (persist_key E kf k wm) as [[[]|] wp] eqn:Hp;
    apply persist_key_quiet in Hp; intros [= <- <-];
    by eapply quiet_trans.
Qed.

End Quiet.


Section BlobLength.
Context (C : crypto) (E : env).

Lemma dispatch_blob_bad filename (b : bytes) mode w :
  bad_length b →
  dispatch_blob C E filename (Some b) mode w
  = (None, set_log (log w ++ [cfgerr]) w).
Proof.
  intros (H16 & H17 & H96). unfold dispatch_blob.
  rewrite !decide_False by (unfold_consts; lia). reflexivity.
Qed.

Lemma dispatch_blob_quiet filename c mode w r w' :
  (∀ b, c = Some b → ¬ bad_length b) →
  dispatch_blob C E filename c mode w = (r, w') → quiet w w'.
Proof.
  intros Hgood. unfold dispatch_blob.
  destruct c as [b|]; [|intros [= <- <-]; quiet_step].
  cbv zeta. destruct (decide (blen b = SALT_SIZE)).
  { unfold mbind, M_bind, NOTICE, sxc_filter_msg.
    match goal with
    | |- context [getpassword_retry ?a ?b ?c ?d ?e] =>
        destruct (getpassword_retry a b c d e) as [[k|] w1] eqn:Hg
    end; apply getpassword_retry_quiet in Hg; intros [= <- <-];
      (eapply quiet_trans; [|exact Hg]); quiet_step. }
  destruct (decide (blen b = SALT_SIZE + 1)).
  { intros [= <- <-]. quiet_step. }
  destruct (decide (blen b = SALT_SIZE + FP_SIZE)).
  { intros [= <- <-]. quiet_step. }
  exfalso. apply (Hgood b eq_refl). unfold bad_length.
  revert n n0 n1. unfold_consts. lia.
Qed.

Lemma prepare_steps_quiet filename cfgdir c mode w r w' :
  (∀ b, c = Some b → ¬ bad_length b) →
  (l ← dispatch_blob C E filename c mode;
   '(key, keyfile) ← acquire_key C E cfgdir l mode;
   init_contexts E key keyfile mode) w = (r, w') →
  quiet w w'.
Proof.
  intros Hgood. unfold mbind, M_bind.
  destruct (dispatch_blob C E filename c mode w) as [[l|] wd] eqn:Hd;
    apply dispatch_blob_quiet in Hd; try done;
    [|by intros [= <- <-]].
  destruct (acquire_key C E cfgdir l mode wd) as [[[k kf]|] wa] eqn:Ha;
    apply acquire_key_quiet in Ha;
    [|intros [= <- <-]; by eapply quiet_trans].
  intros Hi. apply init_contexts_quiet in Hi.
  eapply quiet_trans; [exact Hd|]. by eapply quiet_trans.
Qed.

End BlobLength.


(** ** The claims about [aes256_data_prepare] *)

(** C6, the claim as the spec words it, refuted on a run: the host's
    blob has 17 bytes, one of the three lengths, and the metadata holds
    a value of 50 bytes under [aes256_fp].  [prepare] fails, and what
    it logs is the configuration error. *)
Lemma nogenkey_blob_rejected_example :
  blen ex_blob17 = 17
  ∧ meta ex_world_badfp !! "aes256_fp" = Some (zeros 50)
  ∧ fst ex_badfp_run = None
  ∧ log (snd ex_badfp_run) = [cfgerr].
Proof. vm_compute. by split_and!. Qed.

(** C6, as the code has it.  The lengths 16, 17 and 96 are those of the
    blob the code reads, which is the host's blob unless that is absent
    or has 17 bytes and the metadata holds [aes256_fp]: then it is the
    metadata value.  [prepare] logs the configuration error only when
    that blob is there and its length is none of the three; and when it
    is so, [prepare] fails, with the configuration error as the last
    message as soon as the fingerprint-file step has gone through.  A
    host blob of any other length than 16, 17 and 96 is always refused
    at once, with nothing else changed. *)
Theorem blob_length_dispatch (C : crypto) (E : env) (filename cfgdir : string)
    (cfgdata : option bytes) (mode : sxf_mode_t) (w : world) :
  version_ok E →
  ∃ r w' l,
    aes256_data_prepare C E filename cfgdir cfgdata mode w = (r, w')
    ∧ log w' = log w ++ l
    ∧ (cfgerr ∈ l →
       ∃ b, effective_blob cfgdata w = Some b ∧ bad_length b)
    ∧ (∀ b, effective_blob cfgdata w = Some b → bad_length b →
         r = None
         ∧ ∀ c w1, reconcile_custfp E cfgdir cfgdata w = (Some c, w1) →
                   w' = set_log (log w1 ++ [cfgerr]) w1)
    ∧ (∀ b, cfgdata = Some b → bad_length b →
         r = None ∧ w' = set_log (log w ++ [cfgerr]) w).
Proof.
  intros Hv. unfold aes256_data_prepare.
  rewrite decide_False by (intros H; by apply H).
  unfold mbind at 1, M_bind at 1.
  destruct (reconcile_custfp E cfgdir cfgdata w) as [[c|] w1] eqn:Hr.
  - pose proof (reconcile_custfp_effective E _ _ _ _ _ Hr) as Hc.
    pose proof (reconcile_custfp_quiet E _ _ _ _ _ Hr) as (l1 & Hl1 & Hn1).
    assert (Hdec : (∃ b, c = Some b ∧ bad_length b)
                   ∨ ¬ ∃ b, c = Some b ∧ bad_length b).
    { destruct c as [b|]; [|right; by intros (b & ? & _)].
      destruct (decide (bad_length b)); [left; by exists b|].
      right. by intros (b' & [= <-] & ?). }
    destruct Hdec as [(b & -> & Hb)|Hg].
    + unfold mbind, M_bind. rewrite (dispatch_blob_bad C E filename b mode w1 Hb).
      eexists _, _, (l1 ++ [cfgerr]). split; [reflexivity|].
      split_and!.
      * cbn. unfold logged in Hl1. by rewrite Hl1, app_assoc.
      * intros _. exists b. by rewrite <- Hc.
      * intros b' Hb' _. split; [done|]. by intros c w2 [= <- <-].
      * intros b' -> Hb'. split; [done|].
        rewrite reconcile_custfp_other in Hr
          by (destruct Hb' as (? & ? & ?); unfold_consts; lia).
        by injection Hr as <- <-.
    + destruct ((l ← dispatch_blob C E filename c mode;
                 '(key, keyfile) ← acquire_key C E cfgdir l mode;
                 init_contexts E key keyfile mode) w1) as [r w'] eqn:Hrest.
      pose proof (prepare_steps_quiet C E filename cfgdir c mode w1 r w'
                    ltac:(naive_solver) Hrest) as (l2 & Hl2 & Hn2).
      exists r, w', (l1 ++ l2). split; [reflexivity|]. split_and!.
      * unfold logged in *. by rewrite Hl2, Hl1, app_assoc.
      * rewrite elem_of_app. tauto.
      * intros b Hb Hbad. exfalso. apply Hg. exists b. by rewrite Hc.
      * intros b -> Hbad. exfalso. apply Hg. exists b. split; [|done].
        rewrite reconcile_custfp_other in Hr
          by (destruct Hbad as (? & ? & ?); unfold_consts; lia).
        by injection Hr as <- <-.
  - pose proof (reconcile_custfp_quiet E _ _ _ _ _ Hr) as (l1 & Hl1 & Hn1).
    exists None, w1, l1. split; [reflexivity|]. split_and!; try done.
    intros b -> Hbad.
    rewrite reconcile_custfp_other in Hr
      by (destruct Hbad as (? & ? & ?); unfold_consts; lia).
    done.
Qed.


(** C8. Writing the key file never fails the call: whatever fails of
    opening, writing and closing it, the step ends normally with one
    warning in the log, and the file is left as it was (open failed) or
    removed (write or close failed).  [prepare] returns what it returns
    when none of the three fails, with the same metadata and the same
    password prompts used; only the key file and the log can differ. *)
Theorem key_cache_failure_not_fatal (C : crypto) (E : env)
    (filename cfgdir : string) (cfgdata : option bytes) (mode : sxf_mode_t)
    (k : bytes) (w : world) :
  let keyfile := String.append cfgdir "/key" in
  (∃ w', persist_key E keyfile k w = (Some (), w')
     ∧ meta w' = meta w ∧ inputs w' = inputs w
     ∧ (∀ q, q ≠ keyfile → files w' !! q = files w !! q)
     ∧ (if fails E F_open_key_trunc then
          files w' = files w
          ∧ log w' = log w ++ [(SX_LOG_WARNING,
              "Can't open file %s for writing -- continuing without key file")]
        else if fails E F_write_key then
          files w' !! keyfile = None
          ∧ log w' = log w ++ [(SX_LOG_WARNING,
              "Can't write key data to file %s -- continuing without key file")]
        else if fails E F_close_key then
          files w' !! keyfile = None
          ∧ log w' = log w ++ [(SX_LOG_WARNING,
              "Can't close file %s -- continuing without key file")]
        else
          files w' !! keyfile = Some (take (Z.to_nat KEY_SIZE) k)
          ∧ log w' = log w))
  ∧ ∃ r w1 w0,
      aes256_data_prepare C E filename cfgdir cfgdata mode w = (r, w1)
      ∧ aes256_data_prepare C (no_key_cache_faults E) filename cfgdir
          cfgdata mode w = (r, w0)
      ∧ meta w1 = meta w0 ∧ inputs w1 = inputs w0
      ∧ ∀ q, q ≠ keyfile → files w1 !! q = files w0 !! q.
Proof.
  intros keyfile. split; [apply persist_key_spec|apply prepare_faults].
Qed.


(** C4, the claim as the spec words it, refuted on a run: [custfp]
    holds [ex_fp1], the metadata holds the other fingerprint [ex_fp2],
    the blob is absent and the password is right.  [prepare] succeeds;
    afterwards there is no file [custfp], and the key file exists and
    holds the key of the session. *)
Lemma password_change_example :
  files ex_world_changed !! "cfg/custfp" = Some ex_fp1
  ∧ meta ex_world_changed !! "aes256_fp" = Some ex_fp2
  ∧ ex_fp2 ≠ ex_fp1
  ∧ files (snd ex_changed_run) !! "cfg/custfp" = None
  ∧ ∃ a, fst ex_changed_run = Some a
         ∧ files (snd ex_changed_run) !! "cfg/key" = Some (key a).
Proof.
  split_and!; try (vm_compute; reflexivity).
  - vm_compute. discriminate.
  - vm_compute. eexists. split; reflexivity.
Qed.

(** C4, as the code has it.  When [custfp] exists and its first 96
    bytes differ from the metadata value [V2] (compared over the length
    of [V2]), [prepare] logs the password change and unlinks both
    [custfp] and the key file; [V2] becomes the blob.  It does not
    create [custfp] again: when [prepare] returns, whatever it returns,
    [custfp] does not exist.  The key file is then absent, or has been
    written again by the same call and holds the key of the session. *)
Theorem password_change_unlinks (C : crypto) (E : env)
    (filename cfgdir : string) (cfgdata : option bytes) (mode : sxf_mode_t)
    (w : world) (V1 V2 : bytes) :
  let custfp := String.append cfgdir "/custfp" in
  let keyfile := String.append cfgdir "/key" in
  version_ok E →
  cfgdata = None ∨ blen (default [] cfgdata) = 17 →
  meta w !! "aes256_fp" = Some V2 →
  files w !! custfp = Some V1 → 96 ≤ blen V1 →
  take (length V2) (take 96 V1) ≠ take (length V2) V2 →
  fails E F_malloc_fpfile = false → fails E F_open_custfp_rdonly = false →
  fails E F_read_custfp = false →
  (∃ wr,
     reconcile_custfp E cfgdir cfgdata w
     = (if fails E F_close_custfp then None else Some (Some V2), wr)
     ∧ files wr = delete keyfile (delete custfp (files w))
     ∧ meta wr = meta w
     ∧ (SX_LOG_NOTICE, "Detected volume password change") ∈ log wr)
  ∧ ∃ r wf,
      aes256_data_prepare C E filename cfgdir cfgdata mode w = (r, wf)
      ∧ files wf !! custfp = None
      ∧ (files wf !! keyfile = None
         ∨ ∃ k, files wf !! keyfile = Some k ∧ ∀ a, r = Some a → key a = k).
Proof.
  intros custfp keyfile Hv Hc Hm Hf Hlen Hne F1 F2 F3.
  destruct (reconcile_custfp_changed E cfgdir cfgdata w V1 V2)
    as (wr & Hr & R1 & R2 & R3 & R4); try done.
  fold custfp keyfile in R1.
  assert (Hcust : files wr !! custfp = None).
  { rewrite R1, lookup_delete_ne
      by apply not_eq_sym, custfp_not_key.
    by rewrite lookup_delete_eq. }
  assert (Hkey : files wr !! keyfile = None).
  { by rewrite R1, lookup_delete_eq. }
  split; [by exists wr|].
  unfold aes256_data_prepare. rewrite decide_False by (intros H; by apply H).
  unfold mbind, M_bind. rewrite Hr.
  destruct (fails E F_close_custfp).
  { eexists _, _. split; [reflexivity|]. split; [done|by left]. }
  destruct (dispatch_blob C E filename (Some V2) mode wr) as [[l|] wd] eqn:Hd;
    apply dispatch_blob_spec in Hd as (D1 & D2).
  2: { eexists _, _. split; [reflexivity|]. rewrite D1. split; [done|by left]. }
  destruct (acquire_key C E cfgdir l mode wd) as [ra wa] eqn:Ha.
  pose proof (acquire_key_spec C E cfgdir l mode wd _ _ Ha) as [A1 A2].
  assert (Hca : files wa !! custfp = None).
  { rewrite A1 by apply custfp_not_key. by rewrite D1. }
  destruct ra as [[k kf]|].
  2: { eexists _, _. split; [reflexivity|]. split; [done|].
       destruct (l_keyread l) eqn:Hkr.
       - unfold acquire_key in Ha. rewrite Hkr in Ha. done.
       - destruct (acquire_key_fresh C E cfgdir l mode wd _ _ Hkr
                     ltac:(by rewrite D1) Ha) as [[?|(? & ? & _)] _];
           [by left|done]. }
  destruct (init_contexts_spec E k kf mode) as (r & Hi).
  destruct (Hi wa) as (wf & Hwf & I1 & _).
  exists r, wf. split; [done|]. rewrite I1. split; [done|].
  destruct (l_keyread l) eqn:Hkr.
  - unfold acquire_key in Ha. rewrite Hkr in Ha. injection Ha as <- <- <-.
    left. by rewrite D1.
  - destruct (acquire_key_fresh C E cfgdir l mode wd _ _ Hkr
                ltac:(by rewrite D1) Ha) as [[?|(k' & [= <- ->] & Hk')] _];
      [by left|].
    right. exists k. split; [done|]. intros a ->.
    apply init_contexts_some in Hwf as [-> _].
    apply key_prepared_ctx. by apply (A2 k (Some keyfile)).
Qed.

(** Witness of C6: a blob of 17 bytes on a volume with no metadata is
    taken without a configuration error, and a blob of 20 bytes is
    refused. *)
Lemma blob_length_dispatch_witness :
  (∃ r w' l,
     aes256_data_prepare toy ex_env "file" "cfg" (Some ex_blob17)
       SXF_MODE_UPLOAD ex_world = (r, w')
     ∧ is_Some r ∧ log w' = log ex_world ++ l ∧ cfgerr ∉ l)
  ∧ aes256_data_prepare toy ex_env "file" "cfg" (Some (zeros 20))
      SXF_MODE_UPLOAD ex_world
    = (None, set_log (log ex_world ++ [cfgerr]) ex_world).
Proof.
  split.
  - destruct (blob_length_dispatch toy ex_env "file" "cfg" (Some ex_blob17)
                SXF_MODE_UPLOAD ex_world) as (r & w' & l & H1 & H2 & H3 & _);
      [reflexivity|].
    exists r, w', l. split_and!; [exact H1| |exact H2|].
    + replace r with (fst (aes256_data_prepare toy ex_env "file" "cfg"
                             (Some ex_blob17) SXF_MODE_UPLOAD ex_world))
        by (by rewrite H1).
      vm_compute. eexists. reflexivity.
    + intros Hin. destruct (H3 Hin) as (b & Hb & _ & H17 & _).
      vm_compute in Hb. injection Hb as <-. apply H17. reflexivity.
  - destruct (blob_length_dispatch toy ex_env "file" "cfg" (Some (zeros 20))
                SXF_MODE_UPLOAD ex_world) as (r & w' & l & H1 & _ & _ & _ & H5);
      [reflexivity|].
    destruct (H5 (zeros 20) eq_refl) as [-> ->]; [|exact H1].
    split_and!; vm_compute; discriminate.
Defined.


(** Witness of C4: the run of the example. *)
Lemma password_change_unlinks_witness :
  ∃ r wf,
    aes256_data_prepare toy ex_env "file" "cfg" None SXF_MODE_DOWNLOAD
      ex_world_changed = (r, wf)
    ∧ files wf !! "cfg/custfp" = None
    ∧ (files wf !! "cfg/key" = None
       ∨ ∃ k, files wf !! "cfg/key" = Some k ∧ ∀ a, r = Some a → key a = k).
Proof.
  destruct (password_change_unlinks toy ex_env "file" "cfg" None
              SXF_MODE_DOWNLOAD ex_world_changed ex_fp1 ex_fp2)
    as [_ H].
  - reflexivity.
  - by left.
  - vm_compute. reflexivity.
  - vm_compute. reflexivity.
  - vm_compute. discriminate.
  - apply (bool_decide_unpack _). vm_compute. exact I.
  - reflexivity.
  - reflexivity.
  - reflexivity.
  - exact H.
Defined.

(** ** Further properties of [aes256_data_process] *)

Lemma length_slice_le (b : bytes) off n : 0 ≤ n → blen (slice b off n) ≤ n.
Proof. intros. unfold blen, slice. rewrite length_take. lia. Qed.

Lemma u32_nonneg x : 0 ≤ u32 x.
Proof. unfold u32. apply Z.mod_pos_bound. lia. Qed.

Ltac frame_done :=
  split_and!; try done; try congruence; try (left; congruence);
  try (by right); try (intros _; split; congruence); try (intros ?; done).

Section ProcessExtras.
Context (C : crypto).

Lemma encrypt_block_blkbytes a a' :
  encrypt_block C a = BlockOk a' → 0 ≤ blkbytes a'.
Proof.
  unfold encrypt_block. cbn. repeat case_decide; try done.
  intros [= <-]. cbn. apply u32_nonneg.
Qed.

Lemma decrypt_block_blkbytes a a' :
  decrypt_block C a = BlockOk a' → 0 ≤ blkbytes a'.
Proof.
  unfold decrypt_block. cbn. repeat case_decide; try done.
  match goal with
  | |- context [match ?x with Some _ => _ | None => _ end] => destruct x
  end; [|done].
  intros [= <-]. cbn. apply u32_nonneg.
Qed.

(** X1. The output never exceeds the caller's buffer. *)
Theorem process_respects_outsize (a : aes256_ctx) (in_buf : bytes)
    (insize outsize : Z) (mode : sxf_mode_t) (action : sxf_action_t) :
  0 ≤ outsize → 0 ≤ data_out_left a →
  let r := aes256_data_process C a in_buf insize outsize mode action in
  -1 ≤ p_ret r ≤ outsize ∧ blen (p_out r) ≤ outsize
  ∧ (p_ret r = -1 → p_out r = []).
Proof.
  intros Ho Hl r. unfold r, aes256_data_process.
  case_decide as Hd.
  { destruct Hd as [_ Hd]. case_decide; cbn.
    - split_and!; [lia|lia|by apply length_slice_le|lia].
    - case_decide; cbn;
        (split_and!; [lia|lia| |lia]);
        (etransitivity; [apply length_slice_le|]; lia). }
  set (a1 := ingest _ _ _ _ _). clearbody a1.
  case_decide; [|cbn; split_and!; [lia|lia|done|done]].
  assert (Hb : ∀ a', (if decide (mode = SXF_MODE_UPLOAD)
                      then encrypt_block C a1 else decrypt_block C a1)
                     = BlockOk a' → 0 ≤ blkbytes a').
  { intros a'. case_decide;
      [apply encrypt_block_blkbytes|apply decrypt_block_blkbytes]. }
  destruct (if decide (mode = SXF_MODE_UPLOAD) then _ else _)
    as [a'|msg a']; [|cbn; split_and!; [lia|lia|done|done]].
  specialize (Hb a' eq_refl). cbn.
  case_decide; cbn.
  - split_and!; [lia|lia|by apply length_slice_le|lia].
  - case_decide; cbn;
      (split_and!; [lia|lia| |lia]);
      (etransitivity; [apply length_slice_le|]; lia).
Qed.

(** X2. Pending output larger than the buffer: the call fills the buffer,
    keeps the rest, and reads nothing. *)
Theorem drain_partial (a : aes256_ctx) (in_buf : bytes)
    (insize outsize : Z) (mode : sxf_mode_t) :
  0 ≤ outsize < data_out_left a → data_out_left a < 4294967296 →
  let r := aes256_data_process C a in_buf insize outsize mode
             SXF_ACTION_REPEAT in
  p_ret r = outsize
  ∧ p_out r = slice (blk a) (u32 (blkbytes a - data_out_left a)) outsize
  ∧ p_action r = SXF_ACTION_REPEAT
  ∧ data_out_left (p_ctx r) = data_out_left a - outsize
  ∧ blkbytes (p_ctx r) = blkbytes a ∧ blk (p_ctx r) = blk a
  ∧ inbytes (p_ctx r) = inbytes a ∧ in_ (p_ctx r) = in_ a
  ∧ data_in (p_ctx r) = data_in a.
Proof.
  intros Ho Hl r. unfold r, aes256_data_process.
  rewrite (decide_True (P := SXF_ACTION_REPEAT = SXF_ACTION_REPEAT ∧ _))
    by (split; [done|lia]).
  rewrite decide_True by lia. cbn.
  split_and!; try done. apply u32_small. lia.
Qed.

(** X3. A call with nothing staged, nothing pending and no input gives no
    output, in both directions, also at the end of the data: an empty
    stream has an empty image. *)
Theorem process_empty_input (a : aes256_ctx) (in_buf : bytes)
    (outsize : Z) (mode : sxf_mode_t) (action : sxf_action_t) :
  inbytes a = 0 → data_in a = 0 → data_out_left a = 0 →
  let r := aes256_data_process C a in_buf 0 outsize mode action in
  p_ret r = 0 ∧ p_out r = [] ∧ p_action r = SXF_ACTION_NORMAL
  ∧ inbytes (p_ctx r) = 0 ∧ data_in (p_ctx r) = 0
  ∧ ivmac (p_ctx r) = ivmac a ∧ decrypt_err (p_ctx r) = decrypt_err a.
Proof.
  intros Hi Hd Hl r. unfold r, aes256_data_process.
  rewrite decide_False by (intros [_ ?]; done).
  assert (Hing : inbytes (ingest a in_buf 0 mode action) = 0
                 ∧ ivmac (ingest a in_buf 0 mode action) = ivmac a
                 ∧ decrypt_err (ingest a in_buf 0 mode action)
                   = decrypt_err a).
  { unfold ingest.
    destruct (decide (action = SXF_ACTION_DATA_END)); cbn;
      rewrite Hi, Hd; pose proof (bsize_of_range mode);
      rewrite (usize_small (0 - 0)) by lia;
      rewrite (u32_small (bsize_of mode - 0)) by lia;
      rewrite decide_False by lia; cbn; rewrite ?Hi; done. }
  destruct Hing as (H1 & H2 & H3).
  rewrite decide_False.
  2: { unfold block_due. rewrite H1. pose proof (bsize_of_range mode).
       intros [?|[? _]]; [lia|done]. }
  cbn. done.
Qed.

(** X4. On download a staged block shorter than an IV and a tag is refused
    as incomplete; this failure does not set [decrypt_err]. *)
Theorem download_incomplete_block (a0 : aes256_ctx) (in_buf : bytes)
    (insize outsize : Z) (action : sxf_action_t) :
  let a := ingest a0 in_buf insize SXF_MODE_DOWNLOAD action in
  ¬ (action = SXF_ACTION_REPEAT ∧ data_out_left a0 ≠ 0) →
  block_due a SXF_MODE_DOWNLOAD action →
  inbytes a < IV_SIZE + MAC_SIZE →
  let r := aes256_data_process C a0 in_buf insize outsize SXF_MODE_DOWNLOAD
             action in
  p_ret r = -1 ∧ p_out r = []
  ∧ p_log r = [(SX_LOG_ERR, "Incomplete data: %d bytes")]
  ∧ decrypt_err (p_ctx r) = decrypt_err a0
  ∧ blk (p_ctx r) = blk a0 ∧ dctx (p_ctx r) = dctx a0.
Proof.
  intros a Hnd Hdue Hn r.
  assert (Hframe : blk a = blk a0 ∧ dctx a = dctx a0
                   ∧ decrypt_err a = decrypt_err a0).
  { unfold a, ingest. by destruct (decide (action = SXF_ACTION_DATA_END)). }
  destruct Hframe as (F1 & F2 & F3).
  unfold r, aes256_data_process. rewrite decide_False by done.
  fold a. rewrite decide_True by done. rewrite decide_False by done.
  clearbody a. unfold decrypt_block. cbn. rewrite decide_True by done.
  cbn. done.
Qed.

Lemma encrypt_block_frame a :
  ∃ a', (∃ msg, encrypt_block C a = BlockErr msg a'
         ∨ encrypt_block C a = BlockOk a')
    ∧ key a' = key a ∧ keyfile a' = keyfile a
    ∧ hm_key (ivhash a') = hm_key (ivhash a)
    ∧ hm_key (hmac a') = hm_key (hmac a)
    ∧ ci_key (ectx a') = ci_key (ectx a)
    ∧ dctx a' = dctx a ∧ decrypt_err a' = decrypt_err a.
Proof.
  unfold encrypt_block. cbn.
  case_decide.
  { eexists. split; [exists "Wrong digest size: %d"; left; reflexivity|].
    done. }
  case_decide.
  - eexists. split; [exists "Bad MAC size: %d"; left; reflexivity|]. done.
  - eexists. split; [exists ""; right; reflexivity|]. done.
Qed.

Lemma decrypt_block_frame a :
  ∃ a', (∃ msg, decrypt_block C a = BlockErr msg a'
         ∨ decrypt_block C a = BlockOk a')
    ∧ key a' = key a ∧ keyfile a' = keyfile a
    ∧ hm_key (ivhash a') = hm_key (ivhash a)
    ∧ hm_key (hmac a') = hm_key (hmac a)
    ∧ ci_key (dctx a') = ci_key (dctx a)
    ∧ ectx a' = ectx a ∧ ivmac a' = ivmac a
    ∧ (decrypt_err a' = decrypt_err a ∨ decrypt_err a' = 1).
Proof.
  unfold decrypt_block. cbv zeta.
  case_decide.
  { eexists. split; [exists "Incomplete data: %d bytes"; left; reflexivity|].
    cbn. split_and!; try done. by left. }
  case_decide.
  { eexists. split; [exists "Bad HMAC size: %d bytes"; left; reflexivity|].
    cbn. split_and!; try done. by left. }
  case_decide.
  { eexists. split; [eexists; left; reflexivity|].
    cbn. split_and!; try done. by right. }
  unfold EVP_DecryptUpdate.
  match goal with
  | |- context [match ?x with Some _ => _ | None => _ end] => destruct x
  end.
  - eexists. split; [exists ""; right; reflexivity|].
    cbn. split_and!; try done. by left.
  - eexists. split; [eexists; left; reflexivity|].
    cbn. split_and!; try done. by right.
Qed.

(** X5. [process] never clears [decrypt_err], never sets it on upload, and
    never changes the key material or the name of the key file. *)
Theorem process_frame (a : aes256_ctx) (in_buf : bytes)
    (insize outsize : Z) (mode : sxf_mode_t) (action : sxf_action_t) :
  let r := aes256_data_process C a in_buf insize outsize mode action in
  key (p_ctx r) = key a ∧ keyfile (p_ctx r) = keyfile a
  ∧ hm_key (ivhash (p_ctx r)) = hm_key (ivhash a)
  ∧ hm_key (hmac (p_ctx r)) = hm_key (hmac a)
  ∧ ci_key (ectx (p_ctx r)) = ci_key (ectx a)
  ∧ ci_key (dctx (p_ctx r)) = ci_key (dctx a)
  ∧ (decrypt_err (p_ctx r) = decrypt_err a ∨ decrypt_err (p_ctx r) = 1)
  ∧ (mode = SXF_MODE_UPLOAD →
     decrypt_err (p_ctx r) = decrypt_err a ∧ dctx (p_ctx r) = dctx a)
  ∧ (mode = SXF_MODE_DOWNLOAD →
     ectx (p_ctx r) = ectx a ∧ ivmac (p_ctx r) = ivmac a).
Proof.
  intros r. unfold r, aes256_data_process.
  case_decide.
  { repeat case_decide; cbn; frame_done. }
  assert (Hi : ∀ a1, a1 = ingest a in_buf insize mode action →
            key a1 = key a ∧ keyfile a1 = keyfile a
            ∧ ivhash a1 = ivhash a ∧ hmac a1 = hmac a
            ∧ ectx a1 = ectx a ∧ dctx a1 = dctx a
            ∧ decrypt_err a1 = decrypt_err a ∧ ivmac a1 = ivmac a).
  { intros a1 ->. unfold ingest.
    by destruct (decide (action = SXF_ACTION_DATA_END)). }
  specialize (Hi _ eq_refl).
  set (a1 := ingest _ _ _ _ _) in *. clearbody a1.
  destruct Hi as (I1 & I2 & I3 & I4 & I5 & I6 & I7 & I8).
  rewrite <- I1, <- I2, <- I3, <- I4, <- I5, <- I6, <- I7, <- I8.
  clear I1 I2 I3 I4 I5 I6 I7 I8.
  case_decide; [|cbn; frame_done].
  destruct (decide (mode = SXF_MODE_UPLOAD)) as [->|Hm].
  - destruct (encrypt_block_frame a1)
      as (a' & [msg [->| ->]] & E1 & E2 & E3 & E4 & E5 & E6 & E7);
      [cbn; frame_done|].
    cbn. repeat case_decide; cbn; frame_done.
  - assert (mode = SXF_MODE_DOWNLOAD) as -> by (by destruct mode).
    destruct (decrypt_block_frame a1)
      as (a' & [msg [->| ->]] & E1 & E2 & E3 & E4 & E5 & E6 & E7 & E8);
      [cbn; frame_done|].
    cbn. repeat case_decide; cbn; frame_done.
Qed.

End ProcessExtras.

(** ** Further properties of the password prompt *)

Section PasswordExtras.
Context (C : crypto).

(** X8. A password that is too short, or is not repeated as typed, is
    answered by a warning and a new prompt; the answers are used up and
    no key is derived.  An answer that cannot be had ends the call. *)
Theorem getpassword_asks_again (repeat : bool) (mode : sxf_mode_t)
    (salt : bytes) (w : world) :
  (∀ pass rest, inputs w = Some pass :: rest → strlen pass < 8 →
     getpassword C repeat mode salt w
     = (Some PwAgain,
        set_log (log w ++ [(SX_LOG_WARNING,
          "[aes256]: ERROR: Password must be at least 8 characters long\n")])
          (set_inputs rest w)))
  ∧ (∀ pass1 pass2 rest,
       inputs w = Some pass1 :: Some pass2 :: rest → 8 ≤ strlen pass1 →
       pass1 ≠ pass2 → repeat = true →
       getpassword C repeat mode salt w
       = (Some PwAgain,
          set_log (log w ++ [(SX_LOG_WARNING,
            "[aes256]: ERROR: Passwords don't match\n")])
            (set_inputs rest (set_inputs (Some pass2 :: rest) w))))
  ∧ (∀ rest, inputs w = None :: rest → 
       fst (getpassword C repeat mode salt w) = None).
Proof.
  split_and!.
  - intros pass rest Hin Hlen. unfold getpassword. run_M. rewrite Hin.
    by rewrite decide_True.
  - intros pass1 pass2 rest Hin Hlen Hne ->. unfold getpassword. run_M.
    rewrite Hin. rewrite decide_False by lia. cbn.
    by rewrite decide_True.
  - intros rest Hin. unfold getpassword. run_M. by rewrite Hin.
Qed.

Lemma getpassword_loop_fuel (repeat : bool) (mode : sxf_mode_t)
    (salt : bytes) (fuel1 : nat) : ∀ (fuel2 : nat) (w : world),
  (length (inputs w) < fuel1)%nat → (length (inputs w) < fuel2)%nat →
  getpassword_loop C fuel1 repeat mode salt w
  = getpassword_loop C fuel2 repeat mode salt w.
Proof.
  induction fuel1 as [|fuel1 IH]; intros fuel2 w H1 H2; [lia|].
  destruct fuel2 as [|fuel2]; [lia|].
  cbn [getpassword_loop]. unfold mbind, M_bind.
  destruct (getpassword C repeat mode salt w) as [[[k|]|] w1] eqn:Hg;
    try done.
  apply getpassword_spec in Hg as (_ & _ & _ & Hlt).
  specialize (Hlt eq_refl). apply IH; lia.
Qed.

(** X9. The prompt loop ends: with a bound of more rounds than there are
    answers left, the result does not depend on the bound. *)
Theorem getpassword_loop_ends (repeat : bool) (mode : sxf_mode_t)
    (salt : bytes) (fuel : nat) (w : world) :
  (length (inputs w) < fuel)%nat →
  getpassword_loop C fuel repeat mode salt w
  = getpassword_retry C repeat mode salt w
  ∧ ∀ r w', getpassword_loop C fuel repeat mode salt w = (r, w') →
      files w' = files w ∧ meta w' = meta w
      ∧ ∀ k, r = Some k → blen k = KEY_SIZE.
Proof.
  intros Hf. split.
  - unfold getpassword_retry. apply getpassword_loop_fuel; lia.
  - intros r w'. apply getpassword_loop_spec.
Qed.

End PasswordExtras.

(** ** Further properties of [aes256_data_prepare] *)

Section PrepareExtras.
Context (C : crypto) (E : env).

(** X10. A fingerprint made by [keyfp] for a key is accepted by [keyfp] for
    that key. *)
Theorem keyfp_round_trip (k fp : bytes) (w w' : world) :
  (16 ≤ length (rand_bytes E))%nat →
  keyfp C E k None w = (Some fp, w') →
  w' = w ∧ blen fp = FP_SIZE ∧ keyfp C E k (Some fp) w = (Some [], w).
Proof.
  intros Hr. unfold keyfp. unfold mbind, M_bind, or_error.
  set (hex := sxi_bin2hex C _).
  set (salt := slice (rand_bytes E) 0 SALT_SIZE).
  assert (Hs : length salt = 16%nat).
  { unfold salt, slice. rewrite drop_0, length_take.
    change (Z.to_nat SALT_SIZE) with 16%nat. lia. }
  destruct (derive_key C hex salt SALT_SIZE KEY_SIZE w) as [[d|] w1] eqn:Hd;
    [|done].
  pose proof Hd as Hd'.
  apply derive_key_spec in Hd' as (_ & _ & _ & Hk).
  destruct (Hk d eq_refl) as [Hlen ->].
  intros [= <- <-].
  assert (Hd64 : length d = 64%nat).
  { unfold blen in Hlen. unfold_consts. lia. }
  assert (Hs0 : slice salt 0 SALT_SIZE = salt).
  { rewrite slice_0. apply take_ge. rewrite Hs. done. }
  assert (Hd0 : slice d 0 KEY_SIZE = d).
  { rewrite slice_0. apply take_ge. rewrite Hd64. done. }
  rewrite Hs0, Hd0.
  assert (H1 : slice (salt ++ d) 0 SALT_SIZE = salt).
  { rewrite slice_0. change (Z.to_nat SALT_SIZE) with 16%nat.
    rewrite take_app_length'; done. }
  assert (H2 : slice (salt ++ d) SALT_SIZE KEY_SIZE = d).
  { unfold slice. change (Z.to_nat SALT_SIZE) with 16%nat.
    rewrite drop_app_length' by done. apply take_ge. rewrite Hd64. done. }
  split_and!; [done| |].
  - rewrite blen_app. unfold blen. rewrite Hs, Hd64. done.
  - rewrite H1, H2, Hd. unfold memcmp_differs.
    rewrite bool_decide_eq_false_2; [done|]. intros H; by apply H.
Qed.

(** A key file of 64 bytes or more is the key: nothing is asked and
    nothing is changed. *)
Lemma acquire_key_cached cfgdir l mode w (data : bytes) :
  l_keyread l = false →
  files w !! String.append cfgdir "/key" = Some data →
  KEY_SIZE ≤ blen data →
  fails E F_malloc_keyfile = false → fails E F_open_key_rdonly = false →
  fails E F_read_key = false →
  acquire_key C E cfgdir l mode w
  = (Some (slice data 0 KEY_SIZE, Some (String.append cfgdir "/key")), w).
Proof.
  intros Hkr Hf Hlen F1 F2 F3. unfold acquire_key. rewrite Hkr, F1.
  run_M. rewrite Hf, F2, F3. cbn.
  rewrite bool_decide_eq_false_2 by lia. done.
Qed.

Lemma acquire_key_written cfgdir l mode w k kfo w' :
  l_keyread l = false →
  files w !! String.append cfgdir "/key" = None →
  fails E F_open_key_trunc = false → fails E F_write_key = false →
  fails E F_close_key = false →
  acquire_key C E cfgdir l mode w = (Some (k, kfo), w') →
  files w' !! String.append cfgdir "/key" = Some k ∧ blen k = KEY_SIZE
  ∧ kfo = Some (String.append cfgdir "/key").
Proof.
  intros Hkr Hnone F1 F2 F3 Ha.
  pose proof (acquire_key_spec C E cfgdir l mode w _ _ Ha) as [_ Hk].
  destruct (Hk k kfo eq_refl Hkr) as [Hlen ->]. split; [|done].
  revert Ha. unfold acquire_key. rewrite Hkr.
  destruct (fails E F_malloc_keyfile); run_M; [done|].
  set (kf := String.append cfgdir "/key") in *. rewrite Hnone.
  set (pre := if fails E F_open_key_rdonly then _ else _).
  assert (Hpre : ∃ wc, pre w = (Some None, wc)).
  { unfold pre. destruct (fails E F_open_key_rdonly).
    { eexists. reflexivity. }
    destruct (l_have_fp l); eexists; reflexivity. }
  destruct Hpre as (wc & ->). clear pre.
  destruct (getpassword_retry C _ mode (l_salt l) wc) as [[k'|] w1];
    [|done].
  set (mid := if l_have_fp l then _ else _).
  destruct (mid w1) as [[[]|] wm]; [|done].
  destruct (persist_key_spec E kf k' wm) as (wp & -> & P1 & P2 & P3 & P4).
  rewrite F1, F2, F3 in P4. destruct P4 as [P4 _].
  intros [= <- <-]. rewrite P4. f_equal. apply take_ge.
  unfold blen in Hlen. lia.
Qed.

(** X11. The key file is a cache of the key: once a call has derived the key
    and written the file, a later call gets the same key from the file,
    asks for no password and changes nothing. *)
Theorem key_cache_round_trip (cfgdir : string) (l l' : locals)
    (mode mode' : sxf_mode_t) (w w1 : world) (k : bytes)
    (kfo : option string) :
  l_keyread l = false → l_keyread l' = false →
  files w !! String.append cfgdir "/key" = None →
  fails E F_malloc_keyfile = false → fails E F_open_key_rdonly = false →
  fails E F_read_key = false →
  fails E F_open_key_trunc = false → fails E F_write_key = false →
  fails E F_close_key = false →
  acquire_key C E cfgdir l mode w = (Some (k, kfo), w1) →
  acquire_key C E cfgdir l' mode' w1
  = (Some (k, Some (String.append cfgdir "/key")), w1).
Proof.
  intros Hkr Hkr' Hnone F1 F2 F3 F4 F5 F6 Ha.
  destruct (acquire_key_written cfgdir l mode w k kfo w1 Hkr Hnone F4 F5 F6
              Ha) as (Hf & Hlen & _).
  rewrite (acquire_key_cached cfgdir l' mode' w1 k Hkr' Hf) by (done || lia).
  do 3 f_equal. rewrite slice_0. apply take_ge. unfold blen in Hlen. lia.
Qed.

(** X12. When no key comes out, no file and no metadata has been written:
    a wrong password leaves no key file behind. *)
Theorem failed_key_writes_nothing (cfgdir : string) (l : locals)
    (mode : sxf_mode_t) (w w' : world) :
  acquire_key C E cfgdir l mode w = (None, w') →
  files w' = files w ∧ meta w' = meta w.
Proof.
  unfold acquire_key. destruct (l_keyread l); [done|].
  destruct (fails E F_malloc_keyfile); run_M; [by intros [= <-]|].
  set (kf := String.append cfgdir "/key").
  set (pre := if fails E F_open_key_rdonly then _ else _).
  assert (Hpre : ∃ c wc, pre w = (Some c, wc) ∧ files wc = files w
            ∧ meta wc = meta w).
  { unfold pre. destruct (fails E F_open_key_rdonly).
    { eexists _, _. split; [reflexivity|done]. }
    destruct (files w !! kf) as [data|].
    - destruct (fails E F_read_key || bool_decide (blen data < KEY_SIZE));
        eexists _, _; (split; [reflexivity|done]).
    - destruct (l_have_fp l); eexists _, _; (split; [reflexivity|done]). }
  destruct Hpre as (c & wc & -> & Hf & Hm). clear pre.
  destruct c as [k|]; [done|].
  destruct (getpassword_retry C _ mode (l_salt l) wc) as [[k|] w1] eqn:Hg;
    apply getpassword_retry_spec in Hg as (G1 & G2 & G3);
    [|intros [= <-]; cbn; split; congruence].
  set (mid := if l_have_fp l then _ else _).
  assert (Hmid : ∃ rm wm, mid w1 = (rm, wm)
            ∧ (rm = None → files wm = files w1 ∧ meta wm = meta w1)).
  { unfold mid. destruct (l_have_fp l).
    - destruct (keyfp C E k (Some (l_fp l)) w1) as [[d|] w2] eqn:Hk;
        apply keyfp_spec in Hk as (K1 & K2 & K3);
        eexists _, _; (split; [reflexivity|]); done.
    - destruct (keyfp C E k None w1) as [[d|] w2] eqn:Hk;
        apply keyfp_spec in Hk as (K1 & K2 & K3);
        [destruct (fails E F_meta_setval)|];
        eexists _, _; (split; [reflexivity|]); done. }
  destruct Hmid as (rm & wm & -> & Hfm). clear mid.
  destruct rm as [[]|].
  - by destruct (persist_key_spec E kf k wm) as (wp & -> & _).
  - intros [= <-]. destruct (Hfm eq_refl). cbn. split; congruence.
Qed.

(** X13. Paranoid mode: with a blob of 16 bytes [prepare] reads and writes
    no file and no metadata, and the context names no key file. *)
Theorem paranoid_mode_no_files (filename cfgdir : string) (b : bytes)
    (mode : sxf_mode_t) (w w' : world) (r : option aes256_ctx) :
  blen b = SALT_SIZE →
  aes256_data_prepare C E filename cfgdir (Some b) mode w = (r, w') →
  files w' = files w ∧ meta w' = meta w
  ∧ ∀ a, r = Some a → keyfile a = None ∧ blen (key a) = KEY_SIZE.
Proof.
  intros Hb. unfold aes256_data_prepare.
  case_decide; [by intros [= <- <-]|].
  unfold mbind, M_bind.
  rewrite reconcile_custfp_other by (rewrite Hb; unfold_consts; lia).
  unfold dispatch_blob. rewrite decide_True by done.
  unfold mbind, M_bind, NOTICE, sxc_filter_msg.
  match goal with
  | |- context [getpassword_retry ?c ?b ?m ?s ?w0] =>
      destruct (getpassword_retry c b m s w0) as [[k|] w1] eqn:Hg
  end;
    apply getpassword_retry_spec in Hg as (G1 & G2 & G3);
    [|by intros [= <- <-]].
  cbn. unfold acquire_key. cbn.
  destruct (init_contexts_spec E k None mode) as (ri & Hi).
  destruct (Hi w1) as (wi & Hwi & I1 & I2 & _). rewrite Hwi.
  intros [= <- <-]. cbn in G1, G2. split_and!; [congruence|congruence|].
  intros a ->. apply init_contexts_some in Hwi as [-> _].
  split.
  - unfold prepared_ctx. by destruct (decide (mode = SXF_MODE_UPLOAD)).
  - rewrite key_prepared_ctx; by apply G3.
Qed.

#[local] Arguments memcpy : simpl never.

Lemma reconcile_custfp_frame cfgdir cfgdata w r w' :
  reconcile_custfp E cfgdir cfgdata w = (r, w') →
  meta w' = meta w ∧ inputs w' = inputs w
  ∧ ∀ q, q ≠ String.append cfgdir "/custfp" →
         q ≠ String.append cfgdir "/key" → files w' !! q = files w !! q.
Proof.
  unfold reconcile_custfp. case_decide; [|by intros [= <- <-]].
  run_M. destruct (meta w !! "aes256_fp") as [v|]; [|by intros [= <- <-]].
  repeat first
    [ match goal with
      | |- context [fails E ?f] => destruct (fails E f)
      | |- context [bool_decide ?P] => destruct (bool_decide P)
      | |- context [memcmp_differs ?a ?b ?c] =>
          destruct (memcmp_differs a b c)
      end
    | progress cbn ];
    intros [= <- <-]; cbn; split_and!; try done;
    intros q Hq1 Hq2;
    by rewrite ?lookup_delete_ne, ?lookup_insert_ne by done.
Qed.

(** X14. [prepare] creates, changes and removes no file other than [custfp]
    and [key] in the configuration directory. *)
Theorem prepare_files_frame (filename cfgdir : string)
    (cfgdata : option bytes) (mode : sxf_mode_t) (w w' : world)
    (r : option aes256_ctx) (q : string) :
  q ≠ String.append cfgdir "/custfp" → q ≠ String.append cfgdir "/key" →
  aes256_data_prepare C E filename cfgdir cfgdata mode w = (r, w') →
  files w' !! q = files w !! q.
Proof.
  intros Hq1 Hq2. unfold aes256_data_prepare.
  case_decide; [by intros [= <- <-]|].
  unfold mbind, M_bind.
  destruct (reconcile_custfp E cfgdir cfgdata w) as [[cfg|] wr] eqn:Hr;
    apply reconcile_custfp_frame in Hr as (_ & _ & R);
    [|intros [= <- <-]; by apply R].
  destruct (dispatch_blob C E filename cfg mode wr) as [[l|] wd] eqn:Hd;
    apply dispatch_blob_spec in Hd as (D1 & _);
    [|intros [= <- <-]; rewrite D1; by apply R].
  destruct (acquire_key C E cfgdir l mode wd) as [[[k kf]|] wa] eqn:Ha;
    apply acquire_key_spec in Ha as (A1 & _);
    [|intros [= <- <-]; rewrite A1, D1 by done; by apply R].
  destruct (init_contexts_spec E k kf mode) as (ri & Hi).
  destruct (Hi wa) as (wi & -> & I1 & _).
  intros [= <- <-]. rewrite I1, A1, D1 by done. by apply R.
Qed.

Lemma reconcile_custfp_same cfgdir cfgdata w (V1 V2 : bytes) :
  cfgdata = None ∨ blen (default [] cfgdata) = SALT_SIZE + 1 →
  meta w !! "aes256_fp" = Some V2 →
  files w !! String.append cfgdir "/custfp" = Some V1 →
  SALT_SIZE + FP_SIZE ≤ blen V1 →
  take (length V2) (take 96 V1) = take (length V2) V2 →
  fails E F_malloc_fpfile = false → fails E F_open_custfp_rdonly = false →
  fails E F_read_custfp = false → fails E F_close_custfp = false →
  reconcile_custfp E cfgdir cfgdata w = (Some (Some V2), w).
Proof.
  intros Hc Hm Hf Hlen Heq F1 F2 F3 F4. unfold reconcile_custfp.
  rewrite decide_True by done. run_M. rewrite Hm, F1. cbn.
  rewrite Hf. rewrite bool_decide_eq_true_2 by done. cbn.
  rewrite F2, F3. cbn. rewrite ?Hf. cbn.
  assert (Hl : blen (slice V1 0 (SALT_SIZE + FP_SIZE)) = SALT_SIZE + FP_SIZE).
  { unfold blen, slice. rewrite drop_0, length_take.
    unfold blen in *. unfold_consts. lia. }
  rewrite bool_decide_eq_false_2 by (intros H; by apply H). cbn.
  assert (Hd : memcmp_differs (slice V1 0 (SALT_SIZE + FP_SIZE)) V2 (blen V2)
               = false).
  { unfold memcmp_differs. apply bool_decide_eq_false_2.
    rewrite to_nat_blen. unfold slice. rewrite drop_0.
    intros H. by apply H. }
  rewrite Hd. cbn. by rewrite F4.
Qed.

(** X15. The fingerprint file is written when it is missing, and a call that
    finds it equal to the metadata changes nothing. *)
Theorem custfp_created_then_kept (cfgdir : string) (cfgdata : option bytes)
    (w : world) (V2 : bytes) :
  let custfp := String.append cfgdir "/custfp" in
  cfgdata = None ∨ blen (default [] cfgdata) = SALT_SIZE + 1 →
  meta w !! "aes256_fp" = Some V2 → blen V2 = SALT_SIZE + FP_SIZE →
  files w !! custfp = None →
  fails E F_malloc_fpfile = false → fails E F_open_custfp_creat = false →
  fails E F_write_custfp = false → fails E F_open_custfp_rdonly = false →
  fails E F_read_custfp = false → fails E F_close_custfp = false →
  ∃ w1,
    reconcile_custfp E cfgdir cfgdata w = (Some (Some V2), w1)
    ∧ files w1 = <[custfp := V2]> (files w)
    ∧ meta w1 = meta w ∧ inputs w1 = inputs w ∧ log w1 = log w
    ∧ reconcile_custfp E cfgdir cfgdata w1 = (Some (Some V2), w1).
Proof.
  intros custfp Hc Hm Hlen Hf F1 F2 F3 F4 F5 F6.
  assert (Hl : length V2 = 96%nat).
  { unfold blen in Hlen. unfold_consts. lia. }
  assert (Hmc : memcpy [] 0 V2 (blen V2) = V2).
  { unfold memcpy. rewrite to_nat_blen, (take_ge V2) by lia.
    by rewrite take_nil, drop_nil, app_nil_r. }
  exists (set_files (<[custfp := V2]> (files w)) w).
  split_and!; try done.
  - unfold reconcile_custfp. rewrite decide_True by done. run_M.
    rewrite Hm, F1. cbn. fold custfp. rewrite Hf.
    rewrite bool_decide_eq_false_2 by (by intros [? ?]). cbn.
    rewrite F2, F3, F6. cbn. f_equal. unfold set_files. cbn. f_equal.
    rewrite ?lookup_insert_eq, ?Hf. cbn. rewrite Hmc. apply insert_insert_eq.
  - apply (reconcile_custfp_same cfgdir cfgdata _ V2 V2); try done.
    + cbn. apply lookup_insert_eq.
    + lia.
    + f_equal. apply take_ge. lia.
Qed.

End PrepareExtras.

(** ** Further properties of an upload as a whole *)

Section StreamExtras.
Context (C : crypto) (L : crypto_laws C).



End StreamExtras.

(** ** The comparison of tags *)

Lemma lor_lxor_byte (m x y : Z) :
  0 ≤ m < 256 → 0 ≤ x < 256 → 0 ≤ y < 256 →
  0 ≤ Z.lor m (Z.lxor x y) < 256.
Proof.
  intros Hm Hx Hy.
  assert (Hxy : 0 ≤ Z.lxor x y) by (apply Z.lxor_nonneg; lia).
  split; [apply Z.lor_nonneg; lia|].
  destruct (decide (Z.lor m (Z.lxor x y) = 0)) as [->|Hne]; [lia|].
  assert (0 < Z.lor m (Z.lxor x y)).
  { pose proof (proj2 (Z.lor_nonneg m (Z.lxor x y)) (conj (proj1 Hm) Hxy)).
    lia. }
  apply (Z.log2_lt_pow2 _ 8); [done|].
  rewrite Z.log2_lor by lia.
  assert (Z.log2 m < 8).
  { destruct (decide (m = 0)) as [->|]; [done|].
    apply Z.log2_lt_pow2; lia. }
  assert (Z.log2 (Z.lxor x y) < 8).
  { pose proof (Z.log2_lxor x y ltac:(lia) ltac:(lia)).
    assert (Z.log2 x < 8).
    { destruct (decide (x = 0)) as [->|]; [done|].
      apply Z.log2_lt_pow2; lia. }
    assert (Z.log2 y < 8).
    { destruct (decide (y = 0)) as [->|]; [done|].
      apply Z.log2_lt_pow2; lia. }
    lia. }
  lia.
Qed.

Lemma hmac_compare_loop_byte len : ∀ m a b,
  0 ≤ m < 256 → 0 ≤ hmac_compare_loop m a b len < 256.
Proof.
  induction len as [|len IH]; intros m a b Hm; cbn [hmac_compare_loop];
    [done|].
  destruct a as [|x a], b as [|y b]; try done.
  apply IH. apply lor_lxor_byte; [done|apply byte_to_Z_range..].
Qed.

(** X6. [hmac_compare] answers a byte: [0] exactly when the [len] bytes
    agree, and a value from 1 to 255 otherwise. *)
Theorem hmac_compare_sound (a b : bytes) (len : Z) :
  (Z.to_nat len ≤ length a)%nat → (Z.to_nat len ≤ length b)%nat →
  0 ≤ hmac_compare a b len < 256
  ∧ (hmac_compare a b len = 0
     ↔ take (Z.to_nat len) a = take (Z.to_nat len) b)
  ∧ (take (Z.to_nat len) a ≠ take (Z.to_nat len) b →
     1 ≤ hmac_compare a b len).
Proof.
  intros Ha Hb.
  assert (Hr : 0 ≤ hmac_compare a b len < 256).
  { unfold hmac_compare. apply hmac_compare_loop_byte. lia. }
  pose proof (hmac_compare_zero a b len Ha Hb) as Hz.
  split_and!; [lia|lia|done|].
  intros Hne. destruct (decide (hmac_compare a b len = 0)) as [H0|H0]; [|lia].
  by apply Hz in H0.
Qed.

(** ** Runs of the further properties *)

(** Witness of X6: the two halves of [ex_key] differ, and [ex_key] agrees with itself. *)
Lemma hmac_compare_sound_witness :
  hmac_compare (take 32 ex_key) (drop 32 ex_key) 32 ≠ 0
  ∧ hmac_compare ex_key ex_key 64 = 0.
Proof.
  split.
  - destruct (hmac_compare_sound (take 32 ex_key) (drop 32 ex_key) 32)
      as (_ & _ & H); [vm_compute; lia|vm_compute; lia|].
    assert (1 ≤ hmac_compare (take 32 ex_key) (drop 32 ex_key) 32); [|lia].
    apply H. vm_compute. discriminate.
  - destruct (hmac_compare_sound ex_key ex_key 64)
      as (_ & H & _); [vm_compute; lia|vm_compute; lia|].
    by apply H.
Defined.

(** Witness of X1: ten bytes into a buffer of seven. *)
Lemma process_respects_outsize_witness :
  blen (p_out (aes256_data_process toy
                 (prepared_ctx ex_key None SXF_MODE_UPLOAD) ex_plain 10 7
                 SXF_MODE_UPLOAD SXF_ACTION_DATA_END)) ≤ 7.
Proof.
  destruct (process_respects_outsize toy
              (prepared_ctx ex_key None SXF_MODE_UPLOAD) ex_plain 10 7
              SXF_MODE_UPLOAD SXF_ACTION_DATA_END) as (_ & H & _);
    [lia|vm_compute; discriminate|exact H].
Defined.

(** Witness of X2: 448 bytes pending, a buffer of 100. *)
Lemma drain_partial_witness :
  let r := aes256_data_process toy (p_ctx ex_drain_first) ex_long_plain
             16394 100 SXF_MODE_UPLOAD SXF_ACTION_REPEAT in
  p_ret r = 100 ∧ p_action r = SXF_ACTION_REPEAT
  ∧ data_out_left (p_ctx r) = data_out_left (p_ctx ex_drain_first) - 100.
Proof.
  destruct (drain_partial toy (p_ctx ex_drain_first) ex_long_plain 16394 100
              SXF_MODE_UPLOAD) as (H1 & _ & H2 & H3 & _).
  - vm_compute. split; [discriminate|reflexivity].
  - vm_compute. reflexivity.
  - by split_and!.
Defined.

(** Witness of X3: the end of an empty upload. *)
Lemma process_empty_input_witness :
  let r := aes256_data_process toy
             (prepared_ctx ex_key None SXF_MODE_UPLOAD) [] 0 100
             SXF_MODE_UPLOAD SXF_ACTION_DATA_END in
  p_ret r = 0 ∧ p_out r = [] ∧ p_action r = SXF_ACTION_NORMAL.
Proof.
  destruct (process_empty_input toy
              (prepared_ctx ex_key None SXF_MODE_UPLOAD) [] 100
              SXF_MODE_UPLOAD SXF_ACTION_DATA_END) as (H1 & H2 & H3 & _);
    try reflexivity.
  by split_and!.
Defined.

(** Witness of X4: the first 20 bytes of a wire block, then the end of the data. *)
Lemma download_incomplete_block_witness :
  let r := aes256_data_process toy
             (prepared_ctx ex_key None SXF_MODE_DOWNLOAD) (take 20 ex_wire)
             20 100 SXF_MODE_DOWNLOAD SXF_ACTION_DATA_END in
  p_ret r = -1 ∧ p_out r = [] ∧ decrypt_err (p_ctx r) = 0.
Proof.
  destruct (download_incomplete_block toy
              (prepared_ctx ex_key None SXF_MODE_DOWNLOAD) (take 20 ex_wire)
              20 100 SXF_ACTION_DATA_END) as (H1 & H2 & _ & H3 & _).
  - intros [? _]. discriminate.
  - right. split; [vm_compute; discriminate|left; reflexivity].
  - vm_compute. reflexivity.
  - by split_and!.
Defined.

(** Witness of X9: two answers, a bound of five rounds. *)
Lemma getpassword_loop_ends_witness :
  getpassword_loop toy 5 true SXF_MODE_UPLOAD (stack_salt ex_env) ex_world
  = getpassword_retry toy true SXF_MODE_UPLOAD (stack_salt ex_env) ex_world.
Proof.
  destruct (getpassword_loop_ends toy true SXF_MODE_UPLOAD
              (stack_salt ex_env) 5 ex_world) as [H _];
    [vm_compute; lia|exact H].
Defined.

(** Witness of X10: the fingerprint of [ex_key]. *)
Lemma keyfp_round_trip_witness :
  ∃ fp, fst ex_keyfp_run = Some fp
        ∧ keyfp toy ex_env ex_key (Some fp) ex_world = (Some [], ex_world).
Proof.
  assert (Hrun : ∃ fp, ex_keyfp_run = (Some fp, ex_world)).
  { vm_compute. eexists. reflexivity. }
  destruct Hrun as (fp & Hrun). exists fp. split; [by rewrite Hrun|].
  destruct (keyfp_round_trip toy ex_env ex_key fp ex_world ex_world)
    as (_ & _ & H); [vm_compute; lia|exact Hrun|exact H].
Defined.

(** Witness of X11: a first upload, then a download in the same directory. *)
Lemma key_cache_round_trip_witness :
  ∃ k w1,
    ex_acquire_run = (Some (k, Some "cfg/key"), w1)
    ∧ acquire_key toy ex_env "cfg" ex_locals SXF_MODE_DOWNLOAD w1
      = (Some (k, Some "cfg/key"), w1).
Proof.
  assert (Hrun : ∃ k w1, ex_acquire_run = (Some (k, Some "cfg/key"), w1)).
  { vm_compute. eexists _, _. reflexivity. }
  destruct Hrun as (k & w1 & Hrun). exists k, w1. split; [exact Hrun|].
  apply (key_cache_round_trip toy ex_env "cfg" ex_locals ex_locals
           SXF_MODE_UPLOAD SXF_MODE_DOWNLOAD ex_world w1 k (Some "cfg/key"));
    try reflexivity.
  exact Hrun.
Defined.

(** Witness of X12: no answer to the prompt. *)
Lemma failed_key_writes_nothing_witness :
  fst (acquire_key toy ex_env "cfg" ex_locals SXF_MODE_UPLOAD ex_world_silent)
  = None
  ∧ files (snd (acquire_key toy ex_env "cfg" ex_locals SXF_MODE_UPLOAD
                  ex_world_silent)) = files ex_world_silent.
Proof.
  split; [vm_compute; reflexivity|].
  apply (failed_key_writes_nothing toy ex_env "cfg" ex_locals
           SXF_MODE_UPLOAD ex_world_silent).
  vm_compute. reflexivity.
Defined.

(** Witness of X13: a blob of 16 zero bytes. *)
Lemma paranoid_mode_no_files_witness :
  ∃ a w',
    aes256_data_prepare toy ex_env "file" "cfg" (Some (zeros 16))
      SXF_MODE_UPLOAD ex_world = (Some a, w')
    ∧ files w' = files ex_world ∧ keyfile a = None.
Proof.
  assert (Hrun : ∃ a w',
            aes256_data_prepare toy ex_env "file" "cfg" (Some (zeros 16))
              SXF_MODE_UPLOAD ex_world = (Some a, w')).
  { vm_compute. eexists _, _. reflexivity. }
  destruct Hrun as (a & w' & Hrun). exists a, w'. split; [exact Hrun|].
  destruct (paranoid_mode_no_files toy ex_env "file" "cfg" (zeros 16)
              SXF_MODE_UPLOAD ex_world w' (Some a)) as (H1 & _ & H2);
    [reflexivity|exact Hrun|].
  split; [exact H1|]. by destruct (H2 a eq_refl).
Defined.

(** Witness of X14: the run of the password change and another file name. *)
Lemma prepare_files_frame_witness :
  files (snd ex_changed_run) !! "cfg/other"
  = files ex_world_changed !! "cfg/other".
Proof.
  apply (prepare_files_frame toy ex_env "file" "cfg" None SXF_MODE_DOWNLOAD
           ex_world_changed (snd ex_changed_run) (fst ex_changed_run));
    [discriminate|discriminate|].
  unfold ex_changed_run. by destruct (aes256_data_prepare _ _ _ _ _ _ _).
Defined.

(** Witness of X15: a volume with the fingerprint [ex_fp2] and an empty directory. *)
Lemma custfp_created_then_kept_witness :
  ∃ w1,
    reconcile_custfp ex_env "cfg" None ex_world_meta = (Some (Some ex_fp2), w1)
    ∧ files w1 !! "cfg/custfp" = Some ex_fp2
    ∧ reconcile_custfp ex_env "cfg" None w1 = (Some (Some ex_fp2), w1).
Proof.
  destruct (custfp_created_then_kept ex_env "cfg" None ex_world_meta ex_fp2)
    as (w1 & H1 & H2 & _ & _ & _ & H3).
  - by left.
  - vm_compute. reflexivity.
  - vm_compute. reflexivity.
  - vm_compute. reflexivity.
  - reflexivity.
  - reflexivity.
  - reflexivity.
  - reflexivity.
  - reflexivity.
  - reflexivity.
  - exists w1. split_and!; [exact H1| |exact H3].
    rewrite H2. apply lookup_insert_eq.
Defined.

